(** * klaus.ctagscache: the two-sector cache of ctags tagsfiles

    A shallow embedding of [klaus/ctagscache.py].  The [CTagsCache] object,
    the temporary files it owns and a log of the calls it makes are one
    explicit state; every method is a function in a state-and-exception monad
    in which, as in Python, the mutations made before an exception is raised
    stay in place. *)

From Stdlib Require Import ZArith List String Ascii Bool Lia Permutation.
From Stdlib.Strings Require Import Byte.
Import ListNotations.
Local Open Scope Z_scope.

(** ** Values *)

(** Paths handed out by [tempfile.mkstemp]: the n-th temporary file. *)
Definition path := nat.
Definition bytes := list byte.

(** What Python raises on the paths modelled here. *)
Inductive exn : Type :=
| AssertionError      (* assert len(git_rev) == 40 *)
| CreationFailure     (* create_tagsfile failed *)
| IOError             (* open / gzip failed *)
| OSError             (* os.path.getsize on a missing file *)
| KeyError            (* dict lookup of an absent key *)
| AttributeError      (* attribute access on None *)
| Deadlock            (* acquiring threading.Lock while it is held *)
| OutOfFuel.          (* loop bound of the model exhausted; shown unreachable *)

Inductive result (A : Type) : Type :=
| Ok (a : A)
| Err (e : exn).
Arguments Ok {A} a.
Arguments Err {A} e.

(** The calls the cache makes, in order. *)
Inductive event : Type :=
| LockAcquire
| LockRelease
| CreateTagsfile (git_repo_path git_rev : string)
| DeleteTagsfile (p : path)
| CompressTagsfile (p : path)
| UncompressTagsfile (p : path)
| ClearUncompressedEntry (git_rev : string) (p : path)
| ClearCompressedEntry (git_rev : string) (p : path).

(** ** dulwich.lru_cache.LRUSizeCache

    The source keeps its two sectors in [dulwich.lru_cache.LRUSizeCache]
    objects (line 34, lines 91-92) and calls [__contains__], [__getitem__],
    [add], [clear], [_remove_node] and reads [_cache] on them.  The class is
    transcribed here from the library: a doubly linked list of nodes from
    [_least_recently_used] to [_most_recently_used] plus the dict [_cache]
    from keys to nodes.  The list below is that linked list, least recently
    used node first; the dict is the list seen through its keys. *)

Record LRUNode : Type := mkNode {
  key : string;
  value : path;
  size : Z
}.

Record LRUSizeCache : Type := mkLRU {
  max_size : Z;            (* _max_size *)
  after_cleanup_size : Z;  (* _after_cleanup_size *)
  value_size : Z;          (* _value_size *)
  nodes : list LRUNode     (* _cache / linked list, LRU first *)
}.

(** [LRUSizeCache.__init__(max_size, compute_size=...)], that is
    [_update_max_size(max_size, after_cleanup_size=None)]:
    [_after_cleanup_size = _max_size * 8 // 10]. *)
Definition LRUSizeCache_init (max : Z) : LRUSizeCache :=
  mkLRU max (max * 8 / 10) 0 [].

Definition keys (c : LRUSizeCache) : list string := map key (nodes c).
Definition values (c : LRUSizeCache) : list path := map value (nodes c).

(** [self._cache.get(key, None)] *)
Definition cache_get (c : LRUSizeCache) (k : string) : option LRUNode :=
  find (fun n => String.eqb (key n) k) (nodes c).

(** [key in self._cache] *)
Definition mem (c : LRUSizeCache) (k : string) : bool :=
  existsb (fun n => String.eqb (key n) k) (nodes c).

(** Unlinking the node stored under [k]: [self._cache.pop(k)] and the
    pointer updates of [_remove_node]. *)
Definition unlink (k : string) (l : list LRUNode) : list LRUNode :=
  filter (fun n => negb (String.eqb (key n) k)) l.

(** [_record_access(node)]: the node becomes [_most_recently_used]. *)
Definition record_access (n : LRUNode) (l : list LRUNode) : list LRUNode :=
  unlink (key n) l ++ [n].


(** ** The cache object and its world *)

Record state : Type := mkState {
  uncompressed_max_bytes : Z;
  compressed_max_bytes : Z;
  uncompressed_cache : LRUSizeCache;   (* self._uncompressed_cache *)
  compressed_cache : LRUSizeCache;     (* self._compressed_cache *)
  clearing : bool;                     (* self._clearing *)
  lock : bool;                         (* self._lock is held *)
  disk : path -> option bytes;         (* the temporary files *)
  next_tmp : path;                     (* next name mkstemp hands out *)
  trace : list event                   (* calls made so far, oldest first *)
}.

Inductive sector : Type := Uncompressed | Compressed.

Definition sector_of (w : sector) (s : state) : LRUSizeCache :=
  match w with
  | Uncompressed => uncompressed_cache s
  | Compressed => compressed_cache s
  end.

Definition set_sector (w : sector) (c : LRUSizeCache) (s : state) : state :=
  match w with
  | Uncompressed =>
      mkState (uncompressed_max_bytes s) (compressed_max_bytes s) c
        (compressed_cache s) (clearing s) (lock s) (disk s) (next_tmp s)
        (trace s)
  | Compressed =>
      mkState (uncompressed_max_bytes s) (compressed_max_bytes s)
        (uncompressed_cache s) c (clearing s) (lock s) (disk s) (next_tmp s)
        (trace s)
  end.

Definition set_clearing (b : bool) (s : state) : state :=
  mkState (uncompressed_max_bytes s) (compressed_max_bytes s)
    (uncompressed_cache s) (compressed_cache s) b (lock s) (disk s)
    (next_tmp s) (trace s).

Definition set_lock (b : bool) (s : state) : state :=
  mkState (uncompressed_max_bytes s) (compressed_max_bytes s)
    (uncompressed_cache s) (compressed_cache s) (clearing s) b (disk s)
    (next_tmp s) (trace s).

Definition set_disk (d : path -> option bytes) (s : state) : state :=
  mkState (uncompressed_max_bytes s) (compressed_max_bytes s)
    (uncompressed_cache s) (compressed_cache s) (clearing s) (lock s) d
    (next_tmp s) (trace s).

Definition set_next_tmp (n : path) (s : state) : state :=
  mkState (uncompressed_max_bytes s) (compressed_max_bytes s)
    (uncompressed_cache s) (compressed_cache s) (clearing s) (lock s)
    (disk s) n (trace s).

Definition log (e : event) (s : state) : state :=
  mkState (uncompressed_max_bytes s) (compressed_max_bytes s)
    (uncompressed_cache s) (compressed_cache s) (clearing s) (lock s)
    (disk s) (next_tmp s) (trace s ++ [e]).

Definition upd (d : path -> option bytes) (p : path) (o : option bytes)
  : path -> option bytes :=
  fun q => if Nat.eqb q p then o else d q.

(** ** The monad *)

Definition M (A : Type) : Type := state -> result A * state.

Definition ret {A} (a : A) : M A := fun s => (Ok a, s).
Definition raise {A} (e : exn) : M A := fun s => (Err e, s).
Definition bind {A B} (m : M A) (k : A -> M B) : M B :=
  fun s =>
    match m s with
    | (Ok a, s') => k a s'
    | (Err e, s') => (Err e, s')
    end.
Definition modify (f : state -> state) : M unit := fun s => (Ok tt, f s).
Definition gets {A} (f : state -> A) : M A := fun s => (Ok (f s), s).

Notation "x <- m ;; k" := (bind m (fun x => k))
  (at level 61, m at next level, right associativity).
Notation "m ;; k" := (bind m (fun _ => k))
  (at level 61, right associativity).

(** ** Files *)

(** [tempfile.mkstemp()]: a new, empty file under a name not in use. *)
Definition mkstemp : M path :=
  fun s =>
    let p := next_tmp s in
    (Ok p, set_next_tmp (S p) (set_disk (upd (disk s) p (Some [])) s)).

(** [open(p, 'rb').read()] *)
Definition read_file (p : path) : M bytes :=
  fun s =>
    match disk s p with
    | Some b => (Ok b, s)
    | None => (Err IOError, s)
    end.

Definition write_file (p : path) (b : bytes) : M unit :=
  modify (fun s => set_disk (upd (disk s) p (Some b)) s).

(** [os.path.getsize], the [compute_size] of both sectors. *)
Definition getsize (p : path) : M Z :=
  fun s =>
    match disk s p with
    | Some b => (Ok (Z.of_nat (List.length b)), s)
    | None => (Err OSError, s)
    end.

(** ** Methods of LRUSizeCache

    The methods act on one of the two sectors of the state.  Every node of a
    sector is added with the same bound method as its [cleanup] (line 134 for
    the uncompressed sector, line 150 for the compressed one), so the
    [cleanup] slot of the nodes of a sector is one function, [run_cleanup]. *)

Section LRUSizeCacheMethods.

Variable w : sector.
Variable run_cleanup : string -> path -> M unit.

Definition with_nodes (f : LRUSizeCache -> LRUSizeCache) : M unit :=
  modify (fun s => set_sector w (f (sector_of w s)) s).

(** [__contains__] *)
Definition contains (k : string) : M bool :=
  gets (fun s => mem (sector_of w s) k).

(** [self._cache[k]] *)
Definition cache_lookup (k : string) : M LRUNode :=
  fun s =>
    match cache_get (sector_of w s) k with
    | Some n => (Ok n, s)
    | None => (Err KeyError, s)
    end.

(** [__getitem__]: the node moves to the most recently used end. *)
Definition getitem (k : string) : M path :=
  n <- cache_lookup k ;;
  with_nodes (fun c =>
    mkLRU (max_size c) (after_cleanup_size c) (value_size c)
      (record_access n (nodes c))) ;;
  ret (value n).

(** [LRUSizeCache._remove_node] followed by [LRUCache._remove_node]:
    [_value_size -= node.size], the node leaves [_cache], then
    [node.run_cleanup()] calls the node's cleanup. *)
Definition _remove_node (n : LRUNode) : M unit :=
  with_nodes (fun c =>
    mkLRU (max_size c) (after_cleanup_size c) (value_size c - size n)
      (unlink (key n) (nodes c))) ;;
  run_cleanup (key n) (value n).

(** [_remove_lru]: [self._remove_node(self._least_recently_used)] *)
Definition _remove_lru : M unit :=
  fun s =>
    match nodes (sector_of w s) with
    | [] => (Err AttributeError, s)
    | n :: _ => _remove_node n s
    end.

(** [LRUSizeCache.cleanup]:
    [while self._value_size > self._after_cleanup_size: self._remove_lru()] *)
Fixpoint cleanup_loop (fuel : nat) : M unit :=
  fun s =>
    let c := sector_of w s in
    if value_size c >? after_cleanup_size c then
      match fuel with
      | O => (Err OutOfFuel, s)
      | S fuel' => (_remove_lru ;; cleanup_loop fuel') s
      end
    else (Ok tt, s).

Definition cleanup : M unit :=
  fun s => cleanup_loop (S (List.length (nodes (sector_of w s)))) s.

(** [LRUSizeCache.add(key, value, cleanup)].  A value of at least
    [_after_cleanup_size] bytes is "too big to fit": it is not stored and
    its cleanup runs at once.  Otherwise the node is stored as the most
    recently used one (an existing node keeps its value and gets the new
    size), and the sector is cleaned up when it went over [_max_size]. *)
Definition add (k : string) (v : path) : M unit :=
  node <- gets (fun s => cache_get (sector_of w s) k) ;;
  value_len <- getsize v ;;
  limit <- gets (fun s => after_cleanup_size (sector_of w s)) ;;
  if value_len >=? limit then
    match node with
    | Some n => _remove_node n
    | None => ret tt
    end ;;
    run_cleanup k v
  else
    with_nodes (fun c =>
      match node with
      | None =>
          mkLRU (max_size c) (after_cleanup_size c)
            (value_size c + value_len)
            (record_access (mkNode k v value_len) (nodes c))
      | Some n =>
          mkLRU (max_size c) (after_cleanup_size c)
            (value_size c - size n + value_len)
            (record_access (mkNode (key n) (value n) value_len) (nodes c))
      end) ;;
    over <- gets (fun s =>
      value_size (sector_of w s) >? max_size (sector_of w s)) ;;
    if over then cleanup else ret tt.

(** [LRUCache.clear]: [while self._cache: self._remove_lru()] *)
Fixpoint clear_loop (fuel : nat) : M unit :=
  fun s =>
    match nodes (sector_of w s) with
    | [] => (Ok tt, s)
    | _ :: _ =>
        match fuel with
        | O => (Err OutOfFuel, s)
        | S fuel' => (_remove_lru ;; clear_loop fuel') s
        end
    end.

Definition LRU_clear : M unit :=
  fun s => clear_loop (List.length (nodes (sector_of w s))) s.

End LRUSizeCacheMethods.

(** ** The collaborators *)

(** What the environment does: the tagsfile ctags writes for a repository
    and revision ([None]: the tool fails), and the gzip codec ([None]: the
    write or read fails). *)
Record env : Type := mkEnv {
  ctags : string -> string -> option bytes;
  gzip_write : Z -> bytes -> option bytes;
  gzip_read : bytes -> option bytes
}.

(* Good compression while taking only 10% more time than level 1 *)
Definition COMPRESSION_LEVEL : Z := 4.

Definition MiB : Z := 1024 * 1024.

Section CTagsCache.

Variable E : env.

(** Modelled from the spec: [klaus.ctags.create_tagsfile] is imported by
    the source and not part of it.  Section 1 and 6 of the spec:
    [create_artifact(repository_identifier, revision_identifier) -> handle],
    slow and fallible; a failure leaves nothing behind. *)
Definition create_tagsfile (git_repo_path git_rev : string) : M path :=
  modify (log (CreateTagsfile git_repo_path git_rev)) ;;
  match ctags E git_repo_path git_rev with
  | None => raise CreationFailure
  | Some b => p <- mkstemp ;; write_file p b ;; ret p
  end.

(** Modelled from the spec: [klaus.ctags.delete_tagsfile] is imported by
    the source and not part of it.  Section 6 of the spec:
    [destroy_artifact(handle)], best-effort and non-failing from the
    cache's perspective. *)
Definition delete_tagsfile (p : path) : M unit :=
  modify (fun s => set_disk (upd (disk s) p None) (log (DeleteTagsfile p) s)).

(** Compress an uncompressed tagsfile; returns the path to the compressed
    version. *)
Definition compress_tagsfile (uncompressed_tagsfile_path : path) : M path :=
  modify (log (CompressTagsfile uncompressed_tagsfile_path)) ;;
  compressed_tagsfile_path <- mkstemp ;;
  uncompressed <- read_file uncompressed_tagsfile_path ;;
  match gzip_write E COMPRESSION_LEVEL uncompressed with
  | None => raise IOError
  | Some compressed =>
      write_file compressed_tagsfile_path compressed ;;
      ret compressed_tagsfile_path
  end.

(** Uncompress a compressed tagsfile; returns the path to the uncompressed
    version. *)
Definition uncompress_tagsfile (compressed_tagsfile_path : path) : M path :=
  modify (log (UncompressTagsfile compressed_tagsfile_path)) ;;
  uncompressed_tagsfile_path <- mkstemp ;;
  compressed <- read_file compressed_tagsfile_path ;;
  match gzip_read E compressed with
  | None => raise IOError
  | Some uncompressed =>
      write_file uncompressed_tagsfile_path uncompressed ;;
      ret uncompressed_tagsfile_path
  end.

(** ** CTagsCache *)

(** Called by LRUSizeCache whenever an entry is to be evicted from the
    compressed cache: the evictee is deleted from the cache entirely. *)
Definition _clear_compressed_entry (git_rev : string)
    (compressed_tagsfile_path : path) : M unit :=
  modify (log (ClearCompressedEntry git_rev compressed_tagsfile_path)) ;;
  delete_tagsfile compressed_tagsfile_path.

(** Called by LRUSizeCache whenever an entry is to be evicted from the
    uncompressed cache: unless the whole cache is being cleared, the
    tagsfile moves to the compressed cache. *)
Definition _clear_uncompressed_entry (git_rev : string)
    (uncompressed_tagsfile_path : path) : M unit :=
  modify (log (ClearUncompressedEntry git_rev uncompressed_tagsfile_path)) ;;
  c <- gets clearing ;;
  (if negb c then
     z <- compress_tagsfile uncompressed_tagsfile_path ;;
     add Compressed _clear_compressed_entry git_rev z
   else ret tt) ;;
  delete_tagsfile uncompressed_tagsfile_path.

(** [with self._lock: body]: the lock is released on every way out. *)
Definition with_lock {A} (body : M A) : M A :=
  fun s =>
    if lock s then (Err Deadlock, s)
    else
      let (r, s') := body (set_lock true (log LockAcquire s)) in
      (r, set_lock false (log LockRelease s')).

Definition get_tagsfile (git_repo_path git_rev : string) : M path :=
  (* Always require full SHAs *)
  (if Nat.eqb (String.length git_rev) 40 then ret tt
   else raise AssertionError) ;;
  with_lock (
    hot <- contains Uncompressed git_rev ;;
    if hot then getitem Uncompressed git_rev
    else
      cold <- contains Compressed git_rev ;;
      uncompressed_tagsfile_path <-
        (if cold then
           compressed_tagsfile_path <- getitem Compressed git_rev ;;
           uncompressed_tagsfile_path <-
             uncompress_tagsfile compressed_tagsfile_path ;;
           node <- cache_lookup Compressed git_rev ;;
           _remove_node Compressed _clear_compressed_entry node ;;
           ret uncompressed_tagsfile_path
         else
           (* Not in cache. *)
           create_tagsfile git_repo_path git_rev) ;;
      add Uncompressed _clear_uncompressed_entry git_rev
        uncompressed_tagsfile_path ;;
      ret uncompressed_tagsfile_path).

(** Clear both the uncompressed and compressed caches. *)
Definition clear : M unit :=
  modify (set_clearing true) ;;
  LRU_clear Uncompressed _clear_uncompressed_entry ;;
  LRU_clear Compressed _clear_compressed_entry ;;
  modify (set_clearing false).

End CTagsCache.

(** [CTagsCache.__init__], in a world without temporary files. *)
Definition CTagsCache_init (uncompressed_max_bytes compressed_max_bytes : Z)
  : state :=
  mkState uncompressed_max_bytes compressed_max_bytes
    (LRUSizeCache_init uncompressed_max_bytes)
    (LRUSizeCache_init compressed_max_bytes)
    false false (fun _ => None) O [].

Definition CTagsCache_default : state := CTagsCache_init (30 * MiB) (20 * MiB).


(** A run of the public operations, stopping at the first one that raises. *)
Inductive op : Type :=
| Get (git_repo_path git_rev : string)
| Clear.

Definition run_op (E : env) (o : op) : M unit :=
  match o with
  | Get r k => get_tagsfile E r k ;; ret tt
  | Clear => clear E
  end.

Fixpoint run_ops (E : env) (l : list op) : M unit :=
  match l with
  | [] => ret tt
  | o :: l' => run_op E o ;; run_ops E l'
  end.

(** The state after each operation of a list, raising or not. *)
Fixpoint exec_ops (E : env) (l : list op) (s : state) : state :=
  match l with
  | [] => s
  | o :: l' => exec_ops E l' (snd (run_op E o s))
  end.

(** * Reasoning about the monad *)

(** [wp m s Q]: running [m] from [s] ends in an outcome and state that
    satisfy [Q]. *)
Definition wp {A} (m : M A) (s : state) (Q : result A -> state -> Prop) : Prop :=
  Q (fst (m s)) (snd (m s)).

Lemma wp_bind {A B} (m : M A) (k : A -> M B) s Q :
  wp m s (fun r s' =>
    match r with
    | Ok a => wp (k a) s' Q
    | Err e => Q (Err e) s'
    end) ->
  wp (bind m k) s Q.
Proof.
  unfold wp, bind. destruct (m s) as [[a|e] s']; simpl; auto.
Qed.

Lemma wp_mono {A} (m : M A) s (Q Q' : result A -> state -> Prop) :
  wp m s Q -> (forall r s', Q r s' -> Q' r s') -> wp m s Q'.
Proof. unfold wp. auto. Qed.

Lemma wp_run {A} (m : M A) s Q r s' :
  wp m s Q -> m s = (r, s') -> Q r s'.
Proof. unfold wp. intros H Heq. rewrite Heq in H. exact H. Qed.

Lemma wp_intro {A} (m : M A) s (Q : result A -> state -> Prop) :
  (forall r s', m s = (r, s') -> Q r s') -> wp m s Q.
Proof. unfold wp. intros H. apply H. destruct (m s); reflexivity. Qed.

Lemma bind_ok {A B} (m : M A) (k : A -> M B) s a s' :
  m s = (Ok a, s') -> bind m k s = k a s'.
Proof. unfold bind. intros ->. reflexivity. Qed.

Lemma bind_err {A B} (m : M A) (k : A -> M B) s e s' :
  m s = (Err e, s') -> bind m k s = (Err e, s').
Proof. unfold bind. intros ->. reflexivity. Qed.

(** * Lists of nodes *)

Definition total (l : list LRUNode) : Z :=
  fold_right (fun n acc => size n + acc) 0 l.

Lemma total_app l1 l2 : total (l1 ++ l2) = total l1 + total l2.
Proof. induction l1 as [|n l1 IH]; simpl; [reflexivity | rewrite IH; lia]. Qed.

Lemma mem_In c k : mem c k = true <-> In k (keys c).
Proof.
  unfold mem, keys. rewrite existsb_exists, in_map_iff. split.
  - intros [n [Hin Heq]]. apply String.eqb_eq in Heq. eauto.
  - intros [n [Heq Hin]]. exists n. split; [assumption|].
    apply String.eqb_eq. assumption.
Qed.

Lemma mem_false c k : mem c k = false <-> ~ In k (keys c).
Proof.
  rewrite <- mem_In. destruct (mem c k); split; intuition congruence.
Qed.

Lemma cache_get_Some c k n :
  cache_get c k = Some n -> In n (nodes c) /\ key n = k.
Proof.
  unfold cache_get. intros H. apply find_some in H. destruct H as [Hin Heq].
  apply String.eqb_eq in Heq. auto.
Qed.

Lemma cache_get_None c k : cache_get c k = None <-> ~ In k (keys c).
Proof.
  unfold cache_get, keys. split.
  - intros H Hin. apply in_map_iff in Hin. destruct Hin as [n [Heq Hin]].
    apply (find_none _ _ H) in Hin. rewrite Heq, String.eqb_refl in Hin.
    discriminate.
  - intros H. destruct (find _ _) as [n|] eqn:Hf; [|reflexivity].
    apply find_some in Hf. destruct Hf as [Hin Heq].
    apply String.eqb_eq in Heq. exfalso. apply H. apply in_map_iff. eauto.
Qed.

Lemma cache_get_In c k : In k (keys c) -> exists n, cache_get c k = Some n.
Proof.
  intros H. destruct (cache_get c k) as [n|] eqn:Hg; [eauto|].
  apply cache_get_None in Hg. contradiction.
Qed.

Lemma unlink_In k l n : In n (unlink k l) <-> In n l /\ key n <> k.
Proof.
  unfold unlink. rewrite filter_In, negb_true_iff, String.eqb_neq. tauto.
Qed.

Lemma unlink_keys k l x :
  In x (map key (unlink k l)) <-> In x (map key l) /\ x <> k.
Proof.
  rewrite !in_map_iff. split.
  - intros [n [Heq Hin]]. apply unlink_In in Hin. subst x.
    destruct Hin. eauto.
  - intros [[n [Heq Hin]] Hne]. exists n. split; [assumption|].
    apply unlink_In. subst x. auto.
Qed.

Lemma unlink_notin k l : ~ In k (map key l) -> unlink k l = l.
Proof.
  induction l as [|n l IH]; simpl; intros H; [reflexivity|].
  destruct (String.eqb (key n) k) eqn:Heq; simpl.
  - apply String.eqb_eq in Heq. tauto.
  - rewrite IH; tauto.
Qed.

Lemma unlink_app k l1 l2 : unlink k (l1 ++ l2) = unlink k l1 ++ unlink k l2.
Proof. apply filter_app. Qed.

Lemma unlink_head n l :
  NoDup (map key (n :: l)) -> unlink (key n) (n :: l) = l.
Proof.
  simpl. intros H. inversion H; subst. rewrite String.eqb_refl. simpl.
  apply unlink_notin. assumption.
Qed.

Lemma unlink_total k l n :
  NoDup (map key l) -> In n l -> key n = k ->
  total (unlink k l) = total l - size n.
Proof.
  induction l as [|m l IH]; simpl; intros Hnd Hin Hk; [contradiction|].
  inversion Hnd as [|? ? Hnotin Hnd']; subst.
  destruct Hin as [-> | Hin].
  - rewrite String.eqb_refl. simpl. rewrite unlink_notin by assumption. lia.
  - destruct (String.eqb (key m) (key n)) eqn:Heq.
    + apply String.eqb_eq in Heq. exfalso. apply Hnotin. rewrite Heq.
      apply in_map. assumption.
    + simpl. rewrite IH by auto. lia.
Qed.

Lemma unlink_NoDup_keys k l : NoDup (map key l) -> NoDup (map key (unlink k l)).
Proof.
  induction l as [|n l IH]; simpl; intros H; [constructor|].
  inversion H; subst. destruct (String.eqb (key n) k); simpl; auto.
  constructor; auto. intros Hin. apply unlink_keys in Hin. tauto.
Qed.

Lemma unlink_NoDup_values k l :
  NoDup (map value l) -> NoDup (map value (unlink k l)).
Proof.
  induction l as [|n l IH]; simpl; intros H; [constructor|].
  inversion H; subst. destruct (String.eqb (key n) k); simpl; auto.
  constructor; auto. intros Hin. apply in_map_iff in Hin.
  destruct Hin as [m [Heq Hin]]. apply unlink_In in Hin.
  match goal with Hn : ~ In _ _ |- _ => apply Hn end.
  rewrite <- Heq. apply in_map. tauto.
Qed.

Lemma wp_ret {A} (a : A) s (Q : result A -> state -> Prop) :
  Q (Ok a) s -> wp (ret a) s Q.
Proof. exact (fun H => H). Qed.

Lemma wp_raise {A} e s (Q : result A -> state -> Prop) :
  Q (Err e) s -> wp (raise e) s Q.
Proof. exact (fun H => H). Qed.

Lemma wp_gets {A} (f : state -> A) s (Q : result A -> state -> Prop) :
  Q (Ok (f s)) s -> wp (gets f) s Q.
Proof. exact (fun H => H). Qed.

Lemma wp_modify f s (Q : result unit -> state -> Prop) :
  Q (Ok tt) (f s) -> wp (modify f) s Q.
Proof. exact (fun H => H). Qed.

Lemma wp_getsize p s (Q : result Z -> state -> Prop) :
  (forall b, disk s p = Some b -> Q (Ok (Z.of_nat (List.length b))) s) ->
  (disk s p = None -> Q (Err OSError) s) ->
  wp (getsize p) s Q.
Proof.
  unfold wp, getsize. intros H1 H2. destruct (disk s p); simpl; auto.
Qed.

Lemma wp_read_file p s (Q : result bytes -> state -> Prop) :
  (forall b, disk s p = Some b -> Q (Ok b) s) ->
  (disk s p = None -> Q (Err IOError) s) ->
  wp (read_file p) s Q.
Proof.
  unfold wp, read_file. intros H1 H2. destruct (disk s p); simpl; auto.
Qed.

Ltac wp_step :=
  first
    [ apply wp_ret | apply wp_raise | apply wp_gets | apply wp_modify
    | apply wp_bind ].

Lemma wp_cleanup_loop w cb fuel s (Q : result unit -> state -> Prop) :
  (if value_size (sector_of w s) >? after_cleanup_size (sector_of w s) then
     match fuel with
     | O => Q (Err OutOfFuel) s
     | S fuel' => wp (_remove_lru w cb ;; cleanup_loop w cb fuel') s Q
     end
   else Q (Ok tt) s) ->
  wp (cleanup_loop w cb fuel) s Q.
Proof.
  unfold wp. destruct fuel; simpl; destruct (_ >? _); auto.
Qed.

Lemma wp_clear_loop w cb fuel s (Q : result unit -> state -> Prop) :
  match nodes (sector_of w s) with
  | [] => Q (Ok tt) s
  | _ :: _ =>
      match fuel with
      | O => Q (Err OutOfFuel) s
      | S fuel' => wp (_remove_lru w cb ;; clear_loop w cb fuel') s Q
      end
  end ->
  wp (clear_loop w cb fuel) s Q.
Proof.
  unfold wp. destruct fuel; simpl; destruct (nodes _); auto.
Qed.

Lemma wp_LRU_clear w cb s (Q : result unit -> state -> Prop) :
  wp (clear_loop w cb (List.length (nodes (sector_of w s)))) s Q ->
  wp (LRU_clear w cb) s Q.
Proof. exact (fun H => H). Qed.

Lemma wp_cleanup w cb s (Q : result unit -> state -> Prop) :
  wp (cleanup_loop w cb (S (List.length (nodes (sector_of w s))))) s Q ->
  wp (cleanup w cb) s Q.
Proof. exact (fun H => H). Qed.

Lemma wp_remove_lru w cb s (Q : result unit -> state -> Prop) :
  match nodes (sector_of w s) with
  | [] => Q (Err AttributeError) s
  | n :: _ => wp (_remove_node w cb n) s Q
  end ->
  wp (_remove_lru w cb) s Q.
Proof.
  unfold wp, _remove_lru. destruct (nodes _); auto.
Qed.

Lemma wp_with_lock {A} (body : M A) s (Q : result A -> state -> Prop) :
  (lock s = true -> Q (Err Deadlock) s) ->
  (lock s = false ->
   wp body (set_lock true (log LockAcquire s))
     (fun r s' => Q r (set_lock false (log LockRelease s')))) ->
  wp (with_lock body) s Q.
Proof.
  unfold wp, with_lock. intros H1 H2. destruct (lock s); [auto|].
  specialize (H2 eq_refl). destruct (body _). exact H2.
Qed.

Lemma wp_cache_lookup w k s (Q : result LRUNode -> state -> Prop) :
  (forall n, cache_get (sector_of w s) k = Some n -> Q (Ok n) s) ->
  (cache_get (sector_of w s) k = None -> Q (Err KeyError) s) ->
  wp (cache_lookup w k) s Q.
Proof.
  unfold wp, cache_lookup. intros H1 H2.
  destruct (cache_get _ _); simpl; auto.
Qed.

(** The sector after [_record_access(node)]. *)
Definition touched (n : LRUNode) (c : LRUSizeCache) : LRUSizeCache :=
  mkLRU (max_size c) (after_cleanup_size c) (value_size c)
    (record_access n (nodes c)).

Lemma wp_getitem w k s (Q : result path -> state -> Prop) :
  (forall n, cache_get (sector_of w s) k = Some n ->
     Q (Ok (value n)) (set_sector w (touched n (sector_of w s)) s)) ->
  (cache_get (sector_of w s) k = None -> Q (Err KeyError) s) ->
  wp (getitem w k) s Q.
Proof.
  unfold wp, getitem, bind, cache_lookup. intros H1 H2.
  destruct (cache_get _ _); simpl; auto.
Qed.

(** Operations that leave both sectors alone. *)
Definition same_sectors (s s' : state) : Prop :=
  uncompressed_cache s' = uncompressed_cache s /\
  compressed_cache s' = compressed_cache s.

Lemma uncompress_tagsfile_sectors E p s :
  wp (uncompress_tagsfile E p) s (fun _ s' => same_sectors s s').
Proof.
  unfold wp, uncompress_tagsfile, bind, read_file; simpl.
  destruct (upd _ _ _ _); simpl; [|split; reflexivity].
  destruct (gzip_read _ _); simpl; split; reflexivity.
Qed.

Lemma compress_tagsfile_sectors E p s :
  wp (compress_tagsfile E p) s (fun _ s' => same_sectors s s').
Proof.
  unfold wp, compress_tagsfile, bind, read_file; simpl.
  destruct (upd _ _ _ _); simpl; [|split; reflexivity].
  destruct (gzip_write _ _ _); simpl; split; reflexivity.
Qed.

Lemma create_tagsfile_sectors E r k s :
  wp (create_tagsfile E r k) s (fun _ s' => same_sectors s s').
Proof.
  unfold wp, create_tagsfile, bind; simpl.
  destruct (ctags _ _ _); simpl; split; reflexivity.
Qed.

Lemma record_access_keys n l x :
  In n l ->
  In x (map key (record_access n l)) <-> In x (map key l).
Proof.
  intros Hn. unfold record_access. rewrite map_app, in_app_iff, unlink_keys.
  simpl. split.
  - intros [[H _]|[<-|[]]]; [assumption | apply in_map; assumption].
  - intros H. destruct (string_dec x (key n)); auto.
Qed.

(** * The sectors never share a key *)

Definition disjoint_sectors (s : state) : Prop :=
  forall k, In k (keys (uncompressed_cache s)) ->
            In k (keys (compressed_cache s)) -> False.

Section Disjoint.

Variable E : env.

Let cold_cb := _clear_compressed_entry.
Let hot_cb := _clear_uncompressed_entry E.

(** What the compressed sector's own methods do to the key sets. *)
Definition cold_only (extra : list string) (s s' : state) : Prop :=
  uncompressed_cache s' = uncompressed_cache s /\
  incl (keys (compressed_cache s')) (extra ++ keys (compressed_cache s)).

Lemma cold_only_refl s : cold_only [] s s.
Proof. split; [reflexivity | apply incl_refl]. Qed.

Lemma cold_only_trans x s1 s2 s3 :
  cold_only [] s1 s2 -> cold_only x s2 s3 -> cold_only x s1 s3.
Proof.
  intros [H1 H2] [H3 H4]. split; [congruence|].
  intros k Hk. apply H4 in Hk. apply in_app_or in Hk. apply in_or_app.
  destruct Hk; auto.
Qed.

Lemma cold_remove_node_keys n s :
  wp (_remove_node Compressed cold_cb n) s (fun _ s' => cold_only [] s s').
Proof.
  unfold wp; simpl. split; [reflexivity|].
  intros k Hk. apply unlink_keys in Hk. tauto.
Qed.

Lemma cold_remove_lru_keys s :
  wp (_remove_lru Compressed cold_cb) s (fun _ s' => cold_only [] s s').
Proof.
  apply wp_remove_lru. destruct (nodes _) as [|n l].
  - apply cold_only_refl.
  - apply cold_remove_node_keys.
Qed.

Lemma cold_cleanup_loop_keys fuel : forall s,
  wp (cleanup_loop Compressed cold_cb fuel) s (fun _ s' => cold_only [] s s').
Proof.
  induction fuel as [|fuel IH]; intros s; apply wp_cleanup_loop;
    destruct (_ >? _); try apply cold_only_refl.
  apply wp_bind. eapply wp_mono; [apply cold_remove_lru_keys|].
  intros [[]|e] s1 H1; [|exact H1].
  eapply wp_mono; [apply IH|]. intros r s2 H2.
  eapply cold_only_trans; eassumption.
Qed.

Lemma cold_only_weaken x s s' : cold_only [] s s' -> cold_only x s s'.
Proof.
  intros [H1 H2]. split; [assumption|]. intros k Hk. apply in_or_app.
  right. apply H2. assumption.
Qed.

Lemma cold_cb_keys k p s :
  wp (cold_cb k p) s (fun _ s' => cold_only [] s s').
Proof. unfold wp; simpl. split; [reflexivity | apply incl_refl]. Qed.

Lemma cold_cleanup_keys s :
  wp (cleanup Compressed cold_cb) s (fun _ s' => cold_only [] s s').
Proof. apply cold_cleanup_loop_keys. Qed.

Lemma cold_add_keys k q s :
  wp (add Compressed cold_cb k q) s (fun _ s' => cold_only [k] s s').
Proof.
  unfold add. apply wp_bind, wp_gets.
  apply wp_bind, wp_getsize;
    [intros b Hb | intros _; apply cold_only_weaken, cold_only_refl].
  apply wp_bind, wp_gets. destruct (_ >=? _).
  - apply wp_bind.
    assert (Hrm : wp match cache_get (sector_of Compressed s) k with
                     | Some n => _remove_node Compressed cold_cb n
                     | None => ret tt
                     end s (fun _ s' => cold_only [] s s')).
    { destruct (cache_get _ _); [apply cold_remove_node_keys|].
      apply wp_ret, cold_only_refl. }
    eapply wp_mono; [exact Hrm|]. intros [[]|e] s1 H1.
    + eapply wp_mono; [apply cold_cb_keys|]. intros r s2 H2.
      apply cold_only_weaken. eapply cold_only_trans; eassumption.
    + apply cold_only_weaken. assumption.
  - apply wp_bind, wp_modify. apply wp_bind, wp_gets.
    match goal with |- wp _ ?s1 _ => assert (H1 : cold_only [k] s s1) end.
    { split; [reflexivity|]. simpl.
      destruct (cache_get _ _) as [n|] eqn:Hg; simpl; unfold keys; simpl;
        unfold record_access; rewrite map_app; simpl;
        intros x Hx; apply in_app_or in Hx; destruct Hx as [Hx|[Hx|[]]].
      - right. apply unlink_keys in Hx. tauto.
      - apply cache_get_Some in Hg. left. destruct Hg. congruence.
      - right. apply unlink_keys in Hx. tauto.
      - left. assumption. }
    destruct (_ >? _).
    + eapply wp_mono; [apply cold_cleanup_keys|]. intros r s2 [H2 H3].
      destruct H1 as [H1 H4]. split; [congruence|].
      intros x Hx. apply H4, H3. simpl in Hx. exact Hx.
    + apply wp_ret. exact H1.
Qed.

Ltac same_sectors :=
  split; [reflexivity | intros ? ?; apply in_or_app; right; assumption].

Lemma hot_cb_keys k p s :
  wp (hot_cb k p) s (fun _ s' => cold_only [k] s s').
Proof.
  unfold hot_cb, _clear_uncompressed_entry.
  apply wp_bind, wp_modify. apply wp_bind, wp_gets. apply wp_bind.
  match goal with |- wp _ ?s1 _ => set (s0 := s1) end.
  assert (Hmid : wp (if negb (clearing s0)
                     then z <- compress_tagsfile E p ;;
                          add Compressed _clear_compressed_entry k z
                     else ret tt) s0
                   (fun _ s' => cold_only [k] s s')).
  { destruct (negb _); [|apply wp_ret; same_sectors].
    apply wp_bind. unfold compress_tagsfile.
    apply wp_bind, wp_modify. apply wp_bind. unfold wp at 1; simpl.
    apply wp_bind, wp_read_file; [intros b Hb | intros _; same_sectors].
    destruct (gzip_write _ _ _); [|apply wp_raise; same_sectors].
    apply wp_bind, wp_modify, wp_ret.
    eapply wp_mono; [apply cold_add_keys|]. intros r s2 H2. exact H2. }
  eapply wp_mono; [exact Hmid|]. intros [[]|e] s1 H1; [|exact H1].
  unfold wp; simpl. exact H1.
Qed.

Lemma hot_remove_node_disjoint n s :
  disjoint_sectors s ->
  wp (_remove_node Uncompressed hot_cb n) s (fun _ s' =>
    disjoint_sectors s' /\
    incl (keys (uncompressed_cache s')) (keys (uncompressed_cache s)) /\
    ~ In (key n) (keys (uncompressed_cache s'))).
Proof.
  intros Hd. unfold _remove_node. apply wp_bind, wp_modify.
  eapply wp_mono; [apply hot_cb_keys|]. intros r s2 [H1 H2].
  simpl in H1, H2.
  assert (Hin : forall x, In x (keys (uncompressed_cache s2)) ->
                 In x (keys (uncompressed_cache s)) /\ x <> key n).
  { intros x Hx. rewrite H1 in Hx. apply unlink_keys in Hx. exact Hx. }
  split; [|split].
  - intros x Hx Hc. apply Hin in Hx. destruct Hx as [Hx Hne].
    apply H2 in Hc. destruct Hc as [Hc|Hc]; [congruence|].
    exact (Hd x Hx Hc).
  - intros x Hx. apply Hin in Hx. tauto.
  - intros Hx. apply Hin in Hx. tauto.
Qed.

Lemma hot_remove_lru_disjoint s :
  disjoint_sectors s ->
  wp (_remove_lru Uncompressed hot_cb) s (fun _ s' =>
    disjoint_sectors s' /\
    incl (keys (uncompressed_cache s')) (keys (uncompressed_cache s))).
Proof.
  intros Hd. apply wp_remove_lru. destruct (nodes _) as [|n l].
  - split; [assumption | apply incl_refl].
  - eapply wp_mono; [apply hot_remove_node_disjoint; assumption|].
    intros r s' [H1 [H2 _]]. auto.
Qed.

Lemma hot_cleanup_loop_disjoint fuel : forall s,
  disjoint_sectors s ->
  wp (cleanup_loop Uncompressed hot_cb fuel) s (fun _ s' =>
    disjoint_sectors s').
Proof.
  induction fuel as [|fuel IH]; intros s Hd; apply wp_cleanup_loop;
    destruct (_ >? _); try assumption.
  apply wp_bind. eapply wp_mono; [apply hot_remove_lru_disjoint, Hd|].
  intros [[]|e] s1 [H1 _]; [|exact H1]. apply IH. assumption.
Qed.

Lemma hot_clear_loop_disjoint fuel : forall s,
  disjoint_sectors s ->
  wp (clear_loop Uncompressed hot_cb fuel) s (fun _ s' =>
    disjoint_sectors s').
Proof.
  induction fuel as [|fuel IH]; intros s Hd; apply wp_clear_loop;
    destruct (nodes _); try assumption.
  apply wp_bind. eapply wp_mono; [apply hot_remove_lru_disjoint, Hd|].
  intros [[]|e] s1 [H1 _]; [|exact H1]. apply IH. assumption.
Qed.

Lemma cold_clear_loop_keys fuel : forall s,
  wp (clear_loop Compressed cold_cb fuel) s (fun _ s' => cold_only [] s s').
Proof.
  induction fuel as [|fuel IH]; intros s; apply wp_clear_loop;
    destruct (nodes _); try apply cold_only_refl.
  apply wp_bind. eapply wp_mono; [apply cold_remove_lru_keys|].
  intros [[]|e] s1 H1; [|exact H1].
  eapply wp_mono; [apply IH|]. intros r s2 H2.
  eapply cold_only_trans; eassumption.
Qed.

Lemma cold_only_disjoint s s' :
  cold_only [] s s' -> disjoint_sectors s -> disjoint_sectors s'.
Proof.
  intros [H1 H2] Hd k Hh Hc. rewrite H1 in Hh. apply H2 in Hc.
  exact (Hd k Hh Hc).
Qed.

Lemma hot_add_disjoint k p s :
  disjoint_sectors s -> ~ In k (keys (compressed_cache s)) ->
  wp (add Uncompressed hot_cb k p) s (fun _ s' => disjoint_sectors s').
Proof.
  intros Hd Hk. unfold add. apply wp_bind, wp_gets.
  apply wp_bind, wp_getsize; [intros b Hb | intros _; exact Hd].
  apply wp_bind, wp_gets. destruct (_ >=? _).
  - apply wp_bind.
    assert (Hrm : wp match cache_get (sector_of Uncompressed s) k with
                     | Some n => _remove_node Uncompressed hot_cb n
                     | None => ret tt
                     end s (fun _ s' => disjoint_sectors s' /\
                       ~ In k (keys (uncompressed_cache s')))).
    { destruct (cache_get _ _) as [n|] eqn:Hg.
      - apply cache_get_Some in Hg. destruct Hg as [_ Hg]. subst k.
        eapply wp_mono; [apply hot_remove_node_disjoint, Hd|].
        intros r s' [H1 [_ H3]]. auto.
      - apply wp_ret. apply cache_get_None in Hg. auto. }
    eapply wp_mono; [exact Hrm|]. intros [[]|e] s1 [H1 H1']; [|exact H1].
    eapply wp_mono; [apply hot_cb_keys|]. intros r s2 [H2 H3].
    intros x Hh Hc. rewrite H2 in Hh. apply H3 in Hc.
    destruct Hc as [Hc|Hc]; [congruence|]. exact (H1 x Hh Hc).
  - apply wp_bind, wp_modify. apply wp_bind, wp_gets.
    match goal with |- wp _ ?s1 _ => assert (H1 : disjoint_sectors s1) end.
    { intros x Hh Hc. simpl in Hh, Hc.
      assert (Hx : In x (keys (uncompressed_cache s)) \/ x = k).
      { destruct (cache_get _ _) as [n|] eqn:Hg; unfold keys in Hh;
          simpl in Hh; unfold record_access in Hh; rewrite map_app in Hh;
          apply in_app_or in Hh; destruct Hh as [Hh|[Hh|[]]];
          try (apply unlink_keys in Hh; tauto); simpl in Hh; auto.
        apply cache_get_Some in Hg. right. destruct Hg. congruence. }
      destruct Hx as [Hx | ->]; [exact (Hd x Hx Hc) | exact (Hk Hc)]. }
    destruct (_ >? _); [|apply wp_ret; exact H1].
    apply wp_cleanup, hot_cleanup_loop_disjoint. exact H1.
Qed.

Lemma get_tagsfile_disjoint r k s :
  disjoint_sectors s ->
  wp (get_tagsfile E r k) s (fun _ s' => disjoint_sectors s').
Proof.
  intros Hd. unfold get_tagsfile. apply wp_bind.
  destruct (Nat.eqb _ _); [apply wp_ret | apply wp_raise; exact Hd].
  apply wp_with_lock; [intros _; exact Hd | intros _].
  apply wp_bind, wp_gets. simpl sector_of.
  destruct (mem (uncompressed_cache _) k) eqn:Hh.
  - (* in the uncompressed sector *)
    apply wp_getitem; [intros n Hn | intros _; exact Hd].
    apply cache_get_Some in Hn. destruct Hn as [Hn _].
    intros x Hx Hc. simpl in Hx, Hc. unfold keys in Hx. simpl in Hx.
    apply record_access_keys in Hx; [|assumption]. exact (Hd x Hx Hc).
  - apply wp_bind, wp_gets. simpl sector_of. apply wp_bind.
    match goal with |- wp _ ?s1 _ => set (s0 := s1) end.
    assert (Hpre : wp
      (if mem (compressed_cache s0) k
       then z <- getitem Compressed k ;;
            u <- uncompress_tagsfile E z ;;
            node <- cache_lookup Compressed k ;;
            _remove_node Compressed _clear_compressed_entry node ;;
            ret u
       else create_tagsfile E r k) s0
      (fun res s' =>
         disjoint_sectors s' /\
         match res with
         | Ok _ => ~ In k (keys (compressed_cache s'))
         | Err _ => True
         end)).
    { destruct (mem (compressed_cache s0) k) eqn:Hc.
      - apply wp_bind, wp_getitem;
          [intros n Hn | intros _; split; [exact Hd | exact I]].
        apply cache_get_Some in Hn. destruct Hn as [Hn Hkn].
        match goal with |- wp _ ?s1 _ => set (s1' := s1) end.
        assert (Hd1 : disjoint_sectors s1').
        { intros x Hx Hcx. simpl in Hx, Hcx. unfold keys in Hcx.
          simpl in Hcx. apply record_access_keys in Hcx; [|assumption].
          exact (Hd x Hx Hcx). }
        apply wp_bind.
        eapply wp_mono; [apply uncompress_tagsfile_sectors|].
        intros [u|e] s2 [H2 H3].
        2:{ split; [|exact I]. intros x. rewrite H2, H3. apply Hd1. }
        assert (Hd2 : disjoint_sectors s2).
        { intros x. rewrite H2, H3. apply Hd1. }
        apply wp_bind, wp_cache_lookup;
          [intros m Hm | intros _; split; [exact Hd2 | exact I]].
        apply cache_get_Some in Hm. destruct Hm as [Hm Hkm].
        apply wp_bind. unfold wp; simpl. rewrite Hkm.
        assert (Hsub : forall x,
                  In x (map key (unlink k (nodes (compressed_cache s2)))) ->
                  In x (keys (compressed_cache s2)) /\ x <> k).
        { intros x Hx. apply unlink_keys in Hx. exact Hx. }
        split.
        + intros x Hx Hcx. apply Hsub in Hcx. destruct Hcx as [Hcx _].
          exact (Hd2 x Hx Hcx).
        + intros Hx. apply Hsub in Hx. tauto.
      - eapply wp_mono; [apply create_tagsfile_sectors|].
        intros res s2 [H2 H3]. split.
        + intros x. rewrite H2, H3. apply Hd.
        + destruct res; [|exact I]. rewrite H3.
          apply mem_false. exact Hc. }
    eapply wp_mono; [exact Hpre|]. intros [u|e] s1 [Hd1 Hk1];
      [|exact Hd1].
    apply wp_bind.
    eapply wp_mono; [apply hot_add_disjoint; assumption|].
    intros [[]|e] s2 Hd2; exact Hd2.
Qed.

Lemma clear_disjoint s :
  disjoint_sectors s ->
  wp (clear E) s (fun _ s' => disjoint_sectors s').
Proof.
  intros Hd. unfold clear. apply wp_bind, wp_modify. apply wp_bind.
  eapply wp_mono; [apply wp_LRU_clear, hot_clear_loop_disjoint; exact Hd|].
  intros [[]|e] s1 Hd1; [|exact Hd1]. apply wp_bind.
  eapply wp_mono; [apply wp_LRU_clear, cold_clear_loop_keys|].
  intros [[]|e] s2 H2.
  - apply wp_modify. eapply cold_only_disjoint in H2; eauto.
  - eapply cold_only_disjoint; eauto.
Qed.

Lemma run_op_disjoint o s :
  disjoint_sectors s -> disjoint_sectors (snd (run_op E o s)).
Proof.
  intros Hd. destruct o as [r k|]; simpl.
  - change (wp (get_tagsfile E r k ;; ret tt) s (fun _ s' =>
              disjoint_sectors s')).
    apply wp_bind. eapply wp_mono; [apply get_tagsfile_disjoint, Hd|].
    intros [p|e] s1 H1; exact H1.
  - apply (clear_disjoint s Hd).
Qed.

End Disjoint.

(** * What no operation changes

    No method touches the capacities; files only appear under new names and
    are never rewritten; the log only grows. *)

Definition frame0 (s s' : state) : Prop :=
  uncompressed_max_bytes s' = uncompressed_max_bytes s /\
  compressed_max_bytes s' = compressed_max_bytes s /\
  max_size (uncompressed_cache s') = max_size (uncompressed_cache s) /\
  after_cleanup_size (uncompressed_cache s') =
    after_cleanup_size (uncompressed_cache s) /\
  max_size (compressed_cache s') = max_size (compressed_cache s) /\
  after_cleanup_size (compressed_cache s') =
    after_cleanup_size (compressed_cache s) /\
  (next_tmp s <= next_tmp s')%nat /\
  (exists tr, trace s' = trace s ++ tr) /\
  (forall p, (p < next_tmp s)%nat ->
     disk s' p = disk s p \/ disk s' p = None).

Definition frame (s s' : state) : Prop :=
  frame0 s s' /\ clearing s' = clearing s /\ lock s' = lock s.

Lemma frame0_refl s : frame0 s s.
Proof.
  repeat split; auto. exists []. rewrite app_nil_r. reflexivity.
Qed.

Lemma frame_refl s : frame s s.
Proof. split; [apply frame0_refl | auto]. Qed.

Lemma frame0_trans s1 s2 s3 : frame0 s1 s2 -> frame0 s2 s3 -> frame0 s1 s3.
Proof.
  intros (A1 & A2 & A3 & A4 & A5 & A6 & A7 & [t1 A8] & A9)
         (B1 & B2 & B3 & B4 & B5 & B6 & B7 & [t2 B8] & B9).
  repeat split; try congruence; try lia.
  - exists (t1 ++ t2). rewrite B8, A8, app_assoc. reflexivity.
  - intros p Hp. destruct (A9 p Hp) as [H|H];
      destruct (B9 p ltac:(lia)) as [H'|H']; rewrite H'; auto.
Qed.

Lemma frame_trans s1 s2 s3 : frame s1 s2 -> frame s2 s3 -> frame s1 s3.
Proof.
  intros [A [A1 A2]] [B [B1 B2]]. split; [eapply frame0_trans; eauto|].
  split; congruence.
Qed.

Definition framed {A} (m : M A) : Prop :=
  forall s, wp m s (fun _ s' => frame s s').

Lemma framed_ret {A} (a : A) : framed (ret a).
Proof. intros s. apply frame_refl. Qed.

Lemma framed_raise {A} e : framed (@raise A e).
Proof. intros s. apply frame_refl. Qed.

Lemma framed_gets {A} (f : state -> A) : framed (gets f).
Proof. intros s. apply frame_refl. Qed.

Lemma framed_bind {A B} (m : M A) (k : A -> M B) :
  framed m -> (forall a, framed (k a)) -> framed (bind m k).
Proof.
  intros Hm Hk s. apply wp_bind. eapply wp_mono; [apply Hm|].
  intros [a|e] s1 H1; [|exact H1].
  eapply wp_mono; [apply Hk|]. intros r s2 H2.
  eapply frame_trans; eassumption.
Qed.

Lemma framed_if {A} (b : bool) (m1 m2 : M A) :
  framed m1 -> framed m2 -> framed (if b then m1 else m2).
Proof. destruct b; auto. Qed.

Ltac frame0_now :=
  repeat split; simpl; auto;
  try (eexists; reflexivity);
  try (exists []; rewrite app_nil_r; reflexivity).

Ltac frame_now := split; [frame0_now | split; reflexivity].

Lemma framed_log e : framed (modify (log e)).
Proof. intros s. unfold wp; simpl. frame_now. Qed.

Lemma framed_getsize p : framed (getsize p).
Proof.
  intros s. apply wp_getsize; intros; apply frame_refl.
Qed.

Lemma framed_delete_tagsfile p : framed (delete_tagsfile p).
Proof.
  intros s. unfold wp; simpl. frame_now.
  intros q _. unfold upd. destruct (Nat.eqb q p); auto.
Qed.

Lemma upd_other d p o q : q <> p -> upd d p o q = d q.
Proof.
  intros H. unfold upd. apply Nat.eqb_neq in H. rewrite H. reflexivity.
Qed.

Lemma upd_same d p o : upd d p o p = o.
Proof. unfold upd. rewrite Nat.eqb_refl. reflexivity. Qed.

Lemma framed_create_tagsfile E r k : framed (create_tagsfile E r k).
Proof.
  intros s. unfold wp, create_tagsfile, bind; simpl.
  destruct (ctags _ _ _); simpl; frame_now.
  intros q Hq. left. rewrite !upd_other by lia. reflexivity.
Qed.

Lemma framed_compress_tagsfile E p : framed (compress_tagsfile E p).
Proof.
  intros s. unfold wp, compress_tagsfile, bind, read_file; simpl.
  destruct (upd _ _ _ _); simpl.
  - destruct (gzip_write _ _ _); simpl; frame_now;
      intros q Hq; left; rewrite !upd_other by lia; reflexivity.
  - frame_now. intros q Hq; left; rewrite !upd_other by lia; reflexivity.
Qed.

Lemma framed_uncompress_tagsfile E p : framed (uncompress_tagsfile E p).
Proof.
  intros s. unfold wp, uncompress_tagsfile, bind, read_file; simpl.
  destruct (upd _ _ _ _); simpl.
  - destruct (gzip_read _ _); simpl; frame_now;
      intros q Hq; left; rewrite !upd_other by lia; reflexivity.
  - frame_now. intros q Hq; left; rewrite !upd_other by lia; reflexivity.
Qed.

Section Framed.

Variable w : sector.
Variable cb : string -> path -> M unit.
Hypothesis framed_cb : forall k p, framed (cb k p).

Lemma framed_with_nodes f :
  (forall c, max_size (f c) = max_size c /\
             after_cleanup_size (f c) = after_cleanup_size c) ->
  framed (with_nodes w f).
Proof.
  intros Hf s. unfold wp; simpl.
  destruct (Hf (sector_of w s)) as [H1 H2].
  destruct w; simpl in *; frame_now.
Qed.

Lemma framed_getitem k : framed (getitem w k).
Proof.
  intros s. apply wp_getitem; [intros n Hn | intros; apply frame_refl].
  destruct w; simpl; frame_now.
Qed.

Lemma framed_cache_lookup k : framed (cache_lookup w k).
Proof.
  intros s. apply wp_cache_lookup; intros; apply frame_refl.
Qed.

Lemma framed_remove_node n : framed (_remove_node w cb n).
Proof.
  unfold _remove_node. apply framed_bind; [|intros _; apply framed_cb].
  apply framed_with_nodes. intros c. simpl. auto.
Qed.

Lemma framed_remove_lru : framed (_remove_lru w cb).
Proof.
  intros s. apply wp_remove_lru. destruct (nodes _).
  - apply frame_refl.
  - apply framed_remove_node.
Qed.

Lemma framed_cleanup_loop fuel : framed (cleanup_loop w cb fuel).
Proof.
  induction fuel as [|fuel IH]; intros s; apply wp_cleanup_loop;
    destruct (_ >? _); try apply frame_refl.
  apply (framed_bind _ _ framed_remove_lru (fun _ => IH)).
Qed.

Lemma framed_clear_loop fuel : framed (clear_loop w cb fuel).
Proof.
  induction fuel as [|fuel IH]; intros s; apply wp_clear_loop;
    destruct (nodes _); try apply frame_refl.
  apply (framed_bind _ _ framed_remove_lru (fun _ => IH)).
Qed.

Lemma framed_LRU_clear : framed (LRU_clear w cb).
Proof. intros s. apply wp_LRU_clear, framed_clear_loop. Qed.

Lemma framed_cleanup : framed (cleanup w cb).
Proof. intros s. apply wp_cleanup, framed_cleanup_loop. Qed.

Lemma framed_add k v : framed (add w cb k v).
Proof.
  unfold add. apply framed_bind; [apply framed_gets | intros node].
  apply framed_bind; [apply framed_getsize | intros len].
  apply framed_bind; [apply framed_gets | intros limit].
  apply framed_if.
  - apply framed_bind; [|intros _; apply framed_cb].
    destruct node; [apply framed_remove_node | apply framed_ret].
  - apply framed_bind.
    + apply framed_with_nodes. intros c. destruct node; simpl; auto.
    + intros _. apply framed_bind; [apply framed_gets | intros over].
      apply framed_if; [apply framed_cleanup | apply framed_ret].
Qed.

End Framed.

Lemma framed_clear_compressed_entry k p : framed (_clear_compressed_entry k p).
Proof.
  unfold _clear_compressed_entry.
  apply framed_bind; [apply framed_log | intros _].
  apply framed_delete_tagsfile.
Qed.

Lemma framed_clear_uncompressed_entry E k p :
  framed (_clear_uncompressed_entry E k p).
Proof.
  unfold _clear_uncompressed_entry.
  apply framed_bind; [apply framed_log | intros _].
  apply framed_bind; [apply framed_gets | intros c].
  apply framed_bind; [|intros _; apply framed_delete_tagsfile].
  apply framed_if; [|apply framed_ret].
  apply framed_bind; [apply framed_compress_tagsfile | intros z].
  apply framed_add. apply framed_clear_compressed_entry.
Qed.

Lemma framed_with_lock {A} (body : M A) : framed body -> framed (with_lock body).
Proof.
  intros Hb s. apply wp_with_lock; [intros _; apply frame_refl | intros Hl].
  eapply wp_mono; [apply Hb|]. intros r s' [H0 [Hc Hk]].
  split; [|split]; simpl in *; [|assumption | congruence].
  eapply frame0_trans; [|eapply frame0_trans; [exact H0|]].
  - frame0_now.
  - frame0_now.
Qed.

Lemma framed_get_tagsfile E r k : framed (get_tagsfile E r k).
Proof.
  unfold get_tagsfile. apply framed_bind.
  { apply framed_if; [apply framed_ret | apply framed_raise]. }
  intros _. apply framed_with_lock.
  apply framed_bind; [apply framed_gets | intros hot].
  apply framed_if; [apply framed_getitem|].
  apply framed_bind; [apply framed_gets | intros cold].
  apply framed_bind.
  - apply framed_if; [|apply framed_create_tagsfile].
    apply framed_bind; [apply framed_getitem | intros z].
    apply framed_bind; [apply framed_uncompress_tagsfile | intros u].
    apply framed_bind; [apply framed_cache_lookup | intros node].
    apply framed_bind; [|intros _; apply framed_ret].
    apply framed_remove_node. apply framed_clear_compressed_entry.
  - intros p. apply framed_bind; [|intros _; apply framed_ret].
    apply framed_add. apply framed_clear_uncompressed_entry.
Qed.

Lemma clear_frame0 E s : wp (clear E) s (fun _ s' => frame0 s s').
Proof.
  unfold clear. apply wp_bind, wp_modify.
  apply wp_bind. eapply wp_mono.
  { apply framed_LRU_clear. apply framed_clear_uncompressed_entry. }
  intros [[]|e] s1 [H1 _]; cbv beta iota; [|exact H1].
  apply wp_bind. eapply wp_mono.
  { apply framed_LRU_clear. apply framed_clear_compressed_entry. }
  intros [[]|e] s2 [H2 _]; cbv beta iota.
  - apply wp_modify. exact (frame0_trans _ _ _ H1 H2).
  - exact (frame0_trans _ _ _ H1 H2).
Qed.

(** * Well-formed caches *)

(** The bookkeeping of one sector: keys are unique, [_value_size] is the sum
    of the node sizes, every stored node is smaller than
    [_after_cleanup_size], which is at most [_max_size]. *)
Definition lru_ok (c : LRUSizeCache) : Prop :=
  NoDup (keys c) /\
  value_size c = total (nodes c) /\
  Forall (fun n => 0 <= size n < after_cleanup_size c) (nodes c) /\
  after_cleanup_size c <= max_size c.

Definition within (c : LRUSizeCache) : Prop := value_size c <= max_size c.

Definition owns (s : state) (p : path) : Prop :=
  In p (values (uncompressed_cache s)) \/ In p (values (compressed_cache s)).

(** Every entry has a file of its own, made by an earlier [mkstemp]. *)
Definition files_ok (s : state) : Prop :=
  NoDup (values (uncompressed_cache s)) /\
  NoDup (values (compressed_cache s)) /\
  (forall p, In p (values (uncompressed_cache s)) ->
             In p (values (compressed_cache s)) -> False) /\
  (forall p, owns s p -> (p < next_tmp s)%nat /\ disk s p <> None).

Lemma NoDup_app_iff {A} (l1 l2 : list A) :
  NoDup (l1 ++ l2) <->
  NoDup l1 /\ NoDup l2 /\ (forall a, In a l1 -> ~ In a l2).
Proof.
  split.
  - intros H. split; [eapply NoDup_app_remove_r; eauto|].
    split; [eapply NoDup_app_remove_l; eauto|].
    induction l1 as [|x l1 IH]; simpl in *; [tauto|].
    inversion H; subst. intros a [-> | Ha].
    + intros Hin. match goal with Hn : ~ In _ _ |- _ => apply Hn end.
      apply in_or_app. auto.
    + apply IH; assumption.
  - intros (H1 & H2 & H3). apply NoDup_app; assumption.
Qed.

Lemma total_nonneg l lim :
  Forall (fun n => 0 <= size n < lim) l -> 0 <= total l.
Proof.
  induction 1 as [|n l Hn _ IH]; simpl; lia.
Qed.

Lemma lru_ok_pop c n rest :
  lru_ok c -> nodes c = n :: rest ->
  unlink (key n) (nodes c) = rest /\
  lru_ok (mkLRU (max_size c) (after_cleanup_size c) (value_size c - size n)
            rest).
Proof.
  intros (Hnd & Hvs & Hall & Hlim) Hn. unfold keys in Hnd.
  rewrite Hn in *. split; [apply unlink_head; assumption|].
  inversion Hnd; subst. inversion Hall; subst.
  repeat split; simpl in *; auto. lia.
Qed.

Lemma lru_ok_unlink c n :
  lru_ok c -> In n (nodes c) ->
  lru_ok (mkLRU (max_size c) (after_cleanup_size c) (value_size c - size n)
            (unlink (key n) (nodes c))).
Proof.
  intros (Hnd & Hvs & Hall & Hlim) Hn. repeat split; simpl; auto.
  - apply unlink_NoDup_keys. assumption.
  - rewrite (unlink_total (key n) (nodes c) n) by auto. lia.
  - rewrite Forall_forall in *. intros m Hm. apply unlink_In in Hm.
    apply Hall. tauto.
Qed.

Lemma record_access_fresh n l :
  ~ In (key n) (map key l) -> record_access n l = l ++ [n].
Proof.
  intros H. unfold record_access. rewrite unlink_notin by assumption.
  reflexivity.
Qed.

Lemma lru_ok_push c k v len :
  lru_ok c -> ~ In k (keys c) -> 0 <= len < after_cleanup_size c ->
  lru_ok (mkLRU (max_size c) (after_cleanup_size c) (value_size c + len)
            (nodes c ++ [mkNode k v len])).
Proof.
  intros (Hnd & Hvs & Hall & Hlim) Hk Hlen. repeat split; simpl; auto.
  - unfold keys in *. simpl. rewrite map_app. simpl.
    apply NoDup_app_iff. repeat split; auto.
    + constructor; [intros []|constructor].
    + intros a Ha [<-|[]]. contradiction.
  - rewrite total_app. simpl. lia.
  - apply Forall_app. split; [assumption|]. constructor; [|constructor].
    simpl. lia.
Qed.

Lemma lru_ok_touch c n :
  lru_ok c -> In n (nodes c) -> lru_ok (touched n c).
Proof.
  intros (Hnd & Hvs & Hall & Hlim) Hn. unfold touched, record_access.
  repeat split; simpl; auto.
  - unfold keys in *. simpl. rewrite map_app. simpl.
    apply NoDup_app_iff. repeat split.
    + apply unlink_NoDup_keys. assumption.
    + constructor; [intros []|constructor].
    + intros a Ha [<-|[]]. apply unlink_keys in Ha. tauto.
  - rewrite total_app. simpl.
    rewrite (unlink_total (key n) (nodes c) n) by auto. lia.
  - apply Forall_app. rewrite Forall_forall in *. split.
    + intros m Hm. apply unlink_In in Hm. apply Hall. tauto.
    + constructor; [|constructor]. apply Hall. assumption.
Qed.

Lemma record_access_perm n l :
  NoDup (map key l) -> In n l -> Permutation (record_access n l) l.
Proof.
  unfold record_access. induction l as [|m l IH]; intros Hnd Hn;
    [contradiction|].
  destruct Hn as [-> | Hn].
  - rewrite unlink_head by assumption. apply Permutation_sym.
    apply Permutation_cons_append.
  - simpl in Hnd. inversion Hnd as [|? ? Hnotin Hnd']; subst. simpl.
    destruct (String.eqb (key m) (key n)) eqn:Heq.
    + apply String.eqb_eq in Heq. exfalso. apply Hnotin. rewrite Heq.
      apply in_map. assumption.
    + simpl. apply perm_skip. apply IH; assumption.
Qed.

Lemma touched_values_perm n c :
  NoDup (keys c) -> In n (nodes c) ->
  Permutation (values (touched n c)) (values c).
Proof.
  intros Hnd Hn. unfold values, touched. simpl. apply Permutation_map.
  apply record_access_perm; assumption.
Qed.

Lemma unlink_values k l p : In p (map value (unlink k l)) -> In p (map value l).
Proof.
  intros H. apply in_map_iff in H. destruct H as [m [<- Hm]].
  apply unlink_In in Hm. apply in_map. tauto.
Qed.

Lemma NoDup_unlinked_value n l :
  NoDup (map value l) -> In n l -> ~ In (value n) (map value (unlink (key n) l)).
Proof.
  induction l as [|m l IH]; simpl; intros Hnd Hn; [contradiction|].
  inversion Hnd as [|? ? Hnotin Hnd']; subst. destruct Hn as [-> | Hn].
  - rewrite String.eqb_refl. simpl. intros H. apply unlink_values in H.
    contradiction.
  - destruct (String.eqb (key m) (key n)); simpl.
    + apply IH; assumption.
    + intros [Heq | H]; [|exact (IH Hnd' Hn H)].
      apply Hnotin. rewrite Heq. apply in_map. assumption.
Qed.

Lemma cleanup_loop_S w cb fuel s :
  cleanup_loop w cb (S fuel) s =
  if value_size (sector_of w s) >? after_cleanup_size (sector_of w s)
  then (_remove_lru w cb ;; cleanup_loop w cb fuel) s
  else (Ok tt, s).
Proof. reflexivity. Qed.

Lemma remove_lru_cons w cb s n rest :
  nodes (sector_of w s) = n :: rest ->
  _remove_lru w cb s = _remove_node w cb n s.
Proof. unfold _remove_lru. intros ->. reflexivity. Qed.

Lemma run_frame {A} (m : M A) s r s' :
  framed m -> m s = (r, s') -> frame s s'.
Proof. intros H Heq. exact (wp_run _ _ _ _ _ (H s) Heq). Qed.

(** * The compressed sector: evictions delete *)

Definition cold_removed (n : LRUNode) (s : state) : state :=
  snd (_remove_node Compressed _clear_compressed_entry n s).

Lemma cold_remove_node_run n s :
  _remove_node Compressed _clear_compressed_entry n s =
  (Ok tt, cold_removed n s).
Proof. reflexivity. Qed.

(** The compressed sector lost the nodes [gone], its least recently used
    ones, and their files. *)
Definition cold_evicts (gone : list LRUNode) (s s' : state) : Prop :=
  uncompressed_cache s' = uncompressed_cache s /\
  nodes (compressed_cache s) = gone ++ nodes (compressed_cache s') /\
  lru_ok (compressed_cache s') /\
  (forall p, disk s' p = disk s p \/
             (disk s' p = None /\ In p (map value gone))).

Lemma cold_cleanup_loop_ok fuel : forall s,
  lru_ok (compressed_cache s) ->
  0 <= after_cleanup_size (compressed_cache s) ->
  (List.length (nodes (compressed_cache s)) < fuel)%nat ->
  exists s' gone,
    cleanup_loop Compressed _clear_compressed_entry fuel s = (Ok tt, s') /\
    cold_evicts gone s s' /\
    value_size (compressed_cache s') <=
      after_cleanup_size (compressed_cache s').
Proof.
  induction fuel as [|fuel IH]; intros s Hok Hlim Hlen; [lia|].
  rewrite cleanup_loop_S. simpl sector_of.
  destruct (_ >? _) eqn:Hgt.
  - destruct (nodes (compressed_cache s)) as [|n rest] eqn:Hn.
    + exfalso. destruct Hok as (_ & Hvs & _). rewrite Hn in Hvs.
      simpl in Hvs. lia.
    + destruct (lru_ok_pop _ _ _ Hok Hn) as [Hun Hok1].
      assert (Hc1 : compressed_cache (cold_removed n s) =
                    mkLRU (max_size (compressed_cache s))
                      (after_cleanup_size (compressed_cache s))
                      (value_size (compressed_cache s) - size n) rest).
      { simpl. rewrite Hun. reflexivity. }
      destruct (IH (cold_removed n s)) as (s' & gone & Hrun & Hev & Hle).
      { rewrite Hc1. exact Hok1. }
      { rewrite Hc1. exact Hlim. }
      { rewrite Hc1. simpl. simpl in Hlen. lia. }
      exists s', (n :: gone). split; [|split; [|exact Hle]].
      * erewrite bind_ok; [exact Hrun|].
        rewrite (remove_lru_cons Compressed _ s n rest Hn).
        apply cold_remove_node_run.
      * destruct Hev as (H1 & H2 & H3 & H4). rewrite Hc1 in H2.
        simpl in H2. split; [|split; [|split]].
        -- rewrite H1. reflexivity.
        -- rewrite Hn, H2. reflexivity.
        -- exact H3.
        -- intros p. destruct (H4 p) as [H|[H H']].
           ++ simpl in H. unfold upd in H.
              destruct (Nat.eqb p (value n)) eqn:Hp.
              ** apply Nat.eqb_eq in Hp. subst p. right. simpl. auto.
              ** left. exact H.
           ++ right. simpl. auto.
  - exists s, []. split; [reflexivity|]. split; [|lia].
    split; [|split; [|split]]; auto.
Qed.

(** [add] on a key that is not in the sector. *)
Definition pushed (k : string) (v : path) (len : Z) (c : LRUSizeCache)
  : LRUSizeCache :=
  mkLRU (max_size c) (after_cleanup_size c) (value_size c + len)
    (nodes c ++ [mkNode k v len]).

Lemma add_run_big w cb k v s b :
  ~ In k (keys (sector_of w s)) -> disk s v = Some b ->
  after_cleanup_size (sector_of w s) <= Z.of_nat (List.length b) ->
  add w cb k v s = cb k v s.
Proof.
  intros Hk Hv Hbig. apply cache_get_None in Hk.
  unfold add, bind, gets, getsize. rewrite Hv, Hk.
  destruct (_ >=? _) eqn:Hge; [reflexivity | lia].
Qed.

Lemma add_run_store w cb k v s b :
  ~ In k (keys (sector_of w s)) -> disk s v = Some b ->
  Z.of_nat (List.length b) < after_cleanup_size (sector_of w s) ->
  add w cb k v s =
  let s1 := set_sector w (pushed k v (Z.of_nat (List.length b))
                            (sector_of w s)) s in
  if value_size (sector_of w s1) >? max_size (sector_of w s1)
  then cleanup w cb s1 else (Ok tt, s1).
Proof.
  intros Hk Hv Hsmall. pose proof Hk as Hg. apply cache_get_None in Hg.
  unfold add, bind, gets, getsize. rewrite Hv, Hg.
  destruct (_ >=? _) eqn:Hge; [lia|].
  unfold with_nodes, modify, pushed.
  rewrite record_access_fresh by exact Hk. cbv zeta.
  destruct (_ >? _); reflexivity.
Qed.


Lemma cold_add_ok s k q z :
  lru_ok (compressed_cache s) -> within (compressed_cache s) ->
  ~ In k (keys (compressed_cache s)) -> disk s q = Some z ->
  exists s' gone,
    add Compressed _clear_compressed_entry k q s = (Ok tt, s') /\
    uncompressed_cache s' = uncompressed_cache s /\
    lru_ok (compressed_cache s') /\ within (compressed_cache s') /\
    Permutation (nodes (compressed_cache s') ++ gone)
      (nodes (compressed_cache s) ++ [mkNode k q (Z.of_nat (List.length z))]) /\
    (forall p, disk s' p = disk s p \/
               (disk s' p = None /\ In p (map value gone))).
Proof.
  intros Hok Hin Hk Hq.
  destruct (Z_lt_le_dec (Z.of_nat (List.length z))
              (after_cleanup_size (compressed_cache s))) as [Hsmall|Hbig].
  - rewrite (add_run_store Compressed _ k q s z Hk Hq Hsmall).
    set (s1 := set_sector Compressed
                 (pushed k q (Z.of_nat (List.length z))
                    (sector_of Compressed s)) s).
    cbv zeta.
    assert (Hok1 : lru_ok (compressed_cache s1)).
    { apply lru_ok_push; [assumption | assumption | ].
      cbn [sector_of]; lia. }
    simpl sector_of.
    destruct (_ >? _) eqn:Hover.
    + destruct (cold_cleanup_loop_ok
                  (S (List.length (nodes (compressed_cache s1)))) s1)
        as (s' & gone & Hrun & (H1 & H2 & H3 & H4) & Hle);
        [assumption | simpl; lia | lia |].
      exists s', gone. split; [exact Hrun|].
      split; [rewrite H1; reflexivity|]. split; [exact H3|].
      pose proof (run_frame _ _ _ _
        (framed_cleanup Compressed _ framed_clear_compressed_entry) Hrun)
        as [(_ & _ & _ & _ & F5 & F6 & _) _].
      split; [|split].
      * unfold within. destruct H3 as (_ & _ & _ & H3). lia.
      * simpl in H2. rewrite H2. apply Permutation_app_comm.
      * exact H4.
    + exists s1, []. split; [reflexivity|]. split; [reflexivity|].
      split; [exact Hok1|]. split; [|split].
      * unfold within. subst s1. simpl in *. lia.
      * rewrite app_nil_r. reflexivity.
      * auto.
  - rewrite (add_run_big Compressed _ k q s z Hk Hq Hbig).
    eexists. exists [mkNode k q (Z.of_nat (List.length z))].
    split; [reflexivity|]. simpl. repeat split; try apply Hok; auto.
    intros p. unfold upd. destruct (Nat.eqb p q) eqn:Hp; auto.
    apply Nat.eqb_eq in Hp. auto.
Qed.

(** * The uncompressed sector: evictions demote *)

Lemma compress_tagsfile_run E p s b :
  disk s p = Some b -> p <> next_tmp s ->
  match gzip_write E COMPRESSION_LEVEL b with
  | Some z =>
      exists s2,
        compress_tagsfile E p s = (Ok (next_tmp s), s2) /\
        same_sectors s s2 /\ clearing s2 = clearing s /\
        next_tmp s2 = S (next_tmp s) /\
        disk s2 (next_tmp s) = Some z /\
        (forall p', p' <> next_tmp s -> disk s2 p' = disk s p') /\
        trace s2 = trace s ++ [CompressTagsfile p]
  | None =>
      exists s2,
        compress_tagsfile E p s = (Err IOError, s2) /\
        same_sectors s s2 /\
        (forall p', p' <> next_tmp s -> disk s2 p' = disk s p') /\
        trace s2 = trace s ++ [CompressTagsfile p]
  end.
Proof.
  intros Hp Hne. unfold compress_tagsfile, bind, read_file; simpl.
  rewrite upd_other by exact Hne. rewrite Hp.
  destruct (gzip_write _ _ _); simpl; eexists; (split; [reflexivity|]);
    simpl; repeat split; auto.
  - apply upd_same.
  - intros p' Hp'. rewrite !upd_other by exact Hp'. reflexivity.
  - intros p' Hp'. rewrite !upd_other by exact Hp'. reflexivity.
Qed.

Section HotLevel.

Variable E : env.
Let hot_cb := _clear_uncompressed_entry E.

Lemma hot_cb_ok s k p b :
  clearing s = false ->
  lru_ok (compressed_cache s) -> within (compressed_cache s) ->
  ~ In k (keys (compressed_cache s)) ->
  files_ok s -> ~ owns s p -> (p < next_tmp s)%nat -> disk s p = Some b ->
  match hot_cb k p s with
  | (Ok _, s') =>
      uncompressed_cache s' = uncompressed_cache s /\
      lru_ok (compressed_cache s') /\ within (compressed_cache s') /\
      files_ok s' /\ disk s' p = None /\
      exists tr, trace s' =
        trace s ++ ClearUncompressedEntry k p :: CompressTagsfile p :: tr
  | (Err e, s') =>
      e = IOError /\ gzip_write E COMPRESSION_LEVEL b = None
  end.
Proof.
  intros Hcl Hok Hin Hk (Fh & Fc & Fd & Fo) Hnp Hlt Hp.
  unfold hot_cb, _clear_uncompressed_entry.
  set (s0 := log (ClearUncompressedEntry k p) s).
  assert (Hq := compress_tagsfile_run E p s0 b Hp ltac:(simpl; lia)).
  unfold bind at 1. unfold modify at 1. fold s0.
  unfold bind at 1. unfold gets at 1.
  change (clearing s0) with (clearing s). rewrite Hcl. simpl negb. cbv iota.
  destruct (gzip_write E COMPRESSION_LEVEL b) as [z|] eqn:Hz.
  2:{ destruct Hq as (s2 & Hrun & _). unfold bind. rewrite Hrun. auto. }
  destruct Hq as (s2 & Hrun & [Hh2 Hc2] & Hcl2 & Hn2 & Hd2 & Hd2' & Ht2).
  simpl in Hn2, Hd2, Hd2', Ht2.
  destruct (cold_add_ok s2 k (next_tmp s) z)
    as (s3 & gone & Hadd & Hh3 & Hok3 & Hin3 & Hperm & Hd3);
    try (rewrite Hc2; assumption); [exact Hd2|].
  unfold bind. rewrite Hrun. change (next_tmp s0) with (next_tmp s).
  rewrite Hadd. simpl.
  split; [rewrite Hh3, Hh2; reflexivity|]. split; [exact Hok3|].
  split; [exact Hin3|].
  pose proof (run_frame _ _ _ _
    (framed_add Compressed _ framed_clear_compressed_entry k (next_tmp s))
    Hadd) as [(_ & _ & _ & _ & _ & _ & Hn3 & [tr3 Ht3] & _) _].
  (* the compressed sector holds old nodes and the new file only *)
  assert (Hsub : forall x, In x (values (compressed_cache s3)) \/
                           In x (map value gone) ->
                   In x (values (compressed_cache s)) \/ x = next_tmp s).
  { intros x Hx.
    assert (Hx' : In x (map value (nodes (compressed_cache s3) ++ gone))).
    { rewrite map_app. apply in_or_app. exact Hx. }
    eapply Permutation_in in Hx'; [|apply Permutation_map; exact Hperm].
    rewrite Hc2, map_app in Hx'. apply in_app_or in Hx'.
    destruct Hx' as [Hx'|[Hx'|[]]]; auto. }
  assert (Hfresh : ~ In (next_tmp s) (values (compressed_cache s))).
  { intros Hx. destruct (Fo (next_tmp s)) as [Hx' _]; [right; exact Hx|].
    lia. }
  assert (Hnd : NoDup (map value (nodes (compressed_cache s3) ++ gone))).
  { eapply Permutation_NoDup;
      [apply Permutation_sym, Permutation_map; exact Hperm|].
    rewrite Hc2, map_app. apply NoDup_app_iff. split; [exact Fc|].
    split; [constructor; [intros []|constructor]|].
    intros a Ha [<-|[]]. exact (Hfresh Ha). }
  rewrite map_app in Hnd. apply NoDup_app_iff in Hnd.
  destruct Hnd as (Hnd3 & _ & Hsep).
  assert (Hh : uncompressed_cache s3 = uncompressed_cache s)
    by (rewrite Hh3, Hh2; reflexivity).
  split; [|split].
  - (* files_ok *)
    unfold files_ok, owns. simpl. rewrite Hh.
    split; [exact Fh|]. split; [exact Hnd3|]. split.
    + intros x Hxh Hxc.
      destruct (Hsub x (or_introl Hxc)) as [Hx| ->].
      * exact (Fd x Hxh Hx).
      * destruct (Fo (next_tmp s)) as [Hx' _]; [left; exact Hxh|]. lia.
    + intros x Hx.
      assert (Hx0 : (x < next_tmp s)%nat /\ disk s x <> None \/
                    x = next_tmp s).
      { destruct Hx as [Hx|Hx].
        - left. apply Fo. left. exact Hx.
        - destruct (Hsub x (or_introl Hx)) as [Hx'| ->]; auto.
          left. apply Fo. right. exact Hx'. }
      assert (Hgone : ~ In x (map value gone)).
      { destruct Hx as [Hx|Hx].
        - intros Hg.
          destruct (Hsub x (or_intror Hg)) as [Hx'| ->].
          + exact (Fd x Hx Hx').
          + destruct (Fo (next_tmp s)) as [Hx' _]; [left; exact Hx|]. lia.
        - exact (Hsep x Hx). }
      assert (Hxp : x <> p).
      { intros ->. destruct Hx0 as [_| ->]; [|lia]. apply Hnp.
        destruct Hx as [Hx|Hx].
        - left. exact Hx.
        - destruct (Hsub p (or_introl Hx)) as [Hx'|Hx']; [right; exact Hx'|].
          lia. }
      split; [lia|]. rewrite upd_other by exact Hxp.
      destruct (Hd3 x) as [Hd|[_ Hd]]; [|contradiction]. rewrite Hd.
      destruct Hx0 as [[Hlt0 Hdx]| ->].
      * rewrite Hd2' by lia. exact Hdx.
      * rewrite Hd2. discriminate.
  - apply upd_same.
  - exists (tr3 ++ [DeleteTagsfile p]). rewrite Ht3, Ht2. simpl.
    rewrite <- !app_assoc. reflexivity.
Qed.


Lemma remove_node_run w cb n s :
  _remove_node w cb n s =
  cb (key n) (value n)
    (set_sector w
       (mkLRU (max_size (sector_of w s)) (after_cleanup_size (sector_of w s))
          (value_size (sector_of w s) - size n)
          (unlink (key n) (nodes (sector_of w s)))) s).
Proof. reflexivity. Qed.

(** What holds of the cache while the uncompressed sector is being
    cleaned up. *)
Definition mid (s : state) : Prop :=
  lru_ok (uncompressed_cache s) /\ lru_ok (compressed_cache s) /\
  within (compressed_cache s) /\ files_ok s /\ disjoint_sectors s /\
  clearing s = false.

Definition codec_failed : Prop :=
  exists b, gzip_write E COMPRESSION_LEVEL b = None.

Lemma hot_remove_lru_ok s n rest :
  mid s -> nodes (uncompressed_cache s) = n :: rest ->
  match _remove_lru Uncompressed hot_cb s with
  | (Ok _, s') =>
      mid s' /\
      uncompressed_cache s' =
        mkLRU (max_size (uncompressed_cache s))
          (after_cleanup_size (uncompressed_cache s))
          (value_size (uncompressed_cache s) - size n) rest /\
      disk s' (value n) = None /\
      exists tr, trace s' =
        trace s ++ ClearUncompressedEntry (key n) (value n)
                :: CompressTagsfile (value n) :: tr
  | (Err e, s') => e = IOError /\ codec_failed
  end.
Proof.
  intros (Hh & Hc & Hw & (Fh & Fc & Fd & Fo) & Hd & Hcl) Hn.
  destruct (lru_ok_pop _ _ _ Hh Hn) as [Hun Hh1].
  rewrite (remove_lru_cons Uncompressed _ s n rest Hn).
  pose proof (hot_remove_node_disjoint E n s Hd) as Hdis.
  pose proof (framed_remove_node Uncompressed _
                (framed_clear_uncompressed_entry E) n s) as Hfr.
  unfold wp in Hdis, Hfr. fold hot_cb in Hdis, Hfr.
  rewrite remove_node_run in *.
  set (s1 := set_sector Uncompressed _ s) in *.
  assert (Hc1 : uncompressed_cache s1 =
                mkLRU (max_size (uncompressed_cache s))
                  (after_cleanup_size (uncompressed_cache s))
                  (value_size (uncompressed_cache s) - size n) rest).
  { subst s1. simpl. rewrite Hun. reflexivity. }
  assert (Hvn : In (value n) (values (uncompressed_cache s))).
  { unfold values. rewrite Hn. left. reflexivity. }
  assert (Hvr : forall x, In x (map value rest) ->
                 In x (values (uncompressed_cache s)) /\ x <> value n).
  { unfold values in *. rewrite Hn in *. simpl in *. intros x Hx.
    split; [auto|]. inversion Fh; subst. congruence. }
  destruct (Fo (value n) (or_introl Hvn)) as [Hlt Hex].
  destruct (disk s (value n)) as [b|] eqn:Hb; [clear Hex|congruence].
  assert (P1 : ~ In (key n) (keys (compressed_cache s1))).
  { intros Hk. apply (Hd (key n)); [|exact Hk].
    unfold keys. rewrite Hn. left. reflexivity. }
  assert (P2 : files_ok s1).
  { unfold files_ok, owns. rewrite Hc1. unfold values at 1 2 4. simpl.
    change (compressed_cache s1) with (compressed_cache s).
    change (next_tmp s1) with (next_tmp s).
    change (disk s1) with (disk s).
    split; [|split; [|split]].
    - unfold values in Fh. rewrite Hn in Fh. inversion Fh; assumption.
    - exact Fc.
    - intros x Hx. apply Fd. apply Hvr. exact Hx.
    - intros x [Hx|Hx]; apply Fo; [left; apply Hvr; exact Hx|].
      right. exact Hx. }
  assert (P3 : ~ owns s1 (value n)).
  { unfold owns. rewrite Hc1. unfold values at 1. simpl. intros [Hx|Hx].
    - apply Hvr in Hx. tauto.
    - exact (Fd _ Hvn Hx). }
  assert (Hpre := hot_cb_ok s1 (key n) (value n) b Hcl Hc Hw P1 P2 P3 Hlt Hb).
  destruct (hot_cb (key n) (value n) s1) as [[[]|e] s'].
  - destruct Hpre as (H1 & H2 & H3 & H4 & H5 & H6).
    simpl in Hdis, Hfr. destruct Hdis as [Hdis _].
    destruct Hfr as [_ [Hfc _]].
    split; [|split; [|split]]; auto.
    + unfold mid. rewrite H1, Hc1.
      split; [exact Hh1|]. split; [exact H2|]. split; [exact H3|].
      split; [exact H4|]. split; [exact Hdis|].
      rewrite Hfc. exact Hcl.
    + rewrite H1. exact Hc1.
  - destruct Hpre as (H1 & H2). split; [assumption|]. exists b. assumption.
Qed.


(** The nodes [gone] were handed to [_clear_uncompressed_entry] between
    [s] and [s']: compressed, and their uncompressed files deleted. *)
Definition demoted (gone : list LRUNode) (s s' : state) : Prop :=
  exists tr, trace s' = trace s ++ tr /\
    forall m, In m gone ->
      disk s' (value m) = None /\
      In (ClearUncompressedEntry (key m) (value m)) tr /\
      In (CompressTagsfile (value m)) tr.

Lemma hot_cleanup_loop_ok fuel : forall s,
  mid s -> 0 <= after_cleanup_size (uncompressed_cache s) ->
  (List.length (nodes (uncompressed_cache s)) < fuel)%nat ->
  match cleanup_loop Uncompressed hot_cb fuel s with
  | (Ok _, s') =>
      mid s' /\
      value_size (uncompressed_cache s') <=
        after_cleanup_size (uncompressed_cache s') /\
      (exists gone,
         nodes (uncompressed_cache s) =
           gone ++ nodes (uncompressed_cache s') /\
         demoted gone s s') /\
      (forall l m, nodes (uncompressed_cache s) = l ++ [m] ->
         size m <= after_cleanup_size (uncompressed_cache s) ->
         exists l', nodes (uncompressed_cache s') = l' ++ [m])
  | (Err e, s') => e = IOError /\ codec_failed
  end.
Proof.
  induction fuel as [|fuel IH]; intros s Hmid Hlim Hlen; [lia|].
  rewrite cleanup_loop_S. cbn [sector_of].
  destruct (_ >? _) eqn:Hgt.
  - destruct (nodes (uncompressed_cache s)) as [|n rest] eqn:Hn.
    { exfalso. destruct Hmid as ((_ & Hvs & _) & _). rewrite Hn in Hvs.
      simpl in Hvs. lia. }
    pose proof (hot_remove_lru_ok s n rest Hmid Hn) as H1.
    pose proof (framed_cleanup_loop Uncompressed _
                  (framed_clear_uncompressed_entry E) fuel) as Hfr.
    unfold bind. fold hot_cb in Hfr.
    destruct (_remove_lru Uncompressed hot_cb s) as [[[]|e] s1] eqn:Hrun1;
      [|exact H1].
    pose proof (run_frame _ _ _ _
      (framed_remove_lru Uncompressed _ (framed_clear_uncompressed_entry E))
      Hrun1) as [(_ & _ & _ & _ & _ & _ & Hnt & _) _].
    destruct H1 as (Hmid1 & Hc1 & Hd1 & tr1 & Ht1).
    specialize (IH s1 Hmid1). specialize (Hfr s1). unfold wp in Hfr.
    rewrite Hc1 in IH. simpl in IH, Hlen.
    specialize (IH Hlim ltac:(lia)).
    destruct (cleanup_loop Uncompressed hot_cb fuel s1) as [[[]|e] s'];
      [|exact IH].
    simpl in Hfr.
    destruct Hfr as [(_ & _ & _ & _ & _ & _ & _ & _ & Hfd) _].
    destruct IH as (Hmid' & Hle & (gone & Hg & tr2 & Ht2 & Hdem) & Hret).
    split; [exact Hmid'|]. split; [exact Hle|]. split.
    + exists (n :: gone). split; [simpl; rewrite Hg; reflexivity|].
      exists ((ClearUncompressedEntry (key n) (value n)
               :: CompressTagsfile (value n) :: tr1) ++ tr2).
      split; [rewrite Ht2, Ht1, <- app_assoc; reflexivity|].
      intros m [<-|Hm].
      * split; [|split; apply in_or_app; left; simpl; auto].
        assert (Hlt : (value n < next_tmp s1)%nat).
        { destruct Hmid as (_ & _ & _ & (_ & _ & _ & Fo) & _).
          destruct (Fo (value n)) as [Hlt _]; [|lia].
          left. unfold values. rewrite Hn. left. reflexivity. }
        destruct (Hfd (value n) Hlt) as [H|H]; congruence.
      * destruct (Hdem m Hm) as (D1 & D2 & D3).
        split; [exact D1|]. split; apply in_or_app; right; assumption.
    + intros l m Hl Hm. destruct l as [|n0 l0].
      * simpl in Hl. injection Hl as Hl1 Hl2.
        destruct Hmid as ((_ & Hvs & _) & _). rewrite Hn, Hl1, Hl2 in Hvs.
        simpl in Hvs. lia.
      * simpl in Hl. injection Hl as Hl1 Hl2. apply (Hret l0 m Hl2 Hm).
  - split; [exact Hmid|]. split; [lia|]. split.
    + exists []. split; [reflexivity|]. exists [].
      split; [rewrite app_nil_r; reflexivity | intros m []].
    + intros l m Hl _. exists l. exact Hl.
Qed.


Lemma values_pushed k v len c : values (pushed k v len c) = values c ++ [v].
Proof. unfold values, pushed. simpl. apply map_app. Qed.

Lemma keys_pushed k v len c : keys (pushed k v len c) = keys c ++ [k].
Proof. unfold keys, pushed. simpl. apply map_app. Qed.

Lemma hot_add_ok s k p b :
  mid s ->
  ~ In k (keys (uncompressed_cache s)) ->
  ~ In k (keys (compressed_cache s)) ->
  ~ owns s p -> (p < next_tmp s)%nat -> disk s p = Some b ->
  match add Uncompressed hot_cb k p s with
  | (Ok _, s') =>
      mid s' /\
      (within (uncompressed_cache s) -> within (uncompressed_cache s')) /\
      if Z.of_nat (List.length b) <? after_cleanup_size (uncompressed_cache s)
      then
        (exists l', nodes (uncompressed_cache s') =
                    l' ++ [mkNode k p (Z.of_nat (List.length b))]) /\
        (exists gone,
           nodes (uncompressed_cache s) ++
             [mkNode k p (Z.of_nat (List.length b))] =
           gone ++ nodes (uncompressed_cache s') /\
           demoted gone s s')
      else
        uncompressed_cache s' = uncompressed_cache s /\
        disk s' p = None /\
        exists tr, trace s' =
          trace s ++ ClearUncompressedEntry k p :: CompressTagsfile p :: tr
  | (Err e, s') => e = IOError /\ codec_failed
  end.
Proof.
  intros Hmid Hkh Hkc Hnp Hlt Hp.
  pose proof Hmid as (Hh & Hc & Hw & (Fh & Fc & Fd & Fo) & Hd & Hcl).
  destruct (Z.ltb_spec (Z.of_nat (List.length b))
              (after_cleanup_size (uncompressed_cache s))) as [Hsmall|Hbig].
  - rewrite (add_run_store Uncompressed _ k p s b Hkh Hp Hsmall).
    set (new := mkNode k p (Z.of_nat (List.length b))).
    set (s1 := set_sector Uncompressed _ s). cbv zeta.
    assert (Hc1 : uncompressed_cache s1 =
                  pushed k p (Z.of_nat (List.length b))
                    (uncompressed_cache s)) by reflexivity.
    assert (Hmid1 : mid s1).
    { unfold mid. rewrite Hc1.
      split; [apply lru_ok_push; auto; lia|].
      split; [exact Hc|]. split; [exact Hw|]. split; [|split; [|exact Hcl]].
      - unfold files_ok, owns. rewrite Hc1, values_pushed.
        change (compressed_cache s1) with (compressed_cache s).
        change (next_tmp s1) with (next_tmp s).
        change (disk s1) with (disk s).
        split; [|split; [|split]].
        + apply NoDup_app_iff. split; [exact Fh|].
          split; [constructor; [intros []|constructor]|].
          intros a Ha [<-|[]]. apply Hnp. left. exact Ha.
        + exact Fc.
        + intros x Hx Hxc. apply in_app_or in Hx.
          destruct Hx as [Hx|[<-|[]]]; [exact (Fd x Hx Hxc)|].
          apply Hnp. right. exact Hxc.
        + intros x [Hx|Hx].
          * apply in_app_or in Hx. destruct Hx as [Hx|[<-|[]]].
            -- apply Fo. left. exact Hx.
            -- split; [exact Hlt | congruence].
          * apply Fo. right. exact Hx.
      - intros x Hx Hxc. rewrite Hc1, keys_pushed in Hx.
        apply in_app_or in Hx.
        destruct Hx as [Hx|[<-|[]]]; [exact (Hd x Hx Hxc)|].
        exact (Hkc Hxc). }
    cbn [sector_of]. destruct (_ >? _) eqn:Hover.
    + pose proof (hot_cleanup_loop_ok
        (S (List.length (nodes (uncompressed_cache s1)))) s1 Hmid1) as Hloop.
      unfold cleanup. cbn [sector_of]. fold hot_cb.
      destruct (cleanup_loop _ _ _ s1) as [[[]|e] s'].
      * destruct Hloop as (Hmid' & Hle & Hgone & Hret);
          [rewrite Hc1; simpl; lia | lia |].
        split; [exact Hmid'|]. split.
        { intros _. unfold within.
          destruct Hmid' as ((_ & _ & _ & Hlim) & _). lia. }
        split.
        { apply (Hret (nodes (uncompressed_cache s)) new).
          - rewrite Hc1. reflexivity.
          - rewrite Hc1. simpl. lia. }
        exact Hgone.
      * apply Hloop; [rewrite Hc1; simpl; lia | lia].
    + split; [exact Hmid1|]. split.
      { intros _. unfold within. lia. }
      split; [exists (nodes (uncompressed_cache s)); reflexivity|].
      exists []. split; [reflexivity|]. exists [].
      split; [simpl; rewrite app_nil_r; reflexivity | intros m []].
  - rewrite (add_run_big Uncompressed _ k p s b Hkh Hp Hbig).
    pose proof (hot_cb_ok s k p b Hcl Hc Hw Hkc (conj Fh (conj Fc (conj Fd Fo)))
                  Hnp Hlt Hp) as Hcb.
    pose proof (hot_cb_keys E k p s) as Hkeys.
    pose proof (framed_clear_uncompressed_entry E k p s) as Hfr.
    unfold wp in Hkeys, Hfr. fold hot_cb in Hkeys, Hfr.
    destruct (hot_cb k p s) as [[[]|e] s'];
      [|split; [apply Hcb | exists b; apply Hcb]].
    destruct Hcb as (H1 & H2 & H3 & H4 & H5 & H6).
    simpl in Hkeys, Hfr. destruct Hkeys as [_ Hkeys].
    destruct Hfr as [_ [Hfc _]].
    split; [|split; [rewrite H1; auto|]]; [|auto].
    unfold mid. rewrite H1.
    split; [exact Hh|]. split; [exact H2|]. split; [exact H3|].
    split; [exact H4|]. split; [|congruence].
    intros x Hx Hxc. rewrite H1 in Hx. apply Hkeys in Hxc.
    destruct Hxc as [<-|Hxc]; [exact (Hkh Hx) | exact (Hd x Hx Hxc)].
Qed.


End HotLevel.

(** * get_tagsfile and clear on well-formed caches *)

Definition wf (s : state) : Prop :=
  mid s /\ within (uncompressed_cache s) /\ lock s = false /\
  max_size (uncompressed_cache s) = uncompressed_max_bytes s /\
  max_size (compressed_cache s) = compressed_max_bytes s.

(** The part of [get_tagsfile] that runs when the key is in neither sector
    or only in the compressed one. *)
Definition fetch (E : env) (git_repo_path git_rev : string) (cold : bool)
  : M path :=
  if cold then
    compressed_tagsfile_path <- getitem Compressed git_rev ;;
    uncompressed_tagsfile_path <-
      uncompress_tagsfile E compressed_tagsfile_path ;;
    node <- cache_lookup Compressed git_rev ;;
    _remove_node Compressed _clear_compressed_entry node ;;
    ret uncompressed_tagsfile_path
  else create_tagsfile E git_repo_path git_rev.

(** Leaving the [with] block. *)
Definition unlocked {A} (x : result A * state) : result A * state :=
  (fst x, set_lock false (log LockRelease (snd x))).

Lemma get_tagsfile_hit E r k s :
  String.length k = 40%nat -> lock s = false ->
  mem (uncompressed_cache s) k = true ->
  get_tagsfile E r k s =
  unlocked (getitem Uncompressed k (set_lock true (log LockAcquire s))).
Proof.
  intros Hlen Hl Hm. unfold get_tagsfile, bind at 1. rewrite Hlen. simpl.
  unfold with_lock. rewrite Hl. unfold bind at 1, contains, gets.
  cbn [sector_of uncompressed_cache set_lock log]. rewrite Hm.
  unfold unlocked. destruct (getitem _ _ _); reflexivity.
Qed.

Lemma get_tagsfile_fetch E r k s :
  String.length k = 40%nat -> lock s = false ->
  mem (uncompressed_cache s) k = false ->
  get_tagsfile E r k s =
  unlocked ((p <- fetch E r k (mem (compressed_cache s) k) ;;
             add Uncompressed (_clear_uncompressed_entry E) k p ;;
             ret p) (set_lock true (log LockAcquire s))).
Proof.
  intros Hlen Hl Hm. unfold get_tagsfile, bind at 1. rewrite Hlen. simpl.
  unfold with_lock. rewrite Hl. unfold bind at 1, contains at 1, gets.
  cbn [sector_of uncompressed_cache set_lock log]. rewrite Hm.
  unfold bind at 1, contains at 1, gets.
  cbn [sector_of compressed_cache set_lock log].
  unfold unlocked, fetch.
  match goal with |- (let (_, _) := ?x in _) = _ => destruct x end.
  reflexivity.
Qed.

Lemma cache_get_touched n c : cache_get (touched n c) (key n) = Some n.
Proof.
  unfold cache_get, touched, record_access. simpl.
  induction (nodes c) as [|m l IH]; simpl.
  - rewrite String.eqb_refl. reflexivity.
  - destruct (String.eqb (key m) (key n)) eqn:Heq; simpl; [exact IH|].
    rewrite Heq. exact IH.
Qed.

Lemma unlink_touched n l : unlink (key n) (record_access n l) = unlink (key n) l.
Proof.
  unfold record_access. rewrite unlink_app. simpl.
  rewrite String.eqb_refl. simpl. rewrite app_nil_r.
  unfold unlink. induction l as [|m l IH]; simpl; [reflexivity|].
  destruct (negb (String.eqb (key m) (key n))) eqn:Heq; simpl.
  - rewrite Heq. f_equal. exact IH.
  - exact IH.
Qed.

Lemma uncompress_tagsfile_run E p s zb :
  disk s p = Some zb -> p <> next_tmp s ->
  match gzip_read E zb with
  | Some b =>
      uncompress_tagsfile E p s =
      (Ok (next_tmp s),
       set_disk (upd (upd (disk s) (next_tmp s) (Some [])) (next_tmp s)
                   (Some b))
         (set_next_tmp (S (next_tmp s))
            (set_disk (upd (disk s) (next_tmp s) (Some []))
               (log (UncompressTagsfile p) s))))
  | None =>
      uncompress_tagsfile E p s =
      (Err IOError,
       set_next_tmp (S (next_tmp s))
         (set_disk (upd (disk s) (next_tmp s) (Some []))
            (log (UncompressTagsfile p) s)))
  end.
Proof.
  intros Hp Hne. unfold uncompress_tagsfile, bind, read_file; simpl.
  rewrite upd_other by exact Hne. rewrite Hp.
  destruct (gzip_read _ _); reflexivity.
Qed.

Lemma getitem_run w k s n :
  cache_get (sector_of w s) k = Some n ->
  getitem w k s = (Ok (value n), set_sector w (touched n (sector_of w s)) s).
Proof.
  intros H. unfold getitem, bind, cache_lookup. rewrite H. reflexivity.
Qed.

Lemma cache_lookup_run w k s n :
  cache_get (sector_of w s) k = Some n -> cache_lookup w k s = (Ok n, s).
Proof. intros H. unfold cache_lookup. rewrite H. reflexivity. Qed.

Lemma fetch_cold_ok E r k s n zb b :
  mid s -> ~ In k (keys (uncompressed_cache s)) ->
  cache_get (compressed_cache s) k = Some n ->
  disk s (value n) = Some zb -> gzip_read E zb = Some b ->
  exists s3,
    fetch E r k true s = (Ok (next_tmp s), s3) /\
    mid s3 /\ uncompressed_cache s3 = uncompressed_cache s /\
    ~ In k (keys (compressed_cache s3)) /\
    ~ owns s3 (next_tmp s) /\ next_tmp s3 = S (next_tmp s) /\
    disk s3 (next_tmp s) = Some b /\ disk s3 (value n) = None /\
    lock s3 = lock s /\
    trace s3 = trace s ++ [UncompressTagsfile (value n);
                           ClearCompressedEntry k (value n);
                           DeleteTagsfile (value n)].
Proof.
  intros (Hh & Hc & Hw & (Fh & Fc & Fd & Fo) & Hd & Hcl) Hkh Hg Hz Hb.
  destruct (cache_get_Some _ _ _ Hg) as [Hn Hkn].
  assert (Hvn : In (value n) (values (compressed_cache s)))
    by (apply in_map; exact Hn).
  destruct (Fo (value n) (or_intror Hvn)) as [Hlt _].
  unfold fetch.
  rewrite (bind_ok _ _ _ _ _ (getitem_run Compressed k s n Hg)).
  cbn [sector_of].
  set (s1 := set_sector Compressed (touched n (compressed_cache s)) s).
  pose proof (uncompress_tagsfile_run E (value n) s1 zb Hz
                ltac:(simpl; lia)) as Hrun.
  rewrite Hb in Hrun. rewrite (bind_ok _ _ _ _ _ Hrun). clear Hrun.
  match goal with |- context [bind (cache_lookup _ _) _ ?s2] =>
    assert (Hg2 : cache_get (sector_of Compressed s2) k = Some n)
  end.
  { cbn [sector_of compressed_cache set_disk set_next_tmp log s1 set_sector].
    rewrite <- Hkn. apply cache_get_touched. }
  rewrite (bind_ok _ _ _ _ _ (cache_lookup_run Compressed k _ n Hg2)).
  clear Hg2. unfold bind. rewrite remove_node_run.
  eexists. split; [reflexivity|]. simpl.
  rewrite unlink_touched.
  assert (Hvr : forall x,
            In x (map value (unlink (key n) (nodes (compressed_cache s)))) ->
            In x (values (compressed_cache s)) /\ x <> value n).
  { intros x Hx. split; [eapply unlink_values; exact Hx|].
    intros ->. revert Hx. apply NoDup_unlinked_value; assumption. }
  split; [|split; [reflexivity|split; [|split; [|split; [reflexivity|]]]]].
  - unfold mid. simpl. split; [exact Hh|]. split; [|split; [|split; [|split]]].
    + apply (lru_ok_unlink _ n Hc Hn).
    + unfold within in *. simpl. destruct Hc as (_ & _ & Hall & _).
      rewrite Forall_forall in Hall. specialize (Hall n Hn). lia.
    + unfold files_ok, owns, values. simpl.
      split; [exact Fh|]. split; [apply unlink_NoDup_values; exact Fc|]. split.
      * intros x Hx Hxc. apply Hvr in Hxc. exact (Fd x Hx (proj1 Hxc)).
      * intros x Hx.
        assert (Hx' : owns s x /\ x <> value n).
        { destruct Hx as [Hx|Hx].
          - split; [left; exact Hx|]. intros ->. exact (Fd _ Hx Hvn).
          - apply Hvr in Hx. split; [right|]; tauto. }
        destruct Hx' as [Hx1 Hx2]. destruct (Fo x Hx1) as [Hx3 Hx4].
        split; [lia|]. rewrite !upd_other by lia. exact Hx4.
    + intros x Hx Hxc. simpl in Hx, Hxc. unfold keys in Hxc. simpl in Hxc.
      apply unlink_keys in Hxc. exact (Hd x Hx (proj1 Hxc)).
    + exact Hcl.
  - unfold keys. simpl. rewrite Hkn. intros Hx. apply unlink_keys in Hx. tauto.
  - unfold owns, values. simpl. intros [Hx|Hx].
    + destruct (Fo _ (or_introl Hx)). lia.
    + apply Hvr in Hx. destruct (Fo _ (or_intror (proj1 Hx))). lia.
  - split; [|split; [apply upd_same|split; [reflexivity|]]].
    + rewrite upd_other by lia. apply upd_same.
    + rewrite Hkn, <- !app_assoc. reflexivity.
Qed.

Lemma fetch_miss_ok E r k s b :
  mid s -> ctags E r k = Some b ->
  exists s3,
    fetch E r k false s = (Ok (next_tmp s), s3) /\
    mid s3 /\ same_sectors s s3 /\
    ~ owns s3 (next_tmp s) /\ next_tmp s3 = S (next_tmp s) /\
    disk s3 (next_tmp s) = Some b /\ lock s3 = lock s /\
    trace s3 = trace s ++ [CreateTagsfile r k].
Proof.
  intros (Hh & Hc & Hw & (Fh & Fc & Fd & Fo) & Hd & Hcl) Hb.
  unfold fetch, create_tagsfile, bind; simpl. rewrite Hb. simpl.
  eexists. split; [reflexivity|]. simpl.
  split; [|split; [split; reflexivity|split; [|split; [reflexivity|]]]].
  - unfold mid. simpl. repeat (split; [assumption|]).
    split; [|split; [exact Hd | exact Hcl]].
    unfold files_ok, owns. simpl. repeat (split; [assumption|]).
    intros x Hx. destruct (Fo x Hx) as [H1 H2]. split; [lia|].
    rewrite !upd_other by lia. exact H2.
  - unfold owns. simpl. intros Hx. destruct (Fo _ Hx). lia.
  - split; [apply upd_same|]. split; reflexivity.
Qed.

Lemma fetch_cold_fail E r k s n zb :
  cache_get (compressed_cache s) k = Some n ->
  disk s (value n) = Some zb -> value n <> next_tmp s ->
  gzip_read E zb = None ->
  fetch E r k true s =
  (Err IOError,
   set_next_tmp (S (next_tmp s))
     (set_disk (upd (disk s) (next_tmp s) (Some []))
        (log (UncompressTagsfile (value n))
           (set_sector Compressed (touched n (compressed_cache s)) s)))).
Proof.
  intros Hg Hz Hne Hb. unfold fetch.
  rewrite (bind_ok _ _ _ _ _ (getitem_run Compressed k s n Hg)).
  pose proof (uncompress_tagsfile_run E (value n)
    (set_sector Compressed (touched n (compressed_cache s)) s) zb
    Hz Hne) as Hrun.
  rewrite Hb in Hrun. rewrite (bind_err _ _ _ _ _ Hrun). reflexivity.
Qed.

Lemma mid_lock_log s b e :
  mid (set_lock b (log e s)) <-> mid s.
Proof. reflexivity. Qed.

Section GetTagsfile.

Variable E : env.

(** Inserting the fetched tagsfile and leaving the [with] block. *)
Lemma insert_ok k p b s :
  mid s -> within (uncompressed_cache s) ->
  ~ In k (keys (uncompressed_cache s)) ->
  ~ In k (keys (compressed_cache s)) ->
  ~ owns s p -> (p < next_tmp s)%nat -> disk s p = Some b ->
  match unlocked ((add Uncompressed (_clear_uncompressed_entry E) k p ;;
                   ret p) s) with
  | (Ok p', s') =>
      p' = p /\ mid s' /\ within (uncompressed_cache s') /\ lock s' = false
  | (Err e, s') => e = IOError /\ codec_failed E
  end.
Proof.
  intros Hmid Hw Hkh Hkc Hnp Hlt Hp.
  pose proof (hot_add_ok E s k p b Hmid Hkh Hkc Hnp Hlt Hp) as H.
  unfold unlocked, bind.
  destruct (add _ _ _ _ _) as [[[]|e] s']; simpl; [|exact H].
  destruct H as (H1 & H2 & _). auto.
Qed.

Lemma get_tagsfile_wf r k s :
  wf s ->
  match get_tagsfile E r k s with
  | (Ok _, s') => wf s'
  | (Err e, _) =>
      e = AssertionError \/ e = CreationFailure \/ e = IOError
  end.
Proof.
  intros (Hmid & Hw & Hl & Hm1 & Hm2).
  pose proof (framed_get_tagsfile E r k s) as Hfr. unfold wp in Hfr.
  assert (Hstat : forall s', frame s s' ->
            max_size (uncompressed_cache s') = uncompressed_max_bytes s' /\
            max_size (compressed_cache s') = compressed_max_bytes s').
  { intros s' [(F1 & F2 & F3 & _ & F5 & _) _]. split; congruence. }
  destruct (Nat.eq_dec (String.length k) 40) as [Hlen|Hlen].
  2:{ unfold get_tagsfile, bind at 1.
      apply Nat.eqb_neq in Hlen. rewrite Hlen. left. reflexivity. }
  pose proof Hmid as (Hh & Hc & Hwc & (Fh & Fc & Fd & Fo) & Hd & Hcl).
  set (s0 := set_lock true (log LockAcquire s)).
  destruct (mem (uncompressed_cache s) k) eqn:Hhot.
  - (* hit *)
    rewrite (get_tagsfile_hit E r k s Hlen Hl Hhot) in *.
    fold s0 in Hfr |- *.
    apply mem_In in Hhot. destruct (cache_get_In _ _ Hhot) as [n Hn].
    rewrite (getitem_run Uncompressed k s0 n Hn) in *.
    unfold unlocked in *. cbn [fst snd] in *.
    destruct (cache_get_Some _ _ _ Hn) as [Hin Hkn].
    split; [|split; [exact Hw|split; [reflexivity|apply Hstat, Hfr]]].
    unfold mid. simpl.
    split; [apply lru_ok_touch; assumption|]. split; [exact Hc|].
    split; [exact Hwc|]. split; [|split; [|exact Hcl]].
    + pose proof (touched_values_perm n _ (proj1 Hh) Hin) as Hperm.
      unfold files_ok, owns. simpl. split; [|split; [exact Fc|split]].
      * eapply Permutation_NoDup; [apply Permutation_sym; exact Hperm|].
        exact Fh.
      * intros x Hx. apply Fd. eapply Permutation_in; eassumption.
      * intros x [Hx|Hx]; apply Fo; [left|right; exact Hx].
        eapply Permutation_in; eassumption.
    + intros x Hx. simpl in Hx. unfold keys in Hx. simpl in Hx.
      apply record_access_keys in Hx; [|exact Hin]. apply Hd. exact Hx.
  - (* not in the uncompressed sector *)
    rewrite (get_tagsfile_fetch E r k s Hlen Hl Hhot) in *.
    fold s0 in Hfr |- *.
    apply mem_false in Hhot.
    destruct (mem (compressed_cache s) k) eqn:Hcold.
    + apply mem_In in Hcold. destruct (cache_get_In _ _ Hcold) as [n Hn].
      destruct (cache_get_Some _ _ _ Hn) as [Hin Hkn].
      destruct (Fo (value n)) as [Hlt Hex];
        [right; apply in_map; exact Hin|].
      destruct (disk s (value n)) as [zb|] eqn:Hz; [clear Hex|congruence].
      destruct (gzip_read E zb) as [b|] eqn:Hb.
      * destruct (fetch_cold_ok E r k s0 n zb b Hmid Hhot Hn Hz Hb)
          as (s3 & Hrun & M3 & Hh3 & Hk3 & Ho3 & Hn3 & Hd3 & _).
        rewrite (bind_ok _ _ _ _ _ Hrun) in *.
        assert (Hins := insert_ok k (next_tmp s0) b s3 M3
          ltac:(rewrite Hh3; exact Hw) ltac:(rewrite Hh3; exact Hhot)
          Hk3 Ho3 ltac:(lia) Hd3).
        destruct (unlocked _) as [[p'|e] s'];
          [|right; right; apply Hins].
        destruct Hins as (_ & M' & W' & L').
        split; [exact M'|]. split; [exact W'|]. split; [exact L'|].
        apply Hstat, Hfr.
      * rewrite (bind_err _ _ _ _ _
          (fetch_cold_fail E r k s0 n zb Hn Hz ltac:(simpl; lia) Hb)).
        right. right. reflexivity.
    + apply mem_false in Hcold. destruct (ctags E r k) as [b|] eqn:Hb.
      * destruct (fetch_miss_ok E r k s0 b Hmid Hb)
          as (s3 & Hrun & M3 & [Hh3 Hc3] & Ho3 & Hn3 & Hd3 & _).
        rewrite (bind_ok _ _ _ _ _ Hrun) in *.
        assert (Hins := insert_ok k (next_tmp s0) b s3 M3
          ltac:(rewrite Hh3; exact Hw) ltac:(rewrite Hh3; exact Hhot)
          ltac:(rewrite Hc3; exact Hcold) Ho3 ltac:(lia) Hd3).
        destruct (unlocked _) as [[p'|e] s'];
          [|right; right; apply Hins].
        destruct Hins as (_ & M' & W' & L').
        split; [exact M'|]. split; [exact W'|]. split; [exact L'|].
        apply Hstat, Hfr.
      * unfold fetch, create_tagsfile, bind, unlocked; simpl.
        rewrite Hb. right. left. reflexivity.
Qed.

End GetTagsfile.

(** ** clear *)

Lemma clear_loop_S w cb fuel s n rest :
  nodes (sector_of w s) = n :: rest ->
  clear_loop w cb (S fuel) s = (_remove_node w cb n ;; clear_loop w cb fuel) s.
Proof.
  intros H. simpl. rewrite H. unfold bind.
  rewrite (remove_lru_cons w cb s n rest H). reflexivity.
Qed.

Lemma clear_loop_nil w cb fuel s :
  nodes (sector_of w s) = [] -> clear_loop w cb fuel s = (Ok tt, s).
Proof. intros H. destruct fuel; simpl; rewrite H; reflexivity. Qed.

Lemma hot_cb_clearing E k p s :
  clearing s = true ->
  _clear_uncompressed_entry E k p s =
  (Ok tt, set_disk (upd (disk s) p None)
            (log (DeleteTagsfile p) (log (ClearUncompressedEntry k p) s))).
Proof.
  intros H. unfold _clear_uncompressed_entry, bind, gets; simpl.
  rewrite H. reflexivity.
Qed.

Definition emptied (c : LRUSizeCache) : LRUSizeCache :=
  mkLRU (max_size c) (after_cleanup_size c) 0 [].

Lemma lru_ok_nil c : lru_ok c -> nodes c = [] -> c = emptied c.
Proof.
  intros (_ & Hvs & _) Hn. destruct c as [m a v l]. simpl in *. subst.
  reflexivity.
Qed.

Lemma hot_clear_loop_ok E fuel : forall s,
  lru_ok (uncompressed_cache s) -> clearing s = true ->
  (List.length (nodes (uncompressed_cache s)) <= fuel)%nat ->
  exists s',
    clear_loop Uncompressed (_clear_uncompressed_entry E) fuel s = (Ok tt, s') /\
    uncompressed_cache s' = emptied (uncompressed_cache s) /\
    compressed_cache s' = compressed_cache s.
Proof.
  induction fuel as [|fuel IH]; intros s Hok Hcl Hlen.
  - destruct (nodes (uncompressed_cache s)) eqn:Hn; [|simpl in Hlen; lia].
    exists s. split; [apply clear_loop_nil; exact Hn|].
    split; [apply lru_ok_nil; assumption | reflexivity].
  - destruct (nodes (uncompressed_cache s)) as [|n rest] eqn:Hn.
    + exists s. split; [apply clear_loop_nil; exact Hn|].
      split; [apply lru_ok_nil; assumption | reflexivity].
    + rewrite (clear_loop_S Uncompressed _ fuel s n rest Hn).
      unfold bind. rewrite remove_node_run, hot_cb_clearing by exact Hcl.
      destruct (lru_ok_pop _ _ _ Hok Hn) as [Hun Hok1].
      lazymatch goal with |- exists _, clear_loop _ _ _ ?s1 = _ /\ _ =>
        set (s1' := s1)
      end.
      destruct (IH s1') as (s' & Hrun & H1 & H2).
      * simpl. rewrite Hun. exact Hok1.
      * exact Hcl.
      * simpl. rewrite Hun. simpl in Hlen. lia.
      * exists s'. split; [exact Hrun|]. split; [|exact H2].
        rewrite H1. reflexivity.
Qed.

Lemma cold_clear_loop_ok fuel : forall s,
  lru_ok (compressed_cache s) ->
  (List.length (nodes (compressed_cache s)) <= fuel)%nat ->
  exists s',
    clear_loop Compressed _clear_compressed_entry fuel s = (Ok tt, s') /\
    compressed_cache s' = emptied (compressed_cache s) /\
    uncompressed_cache s' = uncompressed_cache s.
Proof.
  induction fuel as [|fuel IH]; intros s Hok Hlen.
  - destruct (nodes (compressed_cache s)) eqn:Hn; [|simpl in Hlen; lia].
    exists s. split; [apply clear_loop_nil; exact Hn|].
    split; [apply lru_ok_nil; assumption | reflexivity].
  - destruct (nodes (compressed_cache s)) as [|n rest] eqn:Hn.
    + exists s. split; [apply clear_loop_nil; exact Hn|].
      split; [apply lru_ok_nil; assumption | reflexivity].
    + rewrite (clear_loop_S Compressed _ fuel s n rest Hn).
      unfold bind. rewrite cold_remove_node_run.
      destruct (lru_ok_pop _ _ _ Hok Hn) as [Hun Hok1].
      destruct (IH (cold_removed n s)) as (s' & Hrun & H1 & H2).
      * simpl. rewrite Hun. exact Hok1.
      * simpl. rewrite Hun. simpl in Hlen. lia.
      * exists s'. split; [exact Hrun|]. split; [|exact H2].
        rewrite H1. reflexivity.
Qed.

(** [clear] empties both sectors and cannot fail. *)
Lemma clear_ok E s :
  lru_ok (uncompressed_cache s) -> lru_ok (compressed_cache s) ->
  exists s',
    clear E s = (Ok tt, s') /\
    uncompressed_cache s' = emptied (uncompressed_cache s) /\
    compressed_cache s' = emptied (compressed_cache s) /\
    clearing s' = false /\ lock s' = lock s.
Proof.
  intros Hh Hc. unfold clear.
  rewrite (bind_ok _ _ _ _ _ (eq_refl : modify (set_clearing true) s = _)).
  destruct (hot_clear_loop_ok E
              (List.length (nodes (uncompressed_cache s)))
              (set_clearing true s) Hh eq_refl (Nat.le_refl _))
    as (s1 & Hrun1 & H1 & H2).
  pose proof (run_frame _ _ _ _
    (framed_clear_loop Uncompressed _ (framed_clear_uncompressed_entry E) _)
    Hrun1) as [_ [_ L1]].
  change (LRU_clear Uncompressed (_clear_uncompressed_entry E)
            (set_clearing true s) = (Ok tt, s1)) in Hrun1.
  rewrite (bind_ok _ _ _ _ _ Hrun1).
  destruct (cold_clear_loop_ok
              (List.length (nodes (compressed_cache s1))) s1)
    as (s2 & Hrun2 & H3 & H4); [rewrite H2; exact Hc | apply Nat.le_refl|].
  pose proof (run_frame _ _ _ _
    (framed_clear_loop Compressed _ framed_clear_compressed_entry _)
    Hrun2) as [_ [_ L2]].
  change (LRU_clear Compressed _clear_compressed_entry s1 = (Ok tt, s2))
    in Hrun2.
  rewrite (bind_ok _ _ _ _ _ Hrun2).
  eexists. split; [reflexivity|]. simpl.
  rewrite H4, H3, H1, H2. repeat split. simpl in L1. congruence.
Qed.

Lemma clear_wf E s :
  wf s -> exists s', clear E s = (Ok tt, s') /\ wf s' /\
    nodes (uncompressed_cache s') = [] /\ nodes (compressed_cache s') = [].
Proof.
  intros ((Hh & Hc & Hwc & Hf & Hd & Hcl) & Hw & Hl & Hm1 & Hm2).
  destruct (clear_ok E s Hh Hc) as (s' & Hrun & H1 & H2 & H3 & H4).
  pose proof (wp_run _ _ _ _ _ (clear_frame0 E s) Hrun)
    as (F1 & F2 & F3 & F4 & F5 & F6 & _).
  exists s'. split; [exact Hrun|].
  assert (Hpos : forall c, lru_ok c -> within c -> lru_ok (emptied c) /\
                                                    within (emptied c)).
  { intros c (_ & Hvs & Hall & Hlim) Hin. unfold within in *.
    pose proof (total_nonneg _ _ Hall). split; [|simpl; lia].
    split; [apply NoDup_nil|]. split; [reflexivity|].
    split; [apply Forall_nil | exact Hlim]. }
  destruct (Hpos _ Hh Hw) as [Hh' Hw'].
  destruct (Hpos _ Hc Hwc) as [Hc' Hwc'].
  split; [|rewrite H1, H2; split; reflexivity].
  unfold wf, mid. rewrite H1, H2.
  split; [|split; [exact Hw'|split; [congruence|split; simpl; congruence]]].
  split; [exact Hh'|]. split; [exact Hc'|]. split; [exact Hwc'|].
  split; [|split; [|exact H3]].
  - unfold files_ok, owns. rewrite H1, H2. simpl.
    split; [apply NoDup_nil|]. split; [apply NoDup_nil|].
    split; [intros x []|intros x [[]|[]]].
  - intros x Hx. rewrite H1 in Hx. contradiction.
Qed.

(** ** Runs from a new cache *)

Lemma after_cleanup_le max : 0 <= max -> max * 8 / 10 <= max.
Proof. intros H. apply Z.div_le_upper_bound; lia. Qed.

Lemma init_wf hm cm : 0 <= hm -> 0 <= cm -> wf (CTagsCache_init hm cm).
Proof.
  intros Hh Hc.
  assert (Hok : forall m, 0 <= m -> lru_ok (LRUSizeCache_init m)).
  { intros m Hm. split; [apply NoDup_nil|]. split; [reflexivity|].
    split; [apply Forall_nil | apply after_cleanup_le; exact Hm]. }
  unfold wf, mid, CTagsCache_init. simpl.
  split; [|split; [exact Hh|repeat split]].
  split; [apply Hok; exact Hh|]. split; [apply Hok; exact Hc|].
  split; [exact Hc|]. split; [|split; [intros x []|reflexivity]].
  unfold files_ok, owns. simpl.
  split; [apply NoDup_nil|]. split; [apply NoDup_nil|].
  split; [intros x []|intros x [[]|[]]].
Qed.

Lemma run_op_wf E o s s' : wf s -> run_op E o s = (Ok tt, s') -> wf s'.
Proof.
  intros Hwf Hrun. destruct o as [r k|]; simpl in Hrun.
  - pose proof (get_tagsfile_wf E r k s Hwf) as H. unfold bind in Hrun.
    destruct (get_tagsfile E r k s) as [[p|e] s1]; [|discriminate].
    injection Hrun as <-. exact H.
  - destruct (clear_wf E s Hwf) as (s1 & Hrun1 & H & _).
    rewrite Hrun1 in Hrun. injection Hrun as <-. exact H.
Qed.

Lemma run_ops_wf E ops : forall s s',
  wf s -> run_ops E ops s = (Ok tt, s') -> wf s'.
Proof.
  induction ops as [|o ops IH]; intros s s' Hwf Hrun; simpl in Hrun.
  - injection Hrun as <-. exact Hwf.
  - unfold bind in Hrun. destruct (run_op E o s) as [[[]|e] s1] eqn:H1;
      [|discriminate].
    eapply IH; [|exact Hrun]. eapply run_op_wf; eassumption.
Qed.

Lemma run_eq {A} (m : M A) s a :
  fst (m s) = Ok a -> m s = (Ok a, snd (m s)).
Proof. destruct (m s); simpl; intros ->; reflexivity. Qed.

Lemma exec_ops_disjoint E ops : forall s,
  disjoint_sectors s -> disjoint_sectors (exec_ops E ops s).
Proof.
  induction ops as [|o ops IH]; intros s Hd; simpl; [exact Hd|].
  apply IH, run_op_disjoint, Hd.
Qed.

(** * The claims *)

(** The environment of the examples: gzip stores, ctags writes [n] bytes
    whatever the repository and revision. *)
Definition store_env (n : nat) : env :=
  mkEnv (fun _ _ => Some (repeat x00 n)) (fun _ b => Some b)
    (fun b => Some b).

Definition rev_a : string := "aaaaaaaaaaaaaaaaaaaaaaaaaaaaaaaaaaaaaaaa".
Definition rev_b : string := "bbbbbbbbbbbbbbbbbbbbbbbbbbbbbbbbbbbbbbbb".
Definition repo : string := "/srv/git/klaus".



(** C3: after any sequence of [get_tagsfile] and [clear] calls on a new
    cache, whether they return or raise, no key is in both sectors. *)
Theorem sectors_disjoint E hm cm ops k :
  let s := exec_ops E ops (CTagsCache_init hm cm) in
  mem (uncompressed_cache s) k && mem (compressed_cache s) k = false.
Proof.
  intros s.
  assert (Hd : disjoint_sectors s).
  { apply exec_ops_disjoint. intros x []. }
  destruct (mem (uncompressed_cache s) k) eqn:Hh; [|reflexivity].
  destruct (mem (compressed_cache s) k) eqn:Hc; [|reflexivity].
  apply mem_In in Hh, Hc. destruct (Hd k Hh Hc).
Qed.

Lemma unlocked_trace {A} (x : result A * state) :
  trace (snd (unlocked x)) = trace (snd x) ++ [LockRelease].
Proof. reflexivity. Qed.


(** The cache of the spec's scenario: capacity 10 (and 100 for the
    compressed sector), after [get_tagsfile] for A and then for B. *)
Definition after_a_b (E : env) : state :=
  snd (run_ops E [Get repo rev_a; Get repo rev_b] (CTagsCache_init 10 100)).

Definition after_a (E : env) : state :=
  snd (run_ops E [Get repo rev_a] (CTagsCache_init 10 100)).





(** ** Invalid keys *)

Definition is_hex (c : ascii) : bool :=
  let n := nat_of_ascii c in
  ((48 <=? n) && (n <=? 57) || (97 <=? n) && (n <=? 102)
   || (65 <=? n) && (n <=? 70))%nat.

Fixpoint all_hex (s : string) : bool :=
  match s with
  | EmptyString => true
  | String c s' => is_hex c && all_hex s'
  end.

(** The spec's fully-resolved content identifier: 40 hexadecimal
    characters. *)
Definition full_sha (git_rev : string) : bool :=
  Nat.eqb (String.length git_rev) 40 && all_hex git_rev.

Definition rev_z : string := "zzzzzzzzzzzzzzzzzzzzzzzzzzzzzzzzzzzzzzzz".

(** C5, as amended: a revision whose length is not 40 makes [get_tagsfile]
    fail on its assertion with the state untouched: the lock is not taken,
    nothing is logged, no collaborator is called. *)
Theorem get_tagsfile_invalid_key E r k s :
  String.length k <> 40%nat ->
  get_tagsfile E r k s = (Err AssertionError, s).
Proof.
  intros Hlen. unfold get_tagsfile, bind at 1.
  apply Nat.eqb_neq in Hlen. rewrite Hlen. reflexivity.
Qed.

Lemma get_tagsfile_invalid_key_witness :
  get_tagsfile (store_env 6) repo "deadbeef" (CTagsCache_init 10 100) =
  (Err AssertionError, CTagsCache_init 10 100).
Proof.
  apply (get_tagsfile_invalid_key (store_env 6) repo "deadbeef"
           (CTagsCache_init 10 100)).
  simpl. discriminate.
Defined.

(** C5 as stated fails: forty characters that are not hexadecimal digits are
    not a full SHA, yet the call passes the assertion, takes the lock, calls
    [create_tagsfile] and returns. *)
Lemma get_tagsfile_invalid_key_counterexample :
  full_sha rev_z = false /\
  exists p s',
    get_tagsfile (store_env 6) repo rev_z (CTagsCache_init 10 100) =
      (Ok p, s') /\
    trace s' = [LockAcquire; CreateTagsfile repo rev_z; LockRelease].
Proof.
  split; [vm_compute; reflexivity|].
  exists 0%nat,
    (snd (get_tagsfile (store_env 6) repo rev_z (CTagsCache_init 10 100))).
  split; [apply run_eq; vm_compute; reflexivity | vm_compute; reflexivity].
Qed.

(** ** Failing creation *)

Lemma bind_assoc {A B C} (m : M A) (k1 : A -> M B) (k2 : B -> M C) s :
  bind (bind m k1) k2 s = bind m (fun x => bind (k1 x) k2) s.
Proof. unfold bind. destruct (m s) as [[a|e] s']; reflexivity. Qed.

Lemma trace_after_log {A} e (m : M A) s :
  framed m ->
  exists tr, trace (snd ((modify (log e) ;; m) s)) = trace s ++ e :: tr.
Proof.
  intros Hm. unfold bind, modify.
  pose proof (Hm (log e s)) as [(_ & _ & _ & _ & _ & _ & _ & [tr Ht] & _) _].
  exists tr. rewrite Ht. simpl. rewrite <- app_assoc. reflexivity.
Qed.

Lemma framed_insert E k p :
  framed (add Uncompressed (_clear_uncompressed_entry E) k p ;; ret p).
Proof.
  apply framed_bind; [|intros _; apply framed_ret].
  apply framed_add, framed_clear_uncompressed_entry.
Qed.

Lemma run_trace {A} (m : M A) s :
  framed m -> exists tr, trace (snd (m s)) = trace s ++ tr.
Proof.
  intros Hm. destruct (Hm s) as [(_ & _ & _ & _ & _ & _ & _ & Ht & _) _].
  exact Ht.
Qed.

(** C6: when the key is in neither sector and [create_tagsfile] fails,
    [get_tagsfile] raises the failure after one call of the collaborator,
    both sectors and the files are as before and the lock is free again;
    the next [get_tagsfile] for the key, whatever the collaborator does
    then, starts by calling [create_tagsfile] again. *)
Theorem get_tagsfile_creation_failure E r k s :
  String.length k = 40%nat -> lock s = false ->
  mem (uncompressed_cache s) k = false ->
  mem (compressed_cache s) k = false ->
  ctags E r k = None ->
  exists s',
    get_tagsfile E r k s = (Err CreationFailure, s') /\
    uncompressed_cache s' = uncompressed_cache s /\
    compressed_cache s' = compressed_cache s /\
    disk s' = disk s /\ next_tmp s' = next_tmp s /\
    clearing s' = clearing s /\ lock s' = false /\
    trace s' = trace s ++ [LockAcquire; CreateTagsfile r k; LockRelease] /\
    forall E', exists tr,
      trace (snd (get_tagsfile E' r k s')) =
      trace s' ++ LockAcquire :: CreateTagsfile r k :: tr.
Proof.
  intros Hlen Hl Hh Hc Hfail.
  rewrite (get_tagsfile_fetch E r k s Hlen Hl Hh). rewrite Hc.
  unfold fetch, create_tagsfile, unlocked, bind; simpl. rewrite Hfail. simpl.
  eexists. split; [reflexivity|]. simpl.
  repeat (split; [reflexivity|]).
  split; [rewrite <- !app_assoc; reflexivity|].
  intros E'.
  match goal with |- context [get_tagsfile E' r k ?s1] => set (s' := s1) end.
  rewrite (get_tagsfile_fetch E' r k s' Hlen eq_refl Hh).
  change (mem (compressed_cache s') k) with (mem (compressed_cache s) k).
  rewrite Hc. rewrite unlocked_trace.
  set (s0 := set_lock true (log LockAcquire s')).
  unfold fetch, create_tagsfile. rewrite bind_assoc.
  match goal with |- context [bind (modify (log ?e)) (fun _ => ?m) s0] =>
    destruct (trace_after_log e m s0) as [tr Htr]
  end.
  { apply framed_bind; [|intros p; apply framed_insert].
    intros x. unfold wp, bind; simpl.
    destruct (ctags E' r k); simpl; frame_now.
    intros q Hq. left. rewrite !upd_other by lia. reflexivity. }
  rewrite Htr. exists (tr ++ [LockRelease]). simpl.
  rewrite <- !app_assoc. reflexivity.
Qed.

(** An environment in which ctags always fails. *)
Definition failing_env : env :=
  mkEnv (fun _ _ => None) (fun _ b => Some b) (fun b => Some b).

Lemma get_tagsfile_creation_failure_witness :
  exists s',
    get_tagsfile failing_env repo rev_a (CTagsCache_init 10 100) =
      (Err CreationFailure, s') /\
    uncompressed_cache s' = uncompressed_cache (CTagsCache_init 10 100) /\
    compressed_cache s' = compressed_cache (CTagsCache_init 10 100) /\
    trace s' = [LockAcquire; CreateTagsfile repo rev_a; LockRelease] /\
    exists tr,
      trace (snd (get_tagsfile (store_env 6) repo rev_a s')) =
      trace s' ++ LockAcquire :: CreateTagsfile repo rev_a :: tr.
Proof.
  destruct (get_tagsfile_creation_failure failing_env repo rev_a
              (CTagsCache_init 10 100))
    as (s' & H1 & H2 & H3 & _ & _ & _ & _ & H4 & H5);
    try reflexivity.
  exists s'. split; [exact H1|]. split; [exact H2|]. split; [exact H3|].
  split; [exact H4 | exact (H5 (store_env 6))].
Defined.

(** ** Entries that are too big *)




(** C10: there is a cache miss on which [get_tagsfile] returns the path of a
    file that no longer exists: the 12-byte tagsfile does not fit a sector of
    capacity 10, so during its own insertion the eviction callback
    compresses it into the compressed sector and deletes it, and the path is
    returned all the same. *)
Theorem get_tagsfile_returns_deleted_file :
  exists E r k s p s',
    mem (uncompressed_cache s) k = false /\
    mem (compressed_cache s) k = false /\
    get_tagsfile E r k s = (Ok p, s') /\
    trace s' = trace s ++ [LockAcquire; CreateTagsfile r k;
                           ClearUncompressedEntry k p; CompressTagsfile p;
                           DeleteTagsfile p; LockRelease] /\
    disk s' p = None /\
    mem (uncompressed_cache s') k = false /\
    mem (compressed_cache s') k = true.
Proof.
  exists (store_env 12), repo, rev_a, (CTagsCache_init 10 100), 0%nat,
    (snd (get_tagsfile (store_env 12) repo rev_a (CTagsCache_init 10 100))).
  split; [reflexivity|]. split; [reflexivity|].
  split; [apply run_eq; vm_compute; reflexivity|].
  repeat split; vm_compute; reflexivity.
Qed.

(** ** Promotion and the compressed sector's callback *)




(** ** Failing codec *)







(** ** The lock *)

Lemma framed_fetch E r k cold : framed (fetch E r k cold).
Proof.
  unfold fetch. apply framed_if; [|apply framed_create_tagsfile].
  apply framed_bind; [apply framed_getitem | intros z].
  apply framed_bind; [apply framed_uncompress_tagsfile | intros u].
  apply framed_bind; [apply framed_cache_lookup | intros node].
  apply framed_bind; [|intros _; apply framed_ret].
  apply framed_remove_node. apply framed_clear_compressed_entry.
Qed.

(** X6: [get_tagsfile] with a well-formed key takes the lock first and
    releases it last, whether it returns or raises. *)
Lemma get_tagsfile_holds_lock E r k s :
  String.length k = 40%nat -> lock s = false ->
  let s' := snd (get_tagsfile E r k s) in
  lock s' = false /\
  exists tr, trace s' = trace s ++ LockAcquire :: tr ++ [LockRelease].
Proof.
  intros Hlen Hl s'. subst s'.
  set (s0 := set_lock true (log LockAcquire s)).
  assert (H : forall (m : M path), framed m ->
            lock (snd (unlocked (m s0))) = false /\
            exists tr, trace (snd (unlocked (m s0))) =
                       trace s ++ LockAcquire :: tr ++ [LockRelease]).
  { intros m Hm. split; [reflexivity|].
    destruct (run_trace m s0 Hm) as [tr Htr]. exists tr.
    rewrite unlocked_trace, Htr. simpl. rewrite <- !app_assoc. reflexivity. }
  destruct (mem (uncompressed_cache s) k) eqn:Hhot.
  - rewrite (get_tagsfile_hit E r k s Hlen Hl Hhot).
    apply H, framed_getitem.
  - rewrite (get_tagsfile_fetch E r k s Hlen Hl Hhot).
    apply H. apply framed_bind; [apply framed_fetch | intros p].
    apply framed_insert.
Qed.

(** C4 fails for [clear]: on a cache holding one uncompressed entry,
    [clear] empties the sector and deletes the file, and the calls it makes
    do not include taking or releasing the lock. *)
Theorem clear_takes_no_lock :
  let E := store_env 6 in
  let s := after_a E in
  let s' := snd (clear E s) in
  nodes (uncompressed_cache s) = [mkNode rev_a 0%nat 6] /\
  lock s = false /\
  fst (clear E s) = Ok tt /\
  nodes (uncompressed_cache s') = [] /\
  disk s' 0%nat = None /\
  trace s' = trace s ++ [ClearUncompressedEntry rev_a 0%nat;
                         DeleteTagsfile 0%nat] /\
  lock s' = false.
Proof. repeat split; vm_compute; reflexivity. Qed.

(** * Further properties of the cache *)

(** ** Hits *)



(** ** Misses *)

Lemma cache_get_last c l n :
  nodes c = l ++ [n] -> NoDup (keys c) -> cache_get c (key n) = Some n.
Proof.
  unfold cache_get, keys. intros ->. induction l as [|m l IH]; simpl.
  - intros _. rewrite String.eqb_refl. reflexivity.
  - intros Hnd. inversion Hnd as [|? ? Hnotin Hnd']; subst.
    destruct (String.eqb (key m) (key n)) eqn:Heq; [|exact (IH Hnd')].
    apply String.eqb_eq in Heq. exfalso. apply Hnotin. rewrite Heq.
    rewrite map_app. apply in_or_app. right. left. reflexivity.
Qed.






(** ** Clearing *)











(** ** The lock, on a raising call *)

Lemma get_tagsfile_holds_lock_witness :
  lock (snd (get_tagsfile failing_env repo rev_a (CTagsCache_init 10 100)))
    = false /\
  exists tr,
    trace (snd (get_tagsfile failing_env repo rev_a (CTagsCache_init 10 100)))
    = trace (CTagsCache_init 10 100) ++ LockAcquire :: tr ++ [LockRelease].
Proof.
  apply (get_tagsfile_holds_lock failing_env repo rev_a
           (CTagsCache_init 10 100)); reflexivity.
Defined.

(** ** The codec functions *)

(** X10: [compress_tagsfile] and then [uncompress_tagsfile] on its result give
    back the content, each in a new temporary file: with a codec that
    round-trips on [b], the input file, the compressed file and the
    uncompressed copy all exist afterwards (neither function deletes its
    input), no older file is touched and the sectors are not involved. *)
Theorem compress_then_uncompress E p s b z :
  gzip_write E COMPRESSION_LEVEL b = Some z -> gzip_read E z = Some b ->
  disk s p = Some b -> (p < next_tmp s)%nat ->
  exists s1 s2,
    compress_tagsfile E p s = (Ok (next_tmp s), s1) /\
    uncompress_tagsfile E (next_tmp s) s1 = (Ok (S (next_tmp s)), s2) /\
    disk s2 p = Some b /\ disk s2 (next_tmp s) = Some z /\
    disk s2 (S (next_tmp s)) = Some b /\
    (forall q, (q < next_tmp s)%nat -> disk s2 q = disk s q) /\
    next_tmp s2 = S (S (next_tmp s)) /\
    trace s2 = trace s ++ [CompressTagsfile p;
                           UncompressTagsfile (next_tmp s)] /\
    same_sectors s s2.
Proof.
  intros Hw Hr Hp Hlt.
  pose proof (compress_tagsfile_run E p s b Hp ltac:(lia)) as H1.
  rewrite Hw in H1.
  destruct H1 as (s1 & Hrun1 & [Hs1 Hs1'] & _ & Hn1 & Hd1 & Hd1' & Ht1).
  pose proof (uncompress_tagsfile_run E (next_tmp s) s1 z Hd1
                ltac:(lia)) as H2.
  rewrite Hr in H2. rewrite Hn1 in H2.
  eexists. eexists. split; [exact Hrun1|]. split; [exact H2|]. simpl.
  split; [|split; [|split; [|split; [|split; [|split]]]]].
  - rewrite !upd_other by lia. rewrite Hd1' by lia. exact Hp.
  - rewrite !upd_other by lia. exact Hd1.
  - apply upd_same.
  - intros q Hq. rewrite !upd_other by lia. apply Hd1'. lia.
  - reflexivity.
  - rewrite Ht1, <- app_assoc. reflexivity.
  - split; assumption.
Qed.

Lemma compress_then_uncompress_witness :
  exists s1 s2,
    compress_tagsfile (store_env 6) 0%nat (after_a (store_env 6)) =
      (Ok 1%nat, s1) /\
    uncompress_tagsfile (store_env 6) 1%nat s1 = (Ok 2%nat, s2) /\
    disk s2 0%nat = Some (repeat x00 6) /\
    disk s2 1%nat = Some (repeat x00 6) /\
    disk s2 2%nat = Some (repeat x00 6).
Proof.
  destruct (compress_then_uncompress (store_env 6) 0%nat
              (after_a (store_env 6)) (repeat x00 6) (repeat x00 6))
    as (s1 & s2 & H1 & H2 & H3 & H4 & H5 & _);
    [reflexivity | reflexivity | reflexivity | vm_compute; lia |].
  exists s1, s2. repeat split; assumption.
Defined.

(** X11: On an input file that does not exist both codec functions raise
    [IOError] after [mkstemp]: the new, empty temporary file stays behind
    and nothing else changes on disk. *)
Theorem codec_missing_input E p s :
  disk s p = None -> p <> next_tmp s ->
  exists s1 s2,
    compress_tagsfile E p s = (Err IOError, s1) /\
    uncompress_tagsfile E p s = (Err IOError, s2) /\
    disk s1 (next_tmp s) = Some [] /\ disk s2 (next_tmp s) = Some [] /\
    (forall q, q <> next_tmp s -> disk s1 q = disk s q /\
                                  disk s2 q = disk s q) /\
    next_tmp s1 = S (next_tmp s) /\ next_tmp s2 = S (next_tmp s).
Proof.
  intros Hp Hne.
  unfold compress_tagsfile, uncompress_tagsfile, bind, read_file; simpl.
  rewrite upd_other by exact Hne. rewrite Hp.
  eexists. eexists. split; [reflexivity|]. split; [reflexivity|]. simpl.
  split; [apply upd_same|]. split; [apply upd_same|].
  split; [|split; reflexivity].
  intros q Hq. rewrite upd_other by exact Hq. split; reflexivity.
Qed.

Lemma codec_missing_input_witness :
  exists s1 s2,
    compress_tagsfile (store_env 6) 7%nat (after_a (store_env 6)) =
      (Err IOError, s1) /\
    uncompress_tagsfile (store_env 6) 7%nat (after_a (store_env 6)) =
      (Err IOError, s2) /\
    disk s1 1%nat = Some [] /\ disk s2 1%nat = Some [].
Proof.
  destruct (codec_missing_input (store_env 6) 7%nat (after_a (store_env 6)))
    as (s1 & s2 & H1 & H2 & H3 & H4 & _);
    [reflexivity | vm_compute; lia |].
  exists s1, s2. repeat split; assumption.
Defined.

(** ** What a run never does *)

Lemma run_op_frame0 E o s : frame0 s (snd (run_op E o s)).
Proof.
  destruct o as [r k|]; simpl.
  - assert (H : framed (get_tagsfile E r k ;; ret tt)).
    { apply framed_bind; [apply framed_get_tagsfile|].
      intros _. apply framed_ret. }
    exact (proj1 (H s)).
  - exact (clear_frame0 E s).
Qed.

Lemma exec_ops_frame0 E ops : forall s, frame0 s (exec_ops E ops s).
Proof.
  induction ops as [|o ops IH]; intros s; simpl; [apply frame0_refl|].
  exact (frame0_trans _ _ _ (run_op_frame0 E o s) (IH _)).
Qed.

(** X12: Whatever calls are made, returning or raising: the capacities stay as
    given to the constructor, the calls made before stay a prefix of the
    calls made, temporary names are never handed out twice, and a file that
    existed is never rewritten (it keeps its content or is deleted) nor a
    deleted one brought back. *)
Theorem operations_never_rewrite_files E ops s :
  let s' := exec_ops E ops s in
  uncompressed_max_bytes s' = uncompressed_max_bytes s /\
  compressed_max_bytes s' = compressed_max_bytes s /\
  max_size (uncompressed_cache s') = max_size (uncompressed_cache s) /\
  max_size (compressed_cache s') = max_size (compressed_cache s) /\
  (next_tmp s <= next_tmp s')%nat /\
  (exists tr, trace s' = trace s ++ tr) /\
  (forall p, (p < next_tmp s)%nat ->
     disk s' p = disk s p \/ disk s' p = None).
Proof.
  intros s'.
  destruct (exec_ops_frame0 E ops s)
    as (H1 & H2 & H3 & _ & H5 & _ & H7 & H8 & H9).
  repeat split; assumption.
Qed.

(** ** Recorded sizes *)

Definition all_nodes (s : state) : list LRUNode :=
  nodes (uncompressed_cache s) ++ nodes (compressed_cache s).

(** The node's file was made by an earlier [mkstemp], and the size recorded
    for the node is the size of the file for as long as the file exists. *)
Definition sized_node (s : state) (n : LRUNode) : Prop :=
  (value n < next_tmp s)%nat /\
  forall b, disk s (value n) = Some b -> size n = Z.of_nat (List.length b).

Definition sized (s : state) : Prop :=
  forall n, In n (all_nodes s) -> sized_node s n.

Lemma sized_node_frame s s' n :
  frame0 s s' -> sized_node s n -> sized_node s' n.
Proof.
  intros (_ & _ & _ & _ & _ & _ & F7 & _ & F9) [H1 H2]. split; [lia|].
  intros b Hb. destruct (F9 _ H1) as [H|H]; rewrite H in Hb;
    [auto | discriminate].
Qed.

Lemma sized_incl s s' :
  frame0 s s' -> incl (all_nodes s') (all_nodes s) -> sized s -> sized s'.
Proof.
  intros F Hi Hs n Hn. eapply sized_node_frame; [exact F|].
  apply Hs, Hi, Hn.
Qed.

Lemma wp_conj {A} (m : M A) s (Q1 Q2 : result A -> state -> Prop) :
  wp m s Q1 -> wp m s Q2 -> wp m s (fun r s' => Q1 r s' /\ Q2 r s').
Proof. unfold wp. auto. Qed.

Lemma wp_framed {A} (m : M A) s : framed m -> wp m s (fun _ s' => frame0 s s').
Proof. intros H. exact (proj1 (H s)). Qed.

(** The compressed sector's own methods only drop nodes. *)
Definition cold_sub (s s' : state) : Prop :=
  uncompressed_cache s' = uncompressed_cache s /\
  incl (nodes (compressed_cache s')) (nodes (compressed_cache s)).

Lemma cold_sub_refl s : cold_sub s s.
Proof. split; [reflexivity | apply incl_refl]. Qed.

Lemma cold_sub_trans s1 s2 s3 : cold_sub s1 s2 -> cold_sub s2 s3 -> cold_sub s1 s3.
Proof.
  intros [H1 H2] [H3 H4]. split; [congruence|].
  intros n Hn. apply H2, H4, Hn.
Qed.

Lemma cold_sub_all s s' : cold_sub s s' -> incl (all_nodes s') (all_nodes s).
Proof.
  intros [H1 H2] n Hn. unfold all_nodes in *. rewrite H1 in Hn.
  apply in_app_or in Hn. apply in_or_app. destruct Hn; auto.
Qed.

Lemma cold_cb_sub k p s :
  wp (_clear_compressed_entry k p) s (fun _ s' => cold_sub s s').
Proof. unfold wp; simpl. split; [reflexivity | apply incl_refl]. Qed.

Lemma cold_remove_node_sub n s :
  wp (_remove_node Compressed _clear_compressed_entry n) s
    (fun _ s' => cold_sub s s').
Proof.
  unfold wp; simpl. split; [reflexivity|].
  intros m Hm. apply unlink_In in Hm. tauto.
Qed.

Lemma cold_remove_lru_sub s :
  wp (_remove_lru Compressed _clear_compressed_entry) s
    (fun _ s' => cold_sub s s').
Proof.
  apply wp_remove_lru. destruct (nodes _) as [|n l].
  - apply cold_sub_refl.
  - apply cold_remove_node_sub.
Qed.

Lemma cold_cleanup_loop_sub fuel : forall s,
  wp (cleanup_loop Compressed _clear_compressed_entry fuel) s
    (fun _ s' => cold_sub s s').
Proof.
  induction fuel as [|fuel IH]; intros s; apply wp_cleanup_loop;
    destruct (_ >? _); try apply cold_sub_refl.
  apply wp_bind. eapply wp_mono; [apply cold_remove_lru_sub|].
  intros [[]|e] s1 H1; [|exact H1].
  eapply wp_mono; [apply IH|]. intros r s2 H2.
  eapply cold_sub_trans; eassumption.
Qed.

Lemma cold_clear_loop_sub fuel : forall s,
  wp (clear_loop Compressed _clear_compressed_entry fuel) s
    (fun _ s' => cold_sub s s').
Proof.
  induction fuel as [|fuel IH]; intros s; apply wp_clear_loop;
    destruct (nodes _); try apply cold_sub_refl.
  apply wp_bind. eapply wp_mono; [apply cold_remove_lru_sub|].
  intros [[]|e] s1 H1; [|exact H1].
  eapply wp_mono; [apply IH|]. intros r s2 H2.
  eapply cold_sub_trans; eassumption.
Qed.

(** Adding a key the compressed sector does not hold: the only node that
    can be new is the one around [q], with the size of [q]. *)
Lemma cold_add_nodes k q s :
  cache_get (compressed_cache s) k = None ->
  wp (add Compressed _clear_compressed_entry k q) s (fun _ s' =>
    uncompressed_cache s' = uncompressed_cache s /\
    forall n, In n (nodes (compressed_cache s')) ->
      In n (nodes (compressed_cache s)) \/
      (key n = k /\ value n = q /\
       forall b, disk s q = Some b -> size n = Z.of_nat (List.length b))).
Proof.
  intros Hg. unfold add. apply wp_bind, wp_gets. cbn [sector_of].
  rewrite Hg.
  apply wp_bind, wp_getsize; [intros b Hb | intros _; auto].
  apply wp_bind, wp_gets. destruct (_ >=? _).
  - apply wp_bind, wp_ret.
    eapply wp_mono; [apply cold_cb_sub|]. intros r s2 [H1 H2]. auto.
  - apply wp_bind, wp_modify. apply wp_bind, wp_gets.
    match goal with |- wp _ ?s1 _ => set (s1' := s1) end.
    assert (H1 : forall n, In n (nodes (compressed_cache s1')) ->
              In n (nodes (compressed_cache s)) \/
              (key n = k /\ value n = q /\
               forall b', disk s q = Some b' ->
                          size n = Z.of_nat (List.length b'))).
    { simpl. unfold record_access. intros n Hn. apply in_app_or in Hn.
      destruct Hn as [Hn|[<-|[]]].
      - left. apply unlink_In in Hn. tauto.
      - right. simpl. split; [reflexivity|]. split; [reflexivity|].
        intros b' Hb'. congruence. }
    destruct (_ >? _).
    + eapply wp_mono; [apply wp_cleanup, cold_cleanup_loop_sub|].
      intros r s2 [H2 H3]. split; [exact H2|]. intros n Hn.
      apply H1, H3, Hn.
    + apply wp_ret. split; [reflexivity | exact H1].
Qed.

Lemma cold_add_sized k q s :
  sized s -> cache_get (compressed_cache s) k = None ->
  (q < next_tmp s)%nat ->
  wp (add Compressed _clear_compressed_entry k q) s (fun _ s' =>
    sized s' /\ uncompressed_cache s' = uncompressed_cache s).
Proof.
  intros Hs Hg Hq.
  eapply wp_mono.
  - apply wp_conj; [apply (cold_add_nodes k q s Hg)|].
    apply wp_framed, framed_add, framed_clear_compressed_entry.
  - intros r s' [[H1 H2] F]. split; [|exact H1].
    intros n Hn. unfold all_nodes in Hn. rewrite H1 in Hn.
    apply in_app_or in Hn. destruct Hn as [Hn|Hn].
    + apply (sized_node_frame s s' n F), Hs, in_or_app. auto.
    + destruct (H2 n Hn) as [Ho|(_ & Hv & Hsz)].
      * apply (sized_node_frame s s' n F), Hs, in_or_app. auto.
      * apply (sized_node_frame s s' n F). split; [rewrite Hv; exact Hq|].
        rewrite Hv. exact Hsz.
Qed.

Lemma compress_tagsfile_sized E p s :
  sized s ->
  wp (compress_tagsfile E p) s (fun r s' =>
    sized s' /\ same_sectors s s' /\
    match r with Ok z => (z < next_tmp s')%nat | Err _ => True end).
Proof.
  intros Hs. eapply wp_mono.
  - apply wp_conj; [apply wp_conj|].
    + apply wp_framed, framed_compress_tagsfile.
    + apply compress_tagsfile_sectors.
    + instantiate (1 := fun r s' =>
        match r with Ok z => (z < next_tmp s')%nat | Err _ => True end).
      unfold wp, compress_tagsfile, bind, read_file; simpl.
      destruct (upd _ _ _ _); simpl; [|exact I].
      destruct (gzip_write _ _ _); simpl; [lia | exact I].
  - intros r s' [[F [H1 H2]] H3]. split; [|split; [split; assumption|exact H3]].
    apply (sized_incl s s' F); [|exact Hs].
    unfold all_nodes. rewrite H1, H2. apply incl_refl.
Qed.

Lemma uncompress_tagsfile_sized E p s :
  sized s ->
  wp (uncompress_tagsfile E p) s (fun r s' =>
    sized s' /\ same_sectors s s' /\
    match r with Ok z => (z < next_tmp s')%nat | Err _ => True end).
Proof.
  intros Hs. eapply wp_mono.
  - apply wp_conj; [apply wp_conj|].
    + apply wp_framed, framed_uncompress_tagsfile.
    + apply uncompress_tagsfile_sectors.
    + instantiate (1 := fun r s' =>
        match r with Ok z => (z < next_tmp s')%nat | Err _ => True end).
      unfold wp, uncompress_tagsfile, bind, read_file; simpl.
      destruct (upd _ _ _ _); simpl; [|exact I].
      destruct (gzip_read _ _); simpl; [lia | exact I].
  - intros r s' [[F [H1 H2]] H3]. split; [|split; [split; assumption|exact H3]].
    apply (sized_incl s s' F); [|exact Hs].
    unfold all_nodes. rewrite H1, H2. apply incl_refl.
Qed.

Lemma create_tagsfile_sized E r k s :
  sized s ->
  wp (create_tagsfile E r k) s (fun res s' =>
    sized s' /\ same_sectors s s' /\
    match res with Ok z => (z < next_tmp s')%nat | Err _ => True end).
Proof.
  intros Hs. eapply wp_mono.
  - apply wp_conj; [apply wp_conj|].
    + apply wp_framed, framed_create_tagsfile.
    + apply create_tagsfile_sectors.
    + instantiate (1 := fun r s' =>
        match r with Ok z => (z < next_tmp s')%nat | Err _ => True end).
      unfold wp, create_tagsfile, bind; simpl.
      destruct (ctags _ _ _); simpl; [lia | exact I].
  - intros res s' [[F [H1 H2]] H3].
    split; [|split; [split; assumption|exact H3]].
    apply (sized_incl s s' F); [|exact Hs].
    unfold all_nodes. rewrite H1, H2. apply incl_refl.
Qed.

Lemma hot_cb_sized E k p s :
  sized s -> ~ In k (keys (compressed_cache s)) ->
  wp (_clear_uncompressed_entry E k p) s (fun _ s' =>
    sized s' /\ uncompressed_cache s' = uncompressed_cache s).
Proof.
  intros Hs Hk. unfold _clear_uncompressed_entry.
  apply wp_bind, wp_modify. apply wp_bind, wp_gets. apply wp_bind.
  match goal with |- wp _ ?s1 _ => set (s0 := s1) end.
  assert (Hs0 : sized s0) by exact Hs.
  assert (Hmid : wp (if negb (clearing s0)
                     then z <- compress_tagsfile E p ;;
                          add Compressed _clear_compressed_entry k z
                     else ret tt) s0
                   (fun _ s' => sized s' /\
                      uncompressed_cache s' = uncompressed_cache s)).
  { destruct (negb _); [|apply wp_ret; split; [exact Hs0 | reflexivity]].
    apply wp_bind.
    eapply wp_mono; [apply compress_tagsfile_sized, Hs0|].
    intros [z|e] s1 (Hs1 & [H1 H2] & Hz).
    - eapply wp_mono; [apply (cold_add_sized k z s1 Hs1); [|exact Hz]|].
      + rewrite H2. apply cache_get_None. exact Hk.
      + intros r s2 [Hs2 H3]. split; [exact Hs2|]. rewrite H3. exact H1.
    - split; [exact Hs1 | exact H1]. }
  eapply wp_mono; [exact Hmid|]. intros [[]|e] s1 [Hs1 H1];
    [|split; assumption].
  pose proof (wp_framed _ s1 (framed_delete_tagsfile p)) as F.
  unfold wp in F |- *. simpl in F |- *. split; [|exact H1].
  apply (sized_incl s1 _ F); [apply incl_refl | exact Hs1].
Qed.

Lemma hot_remove_node_sized E n s :
  sized s -> ~ In (key n) (keys (compressed_cache s)) ->
  wp (_remove_node Uncompressed (_clear_uncompressed_entry E) n) s
    (fun _ s' => sized s').
Proof.
  intros Hs Hk. unfold _remove_node. apply wp_bind, wp_modify.
  eapply wp_mono; [apply hot_cb_sized|].
  - intros m Hm. apply Hs. unfold all_nodes in *. simpl in Hm.
    apply in_app_or in Hm. apply in_or_app. destruct Hm as [Hm|Hm]; auto.
    apply unlink_In in Hm. tauto.
  - exact Hk.
  - intros r s' [H _]. exact H.
Qed.

Lemma hot_remove_lru_sized E s :
  sized s -> disjoint_sectors s ->
  wp (_remove_lru Uncompressed (_clear_uncompressed_entry E)) s
    (fun _ s' => sized s').
Proof.
  intros Hs Hd. apply wp_remove_lru.
  destruct (nodes (sector_of Uncompressed s)) as [|n l] eqn:Hn;
    [exact Hs|].
  apply hot_remove_node_sized; [exact Hs|].
  intros Hc. apply (Hd (key n)); [|exact Hc].
  unfold keys. cbn [sector_of] in Hn. rewrite Hn. left. reflexivity.
Qed.

Lemma hot_cleanup_loop_sized E fuel : forall s,
  sized s -> disjoint_sectors s ->
  wp (cleanup_loop Uncompressed (_clear_uncompressed_entry E) fuel) s
    (fun _ s' => sized s').
Proof.
  induction fuel as [|fuel IH]; intros s Hs Hd; apply wp_cleanup_loop;
    destruct (_ >? _); try assumption.
  apply wp_bind. eapply wp_mono.
  - apply wp_conj; [apply hot_remove_lru_sized; assumption|].
    apply hot_remove_lru_disjoint. exact Hd.
  - intros [[]|e] s1 [H1 [H2 _]]; [|exact H1]. apply IH; assumption.
Qed.

Lemma hot_clear_loop_sized E fuel : forall s,
  sized s -> disjoint_sectors s ->
  wp (clear_loop Uncompressed (_clear_uncompressed_entry E) fuel) s
    (fun _ s' => sized s').
Proof.
  induction fuel as [|fuel IH]; intros s Hs Hd; apply wp_clear_loop;
    destruct (nodes _); try assumption.
  apply wp_bind. eapply wp_mono.
  - apply wp_conj; [apply hot_remove_lru_sized; assumption|].
    apply hot_remove_lru_disjoint. exact Hd.
  - intros [[]|e] s1 [H1 [H2 _]]; [|exact H1]. apply IH; assumption.
Qed.

Lemma hot_add_sized E k p s :
  sized s -> disjoint_sectors s ->
  cache_get (uncompressed_cache s) k = None ->
  ~ In k (keys (compressed_cache s)) -> (p < next_tmp s)%nat ->
  wp (add Uncompressed (_clear_uncompressed_entry E) k p) s
    (fun _ s' => sized s').
Proof.
  intros Hs Hd Hg Hk Hp. unfold add. apply wp_bind, wp_gets.
  cbn [sector_of]. rewrite Hg.
  apply wp_bind, wp_getsize; [intros b Hb | intros _; exact Hs].
  apply wp_bind, wp_gets. destruct (_ >=? _).
  - apply wp_bind, wp_ret.
    eapply wp_mono; [apply hot_cb_sized; assumption|].
    intros r s2 [H _]. exact H.
  - apply wp_bind, wp_modify. apply wp_bind, wp_gets.
    match goal with |- wp _ ?s1 _ => set (s1' := s1) end.
    assert (H1 : sized s1').
    { intros n Hn. unfold all_nodes in Hn. simpl in Hn.
      unfold record_access in Hn. rewrite <- app_assoc in Hn.
      apply in_app_or in Hn. destruct Hn as [Hn|Hn].
      - apply unlink_In in Hn. apply Hs, in_or_app. tauto.
      - simpl in Hn. destruct Hn as [<-|Hn].
        + split; [exact Hp|]. simpl. intros b' Hb'. congruence.
        + apply Hs, in_or_app. auto. }
    assert (H2 : disjoint_sectors s1').
    { intros x Hh Hc. simpl in Hh, Hc. unfold keys in Hh. simpl in Hh.
      unfold record_access in Hh. rewrite map_app in Hh.
      apply in_app_or in Hh. destruct Hh as [Hh|[Hh|[]]].
      - apply unlink_keys in Hh. exact (Hd x (proj1 Hh) Hc).
      - simpl in Hh. subst x. exact (Hk Hc). }
    destruct (_ >? _); [|apply wp_ret; exact H1].
    apply wp_cleanup, hot_cleanup_loop_sized; assumption.
Qed.

Lemma fetch_sized E r k s :
  sized s -> disjoint_sectors s ->
  wp (fetch E r k (mem (compressed_cache s) k)) s (fun res s' =>
    sized s' /\ disjoint_sectors s' /\
    uncompressed_cache s' = uncompressed_cache s /\
    match res with
    | Ok u => ~ In k (keys (compressed_cache s')) /\ (u < next_tmp s')%nat
    | Err _ => True
    end).
Proof.
  intros Hs Hd. unfold fetch.
  destruct (mem (compressed_cache s) k) eqn:Hc.
  - apply wp_bind, wp_getitem; [intros n Hn | intros _; auto].
    apply cache_get_Some in Hn. destruct Hn as [Hn Hkn].
    cbn [sector_of].
    match goal with |- wp _ ?s1 _ => set (s1' := s1) end.
    assert (Hs1 : sized s1').
    { intros m Hm. apply Hs. unfold all_nodes in *. simpl in Hm.
      apply in_app_or in Hm. apply in_or_app.
      destruct Hm as [Hm|Hm]; [auto|]. right. unfold record_access in Hm.
      apply in_app_or in Hm. destruct Hm as [Hm|[<-|[]]]; [|exact Hn].
      apply unlink_In in Hm. tauto. }
    assert (Hd1 : disjoint_sectors s1').
    { intros x Hx Hcx. simpl in Hx, Hcx. unfold keys in Hcx.
      simpl in Hcx. apply record_access_keys in Hcx; [|assumption].
      exact (Hd x Hx Hcx). }
    assert (Hh1 : uncompressed_cache s1' = uncompressed_cache s)
      by reflexivity.
    apply wp_bind.
    eapply wp_mono; [apply uncompress_tagsfile_sized, Hs1|].
    intros [u|e] s2 (Hs2 & [H2 H3] & Hu).
    2:{ split; [exact Hs2|]. split; [|split; [exact H2 | exact I]].
        intros x. rewrite H2, H3. apply Hd1. }
    assert (Hd2 : disjoint_sectors s2).
    { intros x. rewrite H2, H3. apply Hd1. }
    apply wp_bind, wp_cache_lookup;
      [intros m Hm | intros _; split; [exact Hs2|split; [exact Hd2|]]; auto].
    apply cache_get_Some in Hm. destruct Hm as [Hm Hkm].
    apply wp_bind. eapply wp_mono.
    + apply wp_conj; [apply cold_remove_node_sub|].
      apply wp_conj;
        [apply wp_framed, framed_remove_node, framed_clear_compressed_entry|].
      instantiate (1 := fun _ s' =>
        ~ In k (keys (compressed_cache s')) /\ next_tmp s' = next_tmp s2).
      unfold wp; simpl. split; [|reflexivity]. rewrite Hkm.
      intros Hx. apply unlink_keys in Hx. tauto.
    + intros [[]|e] s3 (Hsub & F & Hk3 & Hn3).
      * apply wp_ret.
        split; [apply (sized_incl s2 s3 F (cold_sub_all _ _ Hsub) Hs2)|].
        split; [|split; [destruct Hsub; congruence|]].
        -- intros x Hx Hcx. destruct Hsub as [Hh3 Hc3]. rewrite Hh3 in Hx.
           apply in_map_iff in Hcx. destruct Hcx as (y & <- & Hy).
           apply (Hd2 (key y) Hx). apply in_map, Hc3, Hy.
        -- split; [exact Hk3 | lia].
      * split; [apply (sized_incl s2 s3 F (cold_sub_all _ _ Hsub) Hs2)|].
        split; [|split; [destruct Hsub; congruence | exact I]].
        intros x Hx Hcx. destruct Hsub as [Hh3 Hc3]. rewrite Hh3 in Hx.
        apply in_map_iff in Hcx. destruct Hcx as (y & <- & Hy).
        apply (Hd2 (key y) Hx). apply in_map, Hc3, Hy.
  - eapply wp_mono; [apply create_tagsfile_sized, Hs|].
    intros res s2 (Hs2 & [H2 H3] & Hu). split; [exact Hs2|].
    split; [intros x; rewrite H2, H3; apply Hd|]. split; [exact H2|].
    destruct res; [|exact I]. split; [|exact Hu]. rewrite H3.
    apply mem_false. exact Hc.
Qed.

Lemma get_tagsfile_sized E r k s :
  sized s -> disjoint_sectors s ->
  wp (get_tagsfile E r k) s (fun _ s' => sized s').
Proof.
  intros Hs Hd.
  destruct (Nat.eqb (String.length k) 40) eqn:Hlen.
  2:{ unfold wp, get_tagsfile, bind. rewrite Hlen. exact Hs. }
  apply Nat.eqb_eq in Hlen.
  destruct (lock s) eqn:Hl.
  { unfold wp, get_tagsfile, bind, with_lock.
    apply Nat.eqb_eq in Hlen. rewrite Hlen. simpl. rewrite Hl. exact Hs. }
  set (s0 := set_lock true (log LockAcquire s)).
  assert (Hs0 : sized s0) by exact Hs.
  assert (Hd0 : disjoint_sectors s0) by exact Hd.
  assert (Hun : forall (m : M path),
            wp m s0 (fun _ s' => sized s') ->
            sized (snd (unlocked (m s0)))).
  { intros m Hm. exact Hm. }
  unfold wp. destruct (mem (uncompressed_cache s) k) eqn:Hhot.
  - rewrite (get_tagsfile_hit E r k s Hlen Hl Hhot). apply Hun.
    apply wp_getitem; [intros n Hn | intros _; exact Hs0].
    apply cache_get_Some in Hn. destruct Hn as [Hn _].
    intros m Hm. apply Hs0. unfold all_nodes in *. simpl in Hm.
    apply in_app_or in Hm. apply in_or_app.
    destruct Hm as [Hm|Hm]; [|auto]. left. unfold record_access in Hm.
    apply in_app_or in Hm. destruct Hm as [Hm|[<-|[]]]; [|exact Hn].
    apply unlink_In in Hm. tauto.
  - rewrite (get_tagsfile_fetch E r k s Hlen Hl Hhot). apply Hun.
    apply wp_bind.
    eapply wp_mono; [apply (fetch_sized E r k s0 Hs0 Hd0)|].
    intros [u|e] s1 (Hs1 & Hd1 & Hh1 & Hres); [|exact Hs1].
    destruct Hres as [Hk1 Hu1]. apply wp_bind.
    eapply wp_mono; [apply hot_add_sized; try assumption|].
    + rewrite Hh1. apply cache_get_None, mem_false. exact Hhot.
    + intros [[]|e] s2 Hs2; exact Hs2.
Qed.

Lemma clear_sized E s :
  sized s -> disjoint_sectors s -> wp (clear E) s (fun _ s' => sized s').
Proof.
  intros Hs Hd. unfold clear. apply wp_bind, wp_modify. apply wp_bind.
  eapply wp_mono; [apply wp_LRU_clear, hot_clear_loop_sized; assumption|].
  intros [[]|e] s1 Hs1; [|exact Hs1]. apply wp_bind.
  eapply wp_mono.
  - apply wp_LRU_clear. apply wp_conj; [apply cold_clear_loop_sub|].
    apply wp_framed, framed_clear_loop, framed_clear_compressed_entry.
  - intros [[]|e] s2 [Hsub F].
    + apply wp_modify.
      exact (sized_incl s1 s2 F (cold_sub_all _ _ Hsub) Hs1).
    + exact (sized_incl s1 s2 F (cold_sub_all _ _ Hsub) Hs1).
Qed.

Lemma run_op_sized E o s :
  sized s -> disjoint_sectors s -> sized (snd (run_op E o s)).
Proof.
  intros Hs Hd. destruct o as [r k|]; simpl.
  - change (wp (get_tagsfile E r k ;; ret tt) s (fun _ s' => sized s')).
    apply wp_bind. eapply wp_mono; [apply get_tagsfile_sized; assumption|].
    intros [p|e] s1 H1; exact H1.
  - apply (clear_sized E s Hs Hd).
Qed.

Lemma exec_ops_sized E ops : forall s,
  sized s -> disjoint_sectors s -> sized (exec_ops E ops s).
Proof.
  induction ops as [|o ops IH]; intros s Hs Hd; simpl; [exact Hs|].
  apply IH; [apply run_op_sized | apply run_op_disjoint]; assumption.
Qed.

(** X13: After any calls on a new cache, returning or raising, the size a sector
    has recorded for an entry is the size of the entry's file, for every
    entry whose file exists: sizes are measured when the entry is added and
    no file is rewritten while an entry refers to it. *)
Theorem recorded_sizes_are_file_sizes E hm cm ops n b :
  let s := exec_ops E ops (CTagsCache_init hm cm) in
  In n (nodes (uncompressed_cache s) ++ nodes (compressed_cache s)) ->
  disk s (value n) = Some b ->
  size n = Z.of_nat (List.length b).
Proof.
  intros s Hn Hb.
  assert (H : sized s).
  { apply exec_ops_sized; [intros m []|intros x []]. }
  exact (proj2 (H n Hn) b Hb).
Qed.

Lemma recorded_sizes_are_file_sizes_witness :
  size (mkNode rev_a 2%nat 6) = Z.of_nat (List.length (repeat x00 6)).
Proof.
  apply (recorded_sizes_are_file_sizes (store_env 6) 10 100
           [Get repo rev_a; Get repo rev_b] (mkNode rev_a 2%nat 6)
           (repeat x00 6)).
  - vm_compute. auto.
  - vm_compute. reflexivity.
Defined.

(** ** Disk usage *)

Definition file_size (s : state) (p : path) : Z :=
  match disk s p with
  | Some b => Z.of_nat (List.length b)
  | None => 0
  end.

(** What the files of a sector's entries take on disk. *)
Definition bytes_on_disk (s : state) (c : LRUSizeCache) : Z :=
  fold_right (fun n acc => file_size s (value n) + acc) 0 (nodes c).

Lemma run_ops_exec E ops : forall s s',
  run_ops E ops s = (Ok tt, s') -> exec_ops E ops s = s'.
Proof.
  induction ops as [|o ops IH]; intros s s' H; cbn [run_ops exec_ops] in *.
  - injection H as <-. reflexivity.
  - unfold bind in H. destruct (run_op E o s) as [[[]|e] s1]; [|discriminate].
    apply IH. exact H.
Qed.

Lemma bytes_on_disk_total s c :
  (forall n, In n (nodes c) -> disk s (value n) <> None /\ sized_node s n) ->
  bytes_on_disk s c = total (nodes c).
Proof.
  unfold bytes_on_disk. induction (nodes c) as [|n l IH]; intros H; simpl;
    [reflexivity|].
  rewrite IH by (intros m Hm; apply H; right; exact Hm).
  destruct (H n (or_introl eq_refl)) as [Hex [_ Hsz]]. unfold file_size.
  destruct (disk s (value n)) as [b|]; [|congruence].
  rewrite (Hsz b eq_refl). reflexivity.
Qed.

(** X14: After calls that all return, on a new cache with capacities that are
    not negative: the entries' files all exist and are pairwise different,
    across both sectors; what a sector accounts for is what its files take
    on disk; and that is at most the sector's capacity. *)
Theorem disk_usage_within_capacity E hm cm ops s :
  0 <= hm -> 0 <= cm ->
  run_ops E ops (CTagsCache_init hm cm) = (Ok tt, s) ->
  NoDup (values (uncompressed_cache s) ++ values (compressed_cache s)) /\
  (forall p, owns s p -> exists b, disk s p = Some b) /\
  bytes_on_disk s (uncompressed_cache s) = value_size (uncompressed_cache s) /\
  bytes_on_disk s (compressed_cache s) = value_size (compressed_cache s) /\
  bytes_on_disk s (uncompressed_cache s) <= hm /\
  bytes_on_disk s (compressed_cache s) <= cm.
Proof.
  intros Hhm Hcm Hrun.
  pose proof (run_ops_wf E ops _ _ (init_wf hm cm Hhm Hcm) Hrun) as Hwf.
  pose proof (run_ops_exec E ops _ _ Hrun) as Hex.
  assert (Hsz : sized s).
  { rewrite <- Hex. apply exec_ops_sized; [intros m []|intros x []]. }
  pose proof (exec_ops_frame0 E ops (CTagsCache_init hm cm)) as F.
  rewrite Hex in F. destruct F as (F1 & F2 & _).
  destruct Hwf as ((Hh & Hc & Hwc & (Fh & Fc & Fd & Fo) & _ & _)
                   & Hw & _ & Hm1 & Hm2).
  assert (Hbh : bytes_on_disk s (uncompressed_cache s) =
                value_size (uncompressed_cache s)).
  { rewrite bytes_on_disk_total; [symmetry; apply Hh|].
    intros n Hn. split.
    - apply Fo. left. apply in_map. exact Hn.
    - apply Hsz, in_or_app. auto. }
  assert (Hbc : bytes_on_disk s (compressed_cache s) =
                value_size (compressed_cache s)).
  { rewrite bytes_on_disk_total; [symmetry; apply Hc|].
    intros n Hn. split.
    - apply Fo. right. apply in_map. exact Hn.
    - apply Hsz, in_or_app. auto. }
  split; [|split; [|split; [exact Hbh|split; [exact Hbc|]]]].
  - apply NoDup_app_iff. split; [exact Fh|]. split; [exact Fc|].
    intros p Hp Hp'. exact (Fd p Hp Hp').
  - intros p Hp. destruct (Fo p Hp) as [_ Hd].
    destruct (disk s p) as [b|]; [eauto | congruence].
  - unfold within in *. simpl in F1, F2. split; lia.
Qed.

Lemma disk_usage_within_capacity_witness :
  bytes_on_disk (after_a_b (store_env 6))
    (uncompressed_cache (after_a_b (store_env 6))) <= 10 /\
  bytes_on_disk (after_a_b (store_env 6))
    (compressed_cache (after_a_b (store_env 6))) <= 100.
Proof.
  destruct (disk_usage_within_capacity (store_env 6) 10 100
              [Get repo rev_a; Get repo rev_b] (after_a_b (store_env 6)))
    as (_ & _ & _ & _ & H1 & H2); [lia | lia | |split; assumption].
  unfold after_a_b.
  exact (run_eq (run_ops (store_env 6) [Get repo rev_a; Get repo rev_b])
           (CTagsCache_init 10 100) tt
           ltac:(vm_compute; reflexivity)).
Defined.

(** ** No file is left behind *)

(** The keys of each sector are distinct, the sectors share none, and
    every file on disk belongs to an entry or is one of [x]: the files a
    call is still working on. *)
Definition neat3 (x : list path) (h c : list LRUNode)
    (d : path -> option bytes) : Prop :=
  NoDup (map key h) /\ NoDup (map key c) /\
  (forall k, In k (map key h) -> In k (map key c) -> False) /\
  forall p, d p <> None -> In p (map value h) \/ In p (map value c) \/ In p x.

Definition neat (x : list path) (s : state) : Prop :=
  neat3 x (nodes (uncompressed_cache s)) (nodes (compressed_cache s))
    (disk s).

(** A postcondition for the calls that return. *)
Definition on_ok {A} (Q : A -> state -> Prop) (r : result A) (s : state)
  : Prop :=
  match r with
  | Ok a => Q a s
  | Err _ => True
  end.

Lemma NoDup_keys_inj l m n :
  NoDup (map key l) -> In m l -> In n l -> key m = key n -> m = n.
Proof.
  induction l as [|a l IH]; simpl; intros Hnd Hm Hn Hk; [contradiction|].
  inversion Hnd as [|? ? Hnotin Hnd']; subst.
  destruct Hm as [Hm|Hm], Hn as [Hn|Hn]; try congruence; auto.
  - exfalso. apply Hnotin. subst a. rewrite Hk. apply in_map. exact Hn.
  - exfalso. apply Hnotin. subst a. rewrite <- Hk. apply in_map. exact Hm.
Qed.

Lemma unlink_values_or n l p :
  NoDup (map key l) -> In n l -> In p (map value l) ->
  In p (map value (unlink (key n) l)) \/ p = value n.
Proof.
  intros Hnd Hn Hp. apply in_map_iff in Hp. destruct Hp as (m & <- & Hm).
  destruct (string_dec (key m) (key n)) as [Hk|Hk].
  - right. f_equal. eapply NoDup_keys_inj; eassumption.
  - left. apply in_map. apply unlink_In. auto.
Qed.

Lemma neat3_swap x h c d : neat3 x h c d -> neat3 x c h d.
Proof.
  intros (A & B & C & D). split; [exact B|]. split; [exact A|]. split.
  - intros k Hc Hh. exact (C k Hh Hc).
  - intros p Hp. destruct (D p Hp) as [H|[H|H]]; auto.
Qed.

Lemma neat3_more x y h c d : neat3 x h c d -> incl x y -> neat3 y h c d.
Proof.
  intros (A & B & C & D) Hi. split; [exact A|]. split; [exact B|].
  split; [exact C|]. intros p Hp. destruct (D p Hp) as [H|[H|H]]; auto.
Qed.

(** A node leaves the second list; its file is still there. *)
Lemma neat3_drop x h c d n :
  neat3 x h c d -> In n c -> neat3 (value n :: x) h (unlink (key n) c) d.
Proof.
  intros (A & B & C & D) Hn. split; [exact A|].
  split; [apply unlink_NoDup_keys; exact B|]. split.
  - intros k Hh Hc. apply unlink_keys in Hc. exact (C k Hh (proj1 Hc)).
  - intros p Hp. destruct (D p Hp) as [H|[H|H]]; auto.
    + destruct (unlink_values_or n c p B Hn H) as [H'|H']; auto.
      right. right. left. auto.
    + right. right. right. exact H.
Qed.

Lemma neat3_delete x h c d p :
  neat3 (p :: x) h c d -> neat3 x h c (upd d p None).
Proof.
  intros (A & B & C & D). split; [exact A|]. split; [exact B|].
  split; [exact C|]. intros q Hq. unfold upd in Hq.
  destruct (Nat.eqb q p) eqn:He; [congruence|]. apply Nat.eqb_neq in He.
  destruct (D q Hq) as [H|[H|[H|H]]]; auto. congruence.
Qed.

Lemma neat3_file x h c d p o :
  neat3 x h c d -> In p x -> neat3 x h c (upd d p o).
Proof.
  intros (A & B & C & D) Hp. split; [exact A|]. split; [exact B|].
  split; [exact C|]. intros q Hq. unfold upd in Hq.
  destruct (Nat.eqb q p) eqn:He; [|exact (D q Hq)].
  apply Nat.eqb_eq in He. subst q. auto.
Qed.

Lemma neat3_push x h c d k q len :
  neat3 (q :: x) h c d -> ~ In k (map key h) -> ~ In k (map key c) ->
  neat3 x h (c ++ [mkNode k q len]) d.
Proof.
  intros (A & B & C & D) Hh Hc. split; [exact A|]. split; [|split].
  - rewrite map_app. apply NoDup_app_iff. split; [exact B|].
    split; [constructor; [intros []|constructor]|].
    intros a Ha [<-|[]]. exact (Hc Ha).
  - intros a Ha Hca. rewrite map_app in Hca. apply in_app_or in Hca.
    destruct Hca as [Hca|[<-|[]]]; [exact (C a Ha Hca) | exact (Hh Ha)].
  - intros p Hp. rewrite map_app.
    destruct (D p Hp) as [H|[H|[H|H]]]; auto.
    + right. left. apply in_or_app. auto.
    + right. left. apply in_or_app. right. left. exact H.
Qed.

Lemma neat3_touch x h c d n :
  neat3 x h c d -> In n c -> neat3 x h (record_access n c) d.
Proof.
  intros H Hn. pose proof H as (A & B & C & D). unfold record_access.
  assert (Hk : key (mkNode (key n) (value n) (size n)) = key n)
    by reflexivity.
  pose proof (neat3_drop x h c d n H Hn) as H1.
  destruct n as [kn vn sn]. simpl in *.
  apply (neat3_push x h _ d kn vn sn) in H1.
  - exact H1.
  - intros Hh. apply (C kn Hh). apply in_map_iff.
    exists (mkNode kn vn sn). auto.
  - intros Hc. apply unlink_keys in Hc. tauto.
Qed.

Lemma compress_tagsfile_neat E p y s :
  neat y s ->
  wp (compress_tagsfile E p) s (on_ok (fun z s' =>
    neat (z :: y) s' /\ same_sectors s s')).
Proof.
  intros H. unfold wp, compress_tagsfile, bind, read_file; simpl.
  destruct (upd _ _ _ _); simpl; [|exact I].
  destruct (gzip_write _ _ _); simpl; [|exact I].
  split; [|split; reflexivity]. unfold neat; simpl.
  apply neat3_file; [|left; reflexivity].
  apply neat3_file; [|left; reflexivity].
  apply (neat3_more y); [exact H|]. intros q Hq. right. exact Hq.
Qed.

Lemma uncompress_tagsfile_neat E p y s :
  neat y s ->
  wp (uncompress_tagsfile E p) s (on_ok (fun z s' =>
    neat (z :: y) s' /\ same_sectors s s')).
Proof.
  intros H. unfold wp, uncompress_tagsfile, bind, read_file; simpl.
  destruct (upd _ _ _ _); simpl; [|exact I].
  destruct (gzip_read _ _); simpl; [|exact I].
  split; [|split; reflexivity]. unfold neat; simpl.
  apply neat3_file; [|left; reflexivity].
  apply neat3_file; [|left; reflexivity].
  apply (neat3_more y); [exact H|]. intros q Hq. right. exact Hq.
Qed.

Lemma create_tagsfile_neat E r k y s :
  neat y s ->
  wp (create_tagsfile E r k) s (on_ok (fun z s' =>
    neat (z :: y) s' /\ same_sectors s s')).
Proof.
  intros H. unfold wp, create_tagsfile, bind; simpl.
  destruct (ctags _ _ _); simpl; [|exact I].
  split; [|split; reflexivity]. unfold neat; simpl.
  apply neat3_file; [|left; reflexivity].
  apply neat3_file; [|left; reflexivity].
  apply (neat3_more y); [exact H|]. intros q Hq. right. exact Hq.
Qed.

Lemma cold_cb_neat k q x s :
  neat (q :: x) s ->
  wp (_clear_compressed_entry k q) s (fun _ s' => neat x s').
Proof.
  intros H. unfold wp, neat; simpl. apply neat3_delete. exact H.
Qed.

Lemma cold_remove_node_neat n x s :
  neat x s -> In n (nodes (compressed_cache s)) ->
  wp (_remove_node Compressed _clear_compressed_entry n) s (fun _ s' =>
    neat x s' /\ uncompressed_cache s' = uncompressed_cache s /\
    nodes (compressed_cache s') = unlink (key n) (nodes (compressed_cache s))).
Proof.
  intros H Hn. unfold wp, neat; simpl.
  split; [|split; reflexivity]. apply neat3_delete, neat3_drop; assumption.
Qed.

Lemma cold_remove_lru_neat x s :
  neat x s ->
  wp (_remove_lru Compressed _clear_compressed_entry) s
    (fun _ s' => neat x s').
Proof.
  intros H. apply wp_remove_lru.
  destruct (nodes (sector_of Compressed s)) as [|n l] eqn:Hn; [exact H|].
  eapply wp_mono; [apply (cold_remove_node_neat n x s H)|].
  - cbn [sector_of] in Hn. rewrite Hn. left. reflexivity.
  - intros r s' [H1 _]. exact H1.
Qed.

Lemma cold_cleanup_loop_neat x fuel : forall s,
  neat x s ->
  wp (cleanup_loop Compressed _clear_compressed_entry fuel) s
    (fun _ s' => neat x s').
Proof.
  induction fuel as [|fuel IH]; intros s H; apply wp_cleanup_loop;
    destruct (_ >? _); try exact H.
  apply wp_bind. eapply wp_mono; [apply cold_remove_lru_neat, H|].
  intros [[]|e] s1 H1; [|exact H1]. apply IH. exact H1.
Qed.

Lemma cold_clear_loop_neat x fuel : forall s,
  neat x s ->
  wp (clear_loop Compressed _clear_compressed_entry fuel) s
    (fun _ s' => neat x s').
Proof.
  induction fuel as [|fuel IH]; intros s H; apply wp_clear_loop;
    destruct (nodes _); try exact H.
  apply wp_bind. eapply wp_mono; [apply cold_remove_lru_neat, H|].
  intros [[]|e] s1 H1; [|exact H1]. apply IH. exact H1.
Qed.

Lemma cold_add_neat k q x s :
  neat (q :: x) s ->
  ~ In k (keys (uncompressed_cache s)) ->
  ~ In k (keys (compressed_cache s)) ->
  wp (add Compressed _clear_compressed_entry k q) s
    (on_ok (fun _ s' => neat x s')).
Proof.
  intros H Hkh Hkc. unfold add. apply wp_bind, wp_gets. cbn [sector_of].
  rewrite (proj2 (cache_get_None _ _) Hkc).
  apply wp_bind, wp_getsize; [intros b Hb | intros _; exact I].
  apply wp_bind, wp_gets. destruct (_ >=? _).
  - apply wp_bind, wp_ret.
    eapply wp_mono; [apply cold_cb_neat, H|]. intros r s2 H2.
    destruct r; [exact H2 | exact I].
  - apply wp_bind, wp_modify. apply wp_bind, wp_gets.
    match goal with |- wp _ ?s1 _ => set (s1' := s1) end.
    assert (N1 : neat x s1').
    { unfold neat; simpl. rewrite record_access_fresh by exact Hkc.
      apply neat3_push; assumption. }
    destruct (_ >? _); [|apply wp_ret; exact N1].
    eapply wp_mono; [apply wp_cleanup, cold_cleanup_loop_neat, N1|].
    intros r s2 H2. destruct r; [exact H2 | exact I].
Qed.

Lemma hot_cb_neat E k p x s :
  neat (p :: x) s ->
  ~ In k (keys (uncompressed_cache s)) ->
  ~ In k (keys (compressed_cache s)) ->
  wp (_clear_uncompressed_entry E k p) s (on_ok (fun _ s' => neat x s')).
Proof.
  intros H Hkh Hkc. unfold _clear_uncompressed_entry.
  apply wp_bind, wp_modify. apply wp_bind, wp_gets. apply wp_bind.
  match goal with |- wp _ ?s1 _ => set (s0 := s1) end.
  assert (H0 : neat (p :: x) s0) by exact H.
  assert (Hmid : wp (if negb (clearing s0)
                     then z <- compress_tagsfile E p ;;
                          add Compressed _clear_compressed_entry k z
                     else ret tt) s0
                   (on_ok (fun _ s' => neat (p :: x) s'))).
  { destruct (negb _); [|apply wp_ret; exact H0].
    apply wp_bind.
    eapply wp_mono; [apply compress_tagsfile_neat, H0|].
    intros [z|e] s1 Hz; [|exact I]. destruct Hz as (N1 & [S1 S2]).
    apply (cold_add_neat k z (p :: x) s1 N1).
    - rewrite S1. exact Hkh.
    - rewrite S2. exact Hkc. }
  eapply wp_mono; [exact Hmid|]. intros [[]|e] s1 N1; [|exact I].
  unfold wp, on_ok, neat; simpl. apply neat3_delete. exact N1.
Qed.

Lemma hot_remove_node_neat E n x s :
  neat x s -> In n (nodes (uncompressed_cache s)) ->
  wp (_remove_node Uncompressed (_clear_uncompressed_entry E) n) s
    (on_ok (fun _ s' => neat x s')).
Proof.
  intros H Hn. unfold _remove_node. apply wp_bind, wp_modify.
  apply hot_cb_neat.
  - unfold neat; simpl. apply neat3_swap, neat3_drop; [|exact Hn].
    apply neat3_swap. exact H.
  - unfold keys; simpl. intros Hk. apply unlink_keys in Hk. tauto.
  - simpl. destruct H as (_ & _ & Hd & _). intros Hc.
    apply (Hd (key n)); [apply in_map; exact Hn | exact Hc].
Qed.

Lemma hot_remove_lru_neat E x s :
  neat x s ->
  wp (_remove_lru Uncompressed (_clear_uncompressed_entry E)) s
    (on_ok (fun _ s' => neat x s')).
Proof.
  intros H. apply wp_remove_lru.
  destruct (nodes (sector_of Uncompressed s)) as [|n l] eqn:Hn; [exact I|].
  apply hot_remove_node_neat; [exact H|].
  cbn [sector_of] in Hn. rewrite Hn. left. reflexivity.
Qed.

Lemma hot_cleanup_loop_neat E x fuel : forall s,
  neat x s ->
  wp (cleanup_loop Uncompressed (_clear_uncompressed_entry E) fuel) s
    (on_ok (fun _ s' => neat x s')).
Proof.
  induction fuel as [|fuel IH]; intros s H; apply wp_cleanup_loop;
    destruct (_ >? _); try exact H; try exact I.
  apply wp_bind. eapply wp_mono; [apply hot_remove_lru_neat, H|].
  intros [[]|e] s1 H1; [|exact I]. apply IH. exact H1.
Qed.

Lemma hot_clear_loop_neat E x fuel : forall s,
  neat x s ->
  wp (clear_loop Uncompressed (_clear_uncompressed_entry E) fuel) s
    (on_ok (fun _ s' => neat x s')).
Proof.
  induction fuel as [|fuel IH]; intros s H; apply wp_clear_loop;
    destruct (nodes _); try exact H; try exact I.
  apply wp_bind. eapply wp_mono; [apply hot_remove_lru_neat, H|].
  intros [[]|e] s1 H1; [|exact I]. apply IH. exact H1.
Qed.

Lemma hot_add_neat E k p x s :
  neat (p :: x) s ->
  ~ In k (keys (uncompressed_cache s)) ->
  ~ In k (keys (compressed_cache s)) ->
  wp (add Uncompressed (_clear_uncompressed_entry E) k p) s
    (on_ok (fun _ s' => neat x s')).
Proof.
  intros H Hkh Hkc. unfold add. apply wp_bind, wp_gets. cbn [sector_of].
  rewrite (proj2 (cache_get_None _ _) Hkh).
  apply wp_bind, wp_getsize; [intros b Hb | intros _; exact I].
  apply wp_bind, wp_gets. destruct (_ >=? _).
  - apply wp_bind, wp_ret. apply hot_cb_neat; assumption.
  - apply wp_bind, wp_modify. apply wp_bind, wp_gets.
    match goal with |- wp _ ?s1 _ => set (s1' := s1) end.
    assert (N1 : neat x s1').
    { unfold neat; simpl. rewrite record_access_fresh by exact Hkh.
      apply neat3_swap, neat3_push; [|assumption|assumption].
      apply neat3_swap. exact H. }
    destruct (_ >? _); [|apply wp_ret; exact N1].
    apply wp_cleanup, hot_cleanup_loop_neat. exact N1.
Qed.

Lemma fetch_neat E r k s :
  neat [] s ->
  wp (fetch E r k (mem (compressed_cache s) k)) s (on_ok (fun u s' =>
    neat [u] s' /\ uncompressed_cache s' = uncompressed_cache s /\
    ~ In k (keys (compressed_cache s')))).
Proof.
  intros H. unfold fetch. destruct (mem (compressed_cache s) k) eqn:Hc.
  - apply wp_bind, wp_getitem; [intros n Hn | intros _; exact I].
    apply cache_get_Some in Hn. destruct Hn as [Hn Hkn]. cbn [sector_of].
    match goal with |- wp _ ?s1 _ => set (s1' := s1) end.
    assert (N1 : neat [] s1').
    { unfold neat; simpl. apply neat3_touch; assumption. }
    assert (Hh1 : uncompressed_cache s1' = uncompressed_cache s)
      by reflexivity.
    apply wp_bind.
    eapply wp_mono; [apply uncompress_tagsfile_neat, N1|].
    intros [u|e] s2 Hu; [|exact I]. destruct Hu as (N2 & [S1 S2]).
    apply wp_bind, wp_cache_lookup; [intros m Hm | intros _; exact I].
    apply cache_get_Some in Hm. destruct Hm as [Hm Hkm].
    apply wp_bind.
    eapply wp_mono; [apply (cold_remove_node_neat m [u] s2 N2 Hm)|].
    intros [[]|e] s3 (N3 & H3 & H4); [|exact I]. apply wp_ret.
    split; [exact N3|]. split; [rewrite H3, S1; exact Hh1|].
    unfold keys. rewrite H4. intros Hk. apply unlink_keys in Hk.
    destruct Hk as [_ Hk]. apply Hk. symmetry. exact Hkm.
  - eapply wp_mono; [apply create_tagsfile_neat, H|].
    intros [u|e] s2 Hu; [|exact I]. destruct Hu as (N2 & [S1 S2]).
    split; [exact N2|]. split; [exact S1|]. rewrite S2.
    apply mem_false. exact Hc.
Qed.

Lemma get_tagsfile_neat E r k s :
  neat [] s ->
  wp (get_tagsfile E r k) s (on_ok (fun _ s' => neat [] s')).
Proof.
  intros H.
  destruct (Nat.eqb (String.length k) 40) eqn:Hlen.
  2:{ unfold wp, get_tagsfile, bind. rewrite Hlen. exact I. }
  destruct (lock s) eqn:Hl.
  { unfold wp, get_tagsfile, bind, with_lock. rewrite Hlen. simpl.
    rewrite Hl. exact I. }
  apply Nat.eqb_eq in Hlen.
  set (s0 := set_lock true (log LockAcquire s)).
  assert (H0 : neat [] s0) by exact H.
  assert (Hun : forall (m : M path),
            wp m s0 (on_ok (fun _ s' => neat [] s')) ->
            on_ok (fun (_ : path) s' => neat [] s')
              (fst (unlocked (m s0))) (snd (unlocked (m s0)))).
  { intros m Hm. exact Hm. }
  unfold wp. destruct (mem (uncompressed_cache s) k) eqn:Hhot.
  - rewrite (get_tagsfile_hit E r k s Hlen Hl Hhot). apply Hun.
    apply wp_getitem; [intros n Hn | intros _; exact I].
    apply cache_get_Some in Hn. destruct Hn as [Hn _].
    unfold on_ok, neat; simpl. apply neat3_swap, neat3_touch; [|exact Hn].
    apply neat3_swap. exact H.
  - rewrite (get_tagsfile_fetch E r k s Hlen Hl Hhot). apply Hun.
    apply wp_bind.
    eapply wp_mono; [apply (fetch_neat E r k s0 H0)|].
    intros [u|e] s1 Hu; [|exact I]. destruct Hu as (N1 & Hh1 & Hk1).
    apply wp_bind.
    eapply wp_mono; [apply (hot_add_neat E k u [] s1 N1); [|exact Hk1]|].
    + rewrite Hh1. apply mem_false. exact Hhot.
    + intros [[]|e] s2 N2; [|exact I]. apply wp_ret. exact N2.
Qed.

Lemma clear_neat E s :
  neat [] s -> wp (clear E) s (on_ok (fun _ s' => neat [] s')).
Proof.
  intros H. unfold clear. apply wp_bind, wp_modify. apply wp_bind.
  eapply wp_mono; [apply wp_LRU_clear, hot_clear_loop_neat; exact H|].
  intros [[]|e] s1 N1; [|exact I]. apply wp_bind.
  eapply wp_mono; [apply wp_LRU_clear, cold_clear_loop_neat, N1|].
  intros [[]|e] s2 N2; [|exact I]. apply wp_modify. exact N2.
Qed.

Lemma run_op_neat E o s s' :
  neat [] s -> run_op E o s = (Ok tt, s') -> neat [] s'.
Proof.
  intros H Hrun. destruct o as [r k|]; simpl in Hrun.
  - unfold bind in Hrun.
    destruct (get_tagsfile E r k s) as [[p|e] s1] eqn:Hg; [|discriminate].
    injection Hrun as <-.
    exact (wp_run _ _ _ _ _ (get_tagsfile_neat E r k s H) Hg).
  - exact (wp_run _ _ _ _ _ (clear_neat E s H) Hrun).
Qed.

Lemma run_ops_neat E ops : forall s s',
  neat [] s -> run_ops E ops s = (Ok tt, s') -> neat [] s'.
Proof.
  induction ops as [|o ops IH]; intros s s' H Hrun;
    cbn [run_ops] in Hrun.
  - injection Hrun as <-. exact H.
  - unfold bind in Hrun.
    destruct (run_op E o s) as [[[]|e] s1] eqn:H1; [|discriminate].
    exact (IH s1 s' (run_op_neat E o s s1 H H1) Hrun).
Qed.

Lemma init_neat hm cm : neat [] (CTagsCache_init hm cm).
Proof.
  split; [constructor|]. split; [constructor|].
  split; [intros k []|]. intros p Hp. simpl in Hp. congruence.
Qed.

(** X15: Calls that all return leak nothing: on a new cache in an empty
    temporary directory, every file there is afterwards belongs to an entry
    of one of the sectors, whatever the capacities. *)
Theorem returning_calls_leave_no_stray_file E hm cm ops s p :
  run_ops E ops (CTagsCache_init hm cm) = (Ok tt, s) ->
  disk s p <> None -> owns s p.
Proof.
  intros Hrun Hp.
  destruct (run_ops_neat E ops _ _ (init_neat hm cm) Hrun) as (_ & _ & _ & D).
  destruct (D p Hp) as [H|[H|[]]]; [left | right]; exact H.
Qed.

Lemma returning_calls_leave_no_stray_file_witness :
  owns (after_a_b (store_env 6)) 2%nat.
Proof.
  apply (returning_calls_leave_no_stray_file (store_env 6) 10 100
           [Get repo rev_a; Get repo rev_b]).
  - unfold after_a_b.
    exact (run_eq (run_ops (store_env 6) [Get repo rev_a; Get repo rev_b])
             (CTagsCache_init 10 100) tt
             ltac:(vm_compute; reflexivity)).
  - vm_compute. discriminate.
Defined.



(** ** What a call returns and what it raises *)


Lemma insert_result E k p b s s' :
  mid s ->
  ~ In k (keys (uncompressed_cache s)) ->
  ~ In k (keys (compressed_cache s)) ->
  ~ owns s p -> (p < next_tmp s)%nat -> disk s p = Some b ->
  add Uncompressed (_clear_uncompressed_entry E) k p s = (Ok tt, s') ->
  (cache_get (uncompressed_cache s') k =
     Some (mkNode k p (Z.of_nat (List.length b))) /\
   disk s' p <> None /\
   Z.of_nat (List.length b) < after_cleanup_size (uncompressed_cache s)) \/
  (mem (uncompressed_cache s') k = false /\ disk s' p = None /\
   after_cleanup_size (uncompressed_cache s) <= Z.of_nat (List.length b)).
Proof.
  intros Hmid Hkh Hkc Hnp Hlt Hp Hrun.
  pose proof (hot_add_ok E s k p b Hmid Hkh Hkc Hnp Hlt Hp) as Hadd.
  rewrite Hrun in Hadd. destruct Hadd as (M' & _ & Hbr).
  destruct (Z.ltb_spec (Z.of_nat (List.length b))
              (after_cleanup_size (uncompressed_cache s))) as [Hs|Hs].
  - left. destruct Hbr as ([l' Hl'] & _).
    assert (Hg : cache_get (uncompressed_cache s') k =
                 Some (mkNode k p (Z.of_nat (List.length b)))).
    { apply (cache_get_last _ l' (mkNode k p (Z.of_nat (List.length b)))
               Hl'). apply M'. }
    split; [exact Hg|]. split; [|exact Hs].
    destruct M' as (_ & _ & _ & (_ & _ & _ & Fo) & _).
    apply (Fo p). left. destruct (cache_get_Some _ _ _ Hg) as [Hin _].
    apply (in_map value) in Hin. exact Hin.
  - right. destruct Hbr as (Hh & Hd & _). rewrite Hh.
    split; [apply mem_false; exact Hkh|]. split; [exact Hd | exact Hs].
Qed.

(** X4: What a returned path is worth: after [get_tagsfile] returns on a
    well-formed cache, either the key is in the uncompressed sector under
    the returned path and the file exists, or the call was not a hit, the
    key is not in the uncompressed sector and the returned file has already
    been deleted again. *)
Theorem get_tagsfile_result E r k s p s' :
  wf s -> get_tagsfile E r k s = (Ok p, s') ->
  (exists n, cache_get (uncompressed_cache s') k = Some n /\
             value n = p /\ disk s' p <> None) \/
  (mem (uncompressed_cache s) k = false /\
   mem (uncompressed_cache s') k = false /\ disk s' p = None).
Proof.
  intros Hwf Hrun.
  pose proof Hwf as (Hmid & Hw & Hl & _).
  pose proof Hmid as (Hh & Hc & Hwc & (Fh & Fc & Fd & Fo) & Hd & Hcl).
  destruct (Nat.eq_dec (String.length k) 40) as [Hlen|Hlen].
  2:{ exfalso. unfold get_tagsfile in Hrun. unfold bind at 1 in Hrun.
      apply Nat.eqb_neq in Hlen. rewrite Hlen in Hrun. discriminate Hrun. }
  set (s0 := set_lock true (log LockAcquire s)).
  destruct (mem (uncompressed_cache s) k) eqn:Hhot.
  - left. rewrite (get_tagsfile_hit E r k s Hlen Hl Hhot) in Hrun.
    fold s0 in Hrun.
    apply mem_In in Hhot. destruct (cache_get_In _ _ Hhot) as [n Hn].
    rewrite (getitem_run Uncompressed k s0 n Hn) in Hrun.
    unfold unlocked in Hrun. cbn [fst snd] in Hrun.
    injection Hrun as <- <-.
    destruct (cache_get_Some _ _ _ Hn) as [Hin Hkn]. exists n.
    split; [|split; [reflexivity|]].
    + simpl. rewrite <- Hkn. apply cache_get_touched.
    + simpl. apply (Fo (value n)). left. apply in_map. exact Hin.
  - rewrite (get_tagsfile_fetch E r k s Hlen Hl Hhot) in Hrun.
    fold s0 in Hrun. apply mem_false in Hhot.
    assert (Hfin : forall s3 u b,
              mid s3 -> uncompressed_cache s3 = uncompressed_cache s0 ->
              ~ In k (keys (compressed_cache s3)) ->
              ~ owns s3 u -> (u < next_tmp s3)%nat -> disk s3 u = Some b ->
              unlocked ((add Uncompressed (_clear_uncompressed_entry E) k u ;;
                         ret u) s3) = (Ok p, s') ->
              (exists n, cache_get (uncompressed_cache s') k = Some n /\
                         value n = p /\ disk s' p <> None) \/
              (false = false /\
               mem (uncompressed_cache s') k = false /\ disk s' p = None)).
    { intros s3 u b M3 Hh3 Hk3 Ho3 Hu3 Hd3 Hr. unfold unlocked, bind in Hr.
      destruct (add _ _ _ _ _) as [[[]|e] s4] eqn:Hadd;
        cbn [fst snd] in Hr; [|discriminate Hr].
      injection Hr as <- <-.
      destruct (insert_result E k u b s3 s4 M3
                  ltac:(rewrite Hh3; exact Hhot) Hk3 Ho3 Hu3 Hd3 Hadd)
        as [(Hg & Hex & _)|(Hm & Hnone & _)].
      - left. eexists. split; [exact Hg|]. split; [reflexivity | exact Hex].
      - right. split; [reflexivity|]. split; [exact Hm | exact Hnone]. }
    destruct (mem (compressed_cache s) k) eqn:Hcold.
    + apply mem_In in Hcold. destruct (cache_get_In _ _ Hcold) as [n Hn].
      destruct (cache_get_Some _ _ _ Hn) as [Hin Hkn].
      destruct (Fo (value n)) as [Hlt Hex];
        [right; apply in_map; exact Hin|].
      destruct (disk s (value n)) as [zb|] eqn:Hz; [clear Hex|congruence].
      destruct (gzip_read E zb) as [b|] eqn:Hb.
      * destruct (fetch_cold_ok E r k s0 n zb b Hmid Hhot Hn Hz Hb)
          as (s3 & Hrun3 & M3 & Hh3 & Hk3 & Ho3 & Hn3 & Hd3 & _).
        rewrite (bind_ok _ _ _ _ _ Hrun3) in Hrun.
        apply (Hfin s3 (next_tmp s0) b M3 Hh3 Hk3 Ho3 ltac:(lia) Hd3 Hrun).
      * rewrite (bind_err _ _ _ _ _
          (fetch_cold_fail E r k s0 n zb Hn Hz ltac:(simpl; lia) Hb))
          in Hrun. discriminate Hrun.
    + apply mem_false in Hcold. destruct (ctags E r k) as [b|] eqn:Hb.
      * destruct (fetch_miss_ok E r k s0 b Hmid Hb)
          as (s3 & Hrun3 & M3 & [Hh3 Hc3] & Ho3 & Hn3 & Hd3 & _).
        rewrite (bind_ok _ _ _ _ _ Hrun3) in Hrun.
        apply (Hfin s3 (next_tmp s0) b M3 Hh3
                 ltac:(rewrite Hc3; exact Hcold) Ho3 ltac:(lia) Hd3 Hrun).
      * unfold fetch, create_tagsfile, bind, unlocked in Hrun;
          simpl in Hrun. rewrite Hb in Hrun. discriminate Hrun.
Qed.

Lemma get_tagsfile_result_witness :
  (exists n,
     cache_get (uncompressed_cache (after_a (store_env 6))) rev_a = Some n /\
     value n = 0%nat /\ disk (after_a (store_env 6)) 0%nat <> None) \/
  (mem (uncompressed_cache (CTagsCache_init 10 100)) rev_a = false /\
   mem (uncompressed_cache (after_a (store_env 6))) rev_a = false /\
   disk (after_a (store_env 6)) 0%nat = None).
Proof.
  apply (get_tagsfile_result (store_env 6) repo rev_a
           (CTagsCache_init 10 100) 0%nat (after_a (store_env 6))).
  - apply init_wf; lia.
  - vm_compute. reflexivity.
Defined.



(** ** What the files hold *)

Section Faithful.

Variable E : env.

Hypothesis round_trip : forall b z,
  gzip_write E COMPRESSION_LEVEL b = Some z -> gzip_read E z = Some b.

(** [b] is a tagsfile [create_tagsfile] wrote for the revision [k]. *)
Definition made (k : string) (b : bytes) : Prop :=
  exists r, ctags E r k = Some b.

(** [z] is the compressed form of such a tagsfile. *)
Definition packed (k : string) (z : bytes) : Prop :=
  exists b, made k b /\ gzip_write E COMPRESSION_LEVEL b = Some z.

(** [p] was made by an earlier [mkstemp] and, while it exists, holds
    content that satisfies [P]. *)
Definition holds (s : state) (p : path) (P : bytes -> Prop) : Prop :=
  (p < next_tmp s)%nat /\ forall b, disk s p = Some b -> P b.

Definition faithful (s : state) : Prop :=
  (forall n, In n (nodes (uncompressed_cache s)) ->
     holds s (value n) (made (key n))) /\
  (forall n, In n (nodes (compressed_cache s)) ->
     holds s (value n) (packed (key n))).

Lemma holds_frame s s' p P : frame0 s s' -> holds s p P -> holds s' p P.
Proof.
  intros (_ & _ & _ & _ & _ & _ & F7 & _ & F9) [H1 H2]. split; [lia|].
  intros b Hb. destruct (F9 _ H1) as [H|H]; rewrite H in Hb;
    [auto | discriminate].
Qed.

Lemma faithful_incl s s' :
  frame0 s s' ->
  incl (nodes (uncompressed_cache s')) (nodes (uncompressed_cache s)) ->
  incl (nodes (compressed_cache s')) (nodes (compressed_cache s)) ->
  faithful s -> faithful s'.
Proof.
  intros F Hh Hc [H1 H2]. split; intros n Hn.
  - apply (holds_frame s s' _ _ F), H1, Hh, Hn.
  - apply (holds_frame s s' _ _ F), H2, Hc, Hn.
Qed.

Lemma faithful_same s s' :
  frame0 s s' -> same_sectors s s' -> faithful s -> faithful s'.
Proof.
  intros F [H1 H2]. apply (faithful_incl s s' F).
  - rewrite H1. apply incl_refl.
  - rewrite H2. apply incl_refl.
Qed.

Lemma faithful_cold_sub s s' :
  frame0 s s' -> cold_sub s s' -> faithful s -> faithful s'.
Proof.
  intros F [H1 H2]. apply (faithful_incl s s' F); [|exact H2].
  rewrite H1. apply incl_refl.
Qed.

Lemma cold_add_faithful k q s :
  faithful s -> cache_get (compressed_cache s) k = None ->
  holds s q (packed k) ->
  wp (add Compressed _clear_compressed_entry k q) s (fun _ s' =>
    faithful s' /\ uncompressed_cache s' = uncompressed_cache s).
Proof.
  intros [Fh Fc] Hg Hq.
  eapply wp_mono.
  - apply wp_conj; [apply (cold_add_nodes k q s Hg)|].
    apply wp_framed, framed_add, framed_clear_compressed_entry.
  - intros r s' [[H1 H2] F]. split; [|exact H1]. split; intros n Hn.
    + rewrite H1 in Hn. apply (holds_frame s s' _ _ F), Fh, Hn.
    + apply (holds_frame s s' _ _ F).
      destruct (H2 n Hn) as [Ho|(Hk & Hv & _)]; [apply Fc, Ho|].
      rewrite Hk, Hv. exact Hq.
Qed.

Lemma compress_tagsfile_faithful k p s :
  faithful s -> holds s p (made k) ->
  wp (compress_tagsfile E p) s (fun r s' =>
    faithful s' /\ same_sectors s s' /\
    match r with Ok z => holds s' z (packed k) | Err _ => True end).
Proof.
  intros Hf [Hlt Hp]. eapply wp_mono.
  - apply wp_conj; [apply wp_conj|].
    + apply wp_framed, framed_compress_tagsfile.
    + apply compress_tagsfile_sectors.
    + instantiate (1 := fun r s' =>
        match r with Ok z => holds s' z (packed k) | Err _ => True end).
      unfold wp, compress_tagsfile, bind, read_file; simpl.
      rewrite upd_other by lia.
      destruct (disk s p) as [b|] eqn:Hb; simpl; [|exact I].
      destruct (gzip_write E COMPRESSION_LEVEL b) as [z|] eqn:Hz; simpl;
        [|exact I].
      split; [simpl; lia|]. intros zb Hzb. simpl in Hzb.
      rewrite upd_same in Hzb. injection Hzb as <-.
      exists b. split; [apply Hp; reflexivity | exact Hz].
  - intros r s' [[F HS] H3]. split; [|split; [exact HS | exact H3]].
    exact (faithful_same s s' F HS Hf).
Qed.

Lemma uncompress_tagsfile_faithful k p s :
  faithful s -> holds s p (packed k) ->
  wp (uncompress_tagsfile E p) s (fun r s' =>
    faithful s' /\ same_sectors s s' /\
    match r with Ok z => holds s' z (made k) | Err _ => True end).
Proof.
  intros Hf [Hlt Hp]. eapply wp_mono.
  - apply wp_conj; [apply wp_conj|].
    + apply wp_framed, framed_uncompress_tagsfile.
    + apply uncompress_tagsfile_sectors.
    + instantiate (1 := fun r s' =>
        match r with Ok z => holds s' z (made k) | Err _ => True end).
      unfold wp, uncompress_tagsfile, bind, read_file; simpl.
      rewrite upd_other by lia.
      destruct (disk s p) as [zb|] eqn:Hz; simpl; [|exact I].
      destruct (gzip_read E zb) as [b|] eqn:Hb; simpl; [|exact I].
      split; [simpl; lia|]. intros b' Hb'. simpl in Hb'.
      rewrite upd_same in Hb'. injection Hb' as <-.
      destruct (Hp zb eq_refl) as (b0 & Hm & Hw).
      rewrite (round_trip b0 zb Hw) in Hb. injection Hb as <-. exact Hm.
  - intros r s' [[F HS] H3]. split; [|split; [exact HS | exact H3]].
    exact (faithful_same s s' F HS Hf).
Qed.

Lemma create_tagsfile_faithful r k s :
  faithful s ->
  wp (create_tagsfile E r k) s (fun res s' =>
    faithful s' /\ same_sectors s s' /\
    match res with Ok z => holds s' z (made k) | Err _ => True end).
Proof.
  intros Hf. eapply wp_mono.
  - apply wp_conj; [apply wp_conj|].
    + apply wp_framed, framed_create_tagsfile.
    + apply create_tagsfile_sectors.
    + instantiate (1 := fun r s' =>
        match r with Ok z => holds s' z (made k) | Err _ => True end).
      unfold wp, create_tagsfile, bind; simpl.
      destruct (ctags E r k) as [b|] eqn:Hb; simpl; [|exact I].
      split; [simpl; lia|]. intros b' Hb'. simpl in Hb'.
      rewrite upd_same in Hb'. injection Hb' as <-. exists r. exact Hb.
  - intros res s' [[F HS] H3]. split; [|split; [exact HS | exact H3]].
    exact (faithful_same s s' F HS Hf).
Qed.

Lemma hot_cb_faithful k p s :
  faithful s -> ~ In k (keys (compressed_cache s)) ->
  holds s p (made k) ->
  wp (_clear_uncompressed_entry E k p) s (fun _ s' =>
    faithful s' /\ uncompressed_cache s' = uncompressed_cache s).
Proof.
  intros Hf Hk Hp. unfold _clear_uncompressed_entry.
  apply wp_bind, wp_modify. apply wp_bind, wp_gets. apply wp_bind.
  match goal with |- wp _ ?s1 _ => set (s0 := s1) end.
  assert (Hf0 : faithful s0) by exact Hf.
  assert (Hp0 : holds s0 p (made k)) by exact Hp.
  assert (Hmid : wp (if negb (clearing s0)
                     then z <- compress_tagsfile E p ;;
                          add Compressed _clear_compressed_entry k z
                     else ret tt) s0
                   (fun _ s' => faithful s' /\
                      uncompressed_cache s' = uncompressed_cache s)).
  { destruct (negb _); [|apply wp_ret; split; [exact Hf0 | reflexivity]].
    apply wp_bind.
    eapply wp_mono; [apply (compress_tagsfile_faithful k p s0 Hf0 Hp0)|].
    intros [z|e] s1 (Hf1 & [H1 H2] & Hz).
    - eapply wp_mono; [apply (cold_add_faithful k z s1 Hf1); [|exact Hz]|].
      + rewrite H2. apply cache_get_None. exact Hk.
      + intros r s2 [Hf2 H3]. split; [exact Hf2|]. rewrite H3. exact H1.
    - split; [exact Hf1 | exact H1]. }
  eapply wp_mono; [exact Hmid|]. intros [[]|e] s1 [Hf1 H1];
    [|split; assumption].
  pose proof (wp_framed _ s1 (framed_delete_tagsfile p)) as F.
  unfold wp in F |- *. simpl in F |- *. split; [|exact H1].
  apply (faithful_incl s1 _ F); [apply incl_refl | apply incl_refl |].
  exact Hf1.
Qed.

Lemma hot_remove_node_faithful n s :
  faithful s -> In n (nodes (uncompressed_cache s)) ->
  ~ In (key n) (keys (compressed_cache s)) ->
  wp (_remove_node Uncompressed (_clear_uncompressed_entry E) n) s
    (fun _ s' => faithful s').
Proof.
  intros [Fh Fc] Hn Hk. unfold _remove_node. apply wp_bind, wp_modify.
  eapply wp_mono; [apply hot_cb_faithful|].
  - split; intros m Hm; simpl in Hm.
    + apply unlink_In in Hm. apply (Fh m), Hm.
    + apply (Fc m), Hm.
  - exact Hk.
  - apply (Fh n Hn).
  - intros r s' [H _]. exact H.
Qed.

Lemma hot_remove_lru_faithful s :
  faithful s -> disjoint_sectors s ->
  wp (_remove_lru Uncompressed (_clear_uncompressed_entry E)) s
    (fun _ s' => faithful s').
Proof.
  intros Hf Hd. apply wp_remove_lru.
  destruct (nodes (sector_of Uncompressed s)) as [|n l] eqn:Hn;
    [exact Hf|].
  cbn [sector_of] in Hn.
  apply hot_remove_node_faithful; [exact Hf | rewrite Hn; left; reflexivity|].
  intros Hc. apply (Hd (key n)); [|exact Hc].
  unfold keys. rewrite Hn. left. reflexivity.
Qed.

Lemma hot_cleanup_loop_faithful fuel : forall s,
  faithful s -> disjoint_sectors s ->
  wp (cleanup_loop Uncompressed (_clear_uncompressed_entry E) fuel) s
    (fun _ s' => faithful s').
Proof.
  induction fuel as [|fuel IH]; intros s Hf Hd; apply wp_cleanup_loop;
    destruct (_ >? _); try assumption.
  apply wp_bind. eapply wp_mono.
  - apply wp_conj; [apply hot_remove_lru_faithful; assumption|].
    apply hot_remove_lru_disjoint. exact Hd.
  - intros [[]|e] s1 [H1 [H2 _]]; [|exact H1]. apply IH; assumption.
Qed.

Lemma hot_clear_loop_faithful fuel : forall s,
  faithful s -> disjoint_sectors s ->
  wp (clear_loop Uncompressed (_clear_uncompressed_entry E) fuel) s
    (fun _ s' => faithful s').
Proof.
  induction fuel as [|fuel IH]; intros s Hf Hd; apply wp_clear_loop;
    destruct (nodes _); try assumption.
  apply wp_bind. eapply wp_mono.
  - apply wp_conj; [apply hot_remove_lru_faithful; assumption|].
    apply hot_remove_lru_disjoint. exact Hd.
  - intros [[]|e] s1 [H1 [H2 _]]; [|exact H1]. apply IH; assumption.
Qed.

Lemma hot_add_faithful k p s :
  faithful s -> disjoint_sectors s ->
  cache_get (uncompressed_cache s) k = None ->
  ~ In k (keys (compressed_cache s)) -> holds s p (made k) ->
  wp (add Uncompressed (_clear_uncompressed_entry E) k p) s
    (fun _ s' => faithful s').
Proof.
  intros Hf Hd Hg Hk Hp. unfold add. apply wp_bind, wp_gets.
  cbn [sector_of]. rewrite Hg.
  apply wp_bind, wp_getsize; [intros b Hb | intros _; exact Hf].
  apply wp_bind, wp_gets. destruct (_ >=? _).
  - apply wp_bind, wp_ret.
    eapply wp_mono; [apply hot_cb_faithful; assumption|].
    intros r s2 [H _]. exact H.
  - apply wp_bind, wp_modify. apply wp_bind, wp_gets.
    match goal with |- wp _ ?s1 _ => set (s1' := s1) end.
    assert (H1 : faithful s1').
    { destruct Hf as [Fh Fc]. split; intros n Hn; simpl in Hn.
      - unfold record_access in Hn. apply in_app_or in Hn.
        destruct Hn as [Hn|[<-|[]]].
        + apply unlink_In in Hn. apply (Fh n), Hn.
        + exact Hp.
      - apply (Fc n), Hn. }
    assert (H2 : disjoint_sectors s1').
    { intros x Hh Hc. simpl in Hh, Hc. unfold keys in Hh. simpl in Hh.
      unfold record_access in Hh. rewrite map_app in Hh.
      apply in_app_or in Hh. destruct Hh as [Hh|[Hh|[]]].
      - apply unlink_keys in Hh. exact (Hd x (proj1 Hh) Hc).
      - simpl in Hh. subst x. exact (Hk Hc). }
    destruct (_ >? _); [|apply wp_ret; exact H1].
    apply wp_cleanup, hot_cleanup_loop_faithful; assumption.
Qed.

Lemma fetch_faithful r k s :
  faithful s -> disjoint_sectors s ->
  wp (fetch E r k (mem (compressed_cache s) k)) s (fun res s' =>
    faithful s' /\ disjoint_sectors s' /\
    uncompressed_cache s' = uncompressed_cache s /\
    match res with
    | Ok u => ~ In k (keys (compressed_cache s')) /\ holds s' u (made k)
    | Err _ => True
    end).
Proof.
  intros Hf Hd. unfold fetch.
  destruct (mem (compressed_cache s) k) eqn:Hc.
  - apply wp_bind, wp_getitem; [intros n Hn | intros _; auto].
    apply cache_get_Some in Hn. destruct Hn as [Hn Hkn].
    cbn [sector_of].
    match goal with |- wp _ ?s1 _ => set (s1' := s1) end.
    assert (Hf1 : faithful s1').
    { destruct Hf as [Fh Fc]. split; intros m Hm; simpl in Hm.
      - apply (Fh m), Hm.
      - unfold record_access in Hm. apply in_app_or in Hm.
        destruct Hm as [Hm|[<-|[]]]; [|exact (Fc n Hn)].
        apply unlink_In in Hm. apply (Fc m), Hm. }
    assert (Hd1 : disjoint_sectors s1').
    { intros x Hx Hcx. simpl in Hx, Hcx. unfold keys in Hcx.
      simpl in Hcx. apply record_access_keys in Hcx; [|assumption].
      exact (Hd x Hx Hcx). }
    assert (Hh1 : uncompressed_cache s1' = uncompressed_cache s)
      by reflexivity.
    assert (Hz : holds s1' (value n) (packed k)).
    { rewrite <- Hkn. exact (proj2 Hf n Hn). }
    apply wp_bind.
    eapply wp_mono;
      [apply (uncompress_tagsfile_faithful k (value n) s1' Hf1 Hz)|].
    intros [u|e] s2 (Hf2 & [H2 H3] & Hu).
    2:{ split; [exact Hf2|]. split; [|split; [exact H2 | exact I]].
        intros x. rewrite H2, H3. apply Hd1. }
    assert (Hd2 : disjoint_sectors s2).
    { intros x. rewrite H2, H3. apply Hd1. }
    apply wp_bind, wp_cache_lookup;
      [intros m Hm | intros _; split; [exact Hf2|split; [exact Hd2|]]; auto].
    apply cache_get_Some in Hm. destruct Hm as [Hm Hkm].
    apply wp_bind. eapply wp_mono.
    + apply wp_conj; [apply cold_remove_node_sub|].
      apply wp_conj;
        [apply wp_framed, framed_remove_node, framed_clear_compressed_entry|].
      instantiate (1 := fun _ s' => ~ In k (keys (compressed_cache s'))).
      unfold wp; simpl. rewrite Hkm.
      intros Hx. apply unlink_keys in Hx. tauto.
    + assert (Hd3 : forall s3, cold_sub s2 s3 -> disjoint_sectors s3).
      { intros s3 [Hh3 Hc3] x Hx Hcx. rewrite Hh3 in Hx.
        apply in_map_iff in Hcx. destruct Hcx as (y & <- & Hy).
        apply (Hd2 (key y) Hx). apply in_map, Hc3, Hy. }
      intros [[]|e] s3 (Hsub & F & Hk3).
      * apply wp_ret.
        split; [exact (faithful_cold_sub s2 s3 F Hsub Hf2)|].
        split; [exact (Hd3 s3 Hsub)|].
        split; [destruct Hsub; congruence|].
        split; [exact Hk3 | exact (holds_frame s2 s3 _ _ F Hu)].
      * split; [exact (faithful_cold_sub s2 s3 F Hsub Hf2)|].
        split; [exact (Hd3 s3 Hsub)|].
        split; [destruct Hsub; congruence | exact I].
  - eapply wp_mono; [apply create_tagsfile_faithful, Hf|].
    intros res s2 (Hf2 & [H2 H3] & Hu). split; [exact Hf2|].
    split; [intros x; rewrite H2, H3; apply Hd|]. split; [exact H2|].
    destruct res; [|exact I]. split; [|exact Hu]. rewrite H3.
    apply mem_false. exact Hc.
Qed.

Lemma get_tagsfile_faithful r k s :
  faithful s -> disjoint_sectors s ->
  wp (get_tagsfile E r k) s (fun res s' =>
    faithful s' /\
    match res with
    | Ok p => forall b, disk s' p = Some b -> made k b
    | Err _ => True
    end).
Proof.
  intros Hf Hd.
  destruct (Nat.eqb (String.length k) 40) eqn:Hlen.
  2:{ unfold wp, get_tagsfile, bind. rewrite Hlen. split; [exact Hf|exact I]. }
  destruct (lock s) eqn:Hl.
  { unfold wp, get_tagsfile, bind, with_lock. rewrite Hlen. simpl.
    rewrite Hl. split; [exact Hf | exact I]. }
  apply Nat.eqb_eq in Hlen.
  set (s0 := set_lock true (log LockAcquire s)).
  assert (Hf0 : faithful s0) by exact Hf.
  assert (Hd0 : disjoint_sectors s0) by exact Hd.
  set (Q := fun (res : result path) (s' : state) =>
    faithful s' /\
    match res with
    | Ok p => forall b, disk s' p = Some b -> made k b
    | Err _ => True
    end).
  assert (Hun : forall (m : M path),
            wp m s0 Q ->
            Q (fst (unlocked (m s0))) (snd (unlocked (m s0)))).
  { intros m Hm. exact Hm. }
  unfold wp. fold Q. destruct (mem (uncompressed_cache s) k) eqn:Hhot.
  - rewrite (get_tagsfile_hit E r k s Hlen Hl Hhot). apply Hun.
    apply wp_getitem; [intros n Hn | intros _; split; [exact Hf0|exact I]].
    apply cache_get_Some in Hn. destruct Hn as [Hn Hkn].
    destruct Hf0 as [Fh Fc]. split.
    + split; intros m Hm; simpl in Hm.
      * unfold record_access in Hm. apply in_app_or in Hm.
        destruct Hm as [Hm|[<-|[]]]; [|exact (Fh n Hn)].
        apply unlink_In in Hm. apply (Fh m), Hm.
      * apply (Fc m), Hm.
    + intros b Hb. rewrite <- Hkn. apply (proj2 (Fh n Hn)). exact Hb.
  - rewrite (get_tagsfile_fetch E r k s Hlen Hl Hhot). apply Hun.
    apply wp_bind.
    eapply wp_mono; [apply (fetch_faithful r k s0 Hf0 Hd0)|].
    intros [u|e] s1 (Hf1 & Hd1 & Hh1 & Hres); [|split; [exact Hf1|exact I]].
    destruct Hres as [Hk1 Hu1]. apply wp_bind.
    eapply wp_mono.
    + apply wp_conj.
      * apply (hot_add_faithful k u s1 Hf1 Hd1); [|exact Hk1|exact Hu1].
        rewrite Hh1. apply cache_get_None, mem_false. exact Hhot.
      * apply wp_framed, framed_add, framed_clear_uncompressed_entry.
    + intros [[]|e] s2 [Hf2 F]; [|split; [exact Hf2|exact I]].
      apply wp_ret. split; [exact Hf2|].
      exact (proj2 (holds_frame s1 s2 _ _ F Hu1)).
Qed.

Lemma clear_faithful s :
  faithful s -> disjoint_sectors s ->
  wp (clear E) s (fun _ s' => faithful s').
Proof.
  intros Hf Hd. unfold clear. apply wp_bind, wp_modify. apply wp_bind.
  eapply wp_mono;
    [apply wp_LRU_clear, hot_clear_loop_faithful; assumption|].
  intros [[]|e] s1 Hf1; [|exact Hf1]. apply wp_bind.
  eapply wp_mono.
  - apply wp_LRU_clear. apply wp_conj; [apply cold_clear_loop_sub|].
    apply wp_framed, framed_clear_loop, framed_clear_compressed_entry.
  - intros [[]|e] s2 [Hsub F].
    + apply wp_modify. exact (faithful_cold_sub s1 s2 F Hsub Hf1).
    + exact (faithful_cold_sub s1 s2 F Hsub Hf1).
Qed.

Lemma run_op_faithful o s :
  faithful s -> disjoint_sectors s -> faithful (snd (run_op E o s)).
Proof.
  intros Hf Hd. destruct o as [r k|]; simpl.
  - change (wp (get_tagsfile E r k ;; ret tt) s (fun _ s' => faithful s')).
    apply wp_bind.
    eapply wp_mono; [apply get_tagsfile_faithful; assumption|].
    intros [p|e] s1 [H1 _]; exact H1.
  - apply (clear_faithful s Hf Hd).
Qed.

Lemma exec_ops_faithful ops : forall s,
  faithful s -> disjoint_sectors s -> faithful (exec_ops E ops s).
Proof.
  induction ops as [|o ops IH]; intros s Hf Hd; simpl; [exact Hf|].
  apply IH; [apply run_op_faithful | apply run_op_disjoint]; assumption.
Qed.

End Faithful.

(** X16: the cache hands out what [create_tagsfile] made.  With a codec
    that round-trips, after any calls on a new cache, returning or raising:
    when [get_tagsfile] returns a path whose file exists, the file holds a
    tagsfile that [create_tagsfile] wrote for that revision, in this call or
    an earlier one, however often the entry was compressed and uncompressed
    in between; and the same holds of the file of every entry of the
    uncompressed sector, while the file of an entry of the compressed
    sector holds the compressed form of such a tagsfile. *)
Theorem returned_file_holds_the_tagsfile E hm cm ops r k p s' :
  (forall b z, gzip_write E COMPRESSION_LEVEL b = Some z ->
               gzip_read E z = Some b) ->
  get_tagsfile E r k (exec_ops E ops (CTagsCache_init hm cm)) = (Ok p, s') ->
  (forall b, disk s' p = Some b -> exists r', ctags E r' k = Some b) /\
  (forall n b, In n (nodes (uncompressed_cache s')) ->
     disk s' (value n) = Some b -> exists r', ctags E r' (key n) = Some b) /\
  (forall n z, In n (nodes (compressed_cache s')) ->
     disk s' (value n) = Some z ->
     exists r' b, ctags E r' (key n) = Some b /\
                  gzip_write E COMPRESSION_LEVEL b = Some z).
Proof.
  intros RT Hrun.
  set (s := exec_ops E ops (CTagsCache_init hm cm)) in *.
  assert (Hf : faithful E s).
  { apply exec_ops_faithful; [exact RT| |intros x []].
    split; intros n []. }
  assert (Hd : disjoint_sectors s).
  { apply exec_ops_disjoint. intros x []. }
  pose proof (wp_run _ _ _ _ _ (get_tagsfile_faithful E RT r k s Hf Hd) Hrun)
    as [[Fh Fc] Hp].
  split; [exact Hp|]. split.
  - intros n b Hn Hb. exact (proj2 (Fh n Hn) b Hb).
  - intros n z Hn Hz. destruct (proj2 (Fc n Hn) z Hz) as (b & [r' Hr] & Hw).
    exists r', b. auto.
Qed.

Lemma returned_file_holds_the_tagsfile_witness :
  exists r', ctags (store_env 6) r' rev_a = Some (repeat x00 6).
Proof.
  destruct (returned_file_holds_the_tagsfile (store_env 6) 10 100
              [Get repo rev_a; Get repo rev_b] repo rev_a 3%nat
              (snd (get_tagsfile (store_env 6) repo rev_a
                      (exec_ops (store_env 6)
                         [Get repo rev_a; Get repo rev_b]
                         (CTagsCache_init 10 100))))) as [H _].
  - intros b z Hz. injection Hz as <-. reflexivity.
  - exact (run_eq (get_tagsfile (store_env 6) repo rev_a)
             (exec_ops (store_env 6) [Get repo rev_a; Get repo rev_b]
                (CTagsCache_init 10 100)) 3%nat
             ltac:(vm_compute; reflexivity)).
  - apply (H (repeat x00 6)). vm_compute. reflexivity.
Defined.

(** ** Clearing forgets *)



